(** * Semantic search pipeline of [controllers/chatController.js]

    A shallow embedding of the embedding/search core of the chat controller:
    [generateEmbedding], [storeEmbedding], [generateAndStoreEmbedding],
    [cosineSimilarity], [searchMessages], [performKeywordSearch],
    [generateMissingEmbeddings] and [deleteConversation], together with the
    parts of the JavaScript run time and of the relational store they rely
    on.

    JavaScript numbers are IEEE 754 binary64 values: they are modelled by the
    primitive floats of the kernel, so that every arithmetic step of the
    source rounds here exactly as it does there. *)

From Stdlib Require Import ZArith NArith PArith List Bool Lia.
From Stdlib Require Import String Ascii DecimalString DecimalZ.
From Stdlib Require Import Sorted Permutation RelationClasses.
From Stdlib Require Import Floats.
Import ListNotations.

Set Implicit Arguments.
Local Open Scope Z_scope.
Local Open Scope list_scope.

(* ================================================================= *)
(** ** The JavaScript run time *)

Module JS.

(** *** Strings

    A JavaScript string is a sequence of UTF-16 code units; [length]
    counts code units. *)

Definition jsstring := list N.

Definition code_unit (c : ascii) : N := N_of_ascii c.

Definition lit (s : string) : jsstring := map code_unit (list_ascii_of_string s).

(** WhiteSpace and LineTerminator code points of ECMAScript, the ones
    [String.prototype.trim] strips. *)
Definition isWhiteSpace (c : N) : bool :=
  (  (c =? 9) || (c =? 10) || (c =? 11) || (c =? 12) || (c =? 13)
  || (c =? 32) || (c =? 160) || (c =? 5760)
  || ((8192 <=? c) && (c <=? 8202))
  || (c =? 8232) || (c =? 8233) || (c =? 8239) || (c =? 8287)
  || (c =? 12288) || (c =? 65279))%N.

Fixpoint trimStart (s : jsstring) : jsstring :=
  match s with
  | c :: s' => if isWhiteSpace c then trimStart s' else s
  | [] => []
  end.

Definition trimEnd (s : jsstring) : jsstring := rev (trimStart (rev s)).

Definition trim (s : jsstring) : jsstring := trimEnd (trimStart s).

Definition strlen (s : jsstring) : Z := Z.of_nat (List.length s).

(** *** Completions

    A call either returns a value or throws; the thrown value is kept as
    the [message] of the error. *)

Inductive completion (A : Type) : Type :=
| Returned (a : A)
| Thrown (message : string).
Arguments Returned {A} a.
Arguments Thrown {A} message.

(** *** Numbers *)

Abbreviation number := float (only parsing).

(** [x === 0] on numbers: IEEE equality, true for both zeros. *)
Definition strict_eq (x y : number) : bool := PrimFloat.eqb x y.

(** [x >= y] on numbers: false as soon as one side is NaN. *)
Definition ge (x y : number) : bool := PrimFloat.leb y x.

Definition gt (x y : number) : bool := PrimFloat.ltb y x.

(** A number that is neither NaN, nor a zero, nor negative: a positive
    finite number or [+Infinity]. *)
Definition positive_sf (x : spec_float) : Prop :=
  match x with
  | S754_finite false _ _ | S754_infinity false => True
  | _ => False
  end.

Definition positive_number (x : number) : Prop := positive_sf (Prim2SF x).

(** *** Objects used as dictionaries

    [OrdinaryOwnPropertyKeys] lists the integer-index keys first, in
    ascending numeric order, then the other string keys in the order in
    which they were created.  A number used as a property key is converted
    by [ToString]; the result is an integer index when the number is an
    integer in [0, 2^32 - 2]. *)

Inductive property_key : Type :=
| IndexKey (i : N)
| NameKey (s : jsstring).

(** [ToString] of an integer-valued number below 10^21 in magnitude: its
    decimal digits. *)
Definition integerToString (n : Z) : jsstring :=
  lit (NilZero.string_of_int (Z.to_int n)).

Definition ToPropertyKey (n : Z) : property_key :=
  if (0 <=? n) && (n <? 2 ^ 32 - 1) then IndexKey (Z.to_N n)
  else NameKey (integerToString n).

Definition jsstring_eqb (s t : jsstring) : bool :=
  if list_eq_dec N.eq_dec s t then true else false.

Record object (V : Type) : Type := {
  index_properties : list (N * V);
  name_properties : list (jsstring * V)
}.

Definition empty_object {V : Type} : object V :=
  {| index_properties := []; name_properties := [] |}.

Fixpoint index_get {V : Type} (l : list (N * V)) (i : N) : option V :=
  match l with
  | [] => None
  | (j, v) :: l' => if (i =? j)%N then Some v else index_get l' i
  end.

Fixpoint name_get {V : Type} (l : list (jsstring * V)) (s : jsstring) : option V :=
  match l with
  | [] => None
  | (t, v) :: l' => if jsstring_eqb s t then Some v else name_get l' s
  end.

(** [obj[k]]: [None] stands for [undefined]. *)
Definition get {V : Type} (o : object V) (k : property_key) : option V :=
  match k with
  | IndexKey i => index_get (index_properties o) i
  | NameKey s => name_get (name_properties o) s
  end.

(** Writing an integer-index property keeps the index keys ascending. *)
Fixpoint index_set {V : Type} (l : list (N * V)) (i : N) (v : V) : list (N * V) :=
  match l with
  | [] => [(i, v)]
  | (j, w) :: l' =>
      if (i =? j)%N then (j, v) :: l'
      else if (i <? j)%N then (i, v) :: (j, w) :: l'
      else (j, w) :: index_set l' i v
  end.

(** Writing another property replaces it in place or appends it. *)
Fixpoint name_set {V : Type} (l : list (jsstring * V)) (s : jsstring) (v : V)
  : list (jsstring * V) :=
  match l with
  | [] => [(s, v)]
  | (t, w) :: l' =>
      if jsstring_eqb s t then (t, v) :: l' else (t, w) :: name_set l' s v
  end.

(** [obj[k] = v] *)
Definition set {V : Type} (o : object V) (k : property_key) (v : V) : object V :=
  match k with
  | IndexKey i =>
      {| index_properties := index_set (index_properties o) i v;
         name_properties := name_properties o |}
  | NameKey s =>
      {| index_properties := index_properties o;
         name_properties := name_set (name_properties o) s v |}
  end.

(** [Object.values(obj)] *)
Definition values {V : Type} (o : object V) : list V :=
  map snd (index_properties o) ++ map snd (name_properties o).

(** *** [Array.prototype.sort]

    The comparison function returns a number [v]; NaN counts as [+0].  The
    sort is stable: an element moves in front of an earlier one only when
    the comparison of the earlier one with it is positive.  Whenever the
    comparison function is consistent, every stable sort returns this
    list. *)

Section Sort.
Variable A : Type.
Variable comparefn : A -> A -> number.

Definition comesAfter (x y : A) : bool := gt (comparefn x y) 0%float.

Fixpoint insert (x : A) (l : list A) : list A :=
    match l with
    | [] => [x]
    | y :: l' => if comesAfter x y then y :: insert x l' else x :: l
    end.

Fixpoint sort (l : list A) : list A :=
    match l with
    | [] => []
    | x :: l' => insert x (sort l')
    end.
End Sort.

(** [arr.slice(0, n)] *)
Definition slice0 {A : Type} (n : nat) (l : list A) : list A := firstn n l.

(** *** Arithmetic

    The operations [cosineSimilarity] uses, on binary64 numbers as the
    source runs it. *)

Record arithmetic (T : Type) : Type := {
  zero : T;
  add : T -> T -> T;
  mul : T -> T -> T;
  div : T -> T -> T;
  sqrt : T -> T;
  isZero : T -> bool
}.

Definition binary64 : arithmetic number :=
  {| zero := 0%float;
     add := PrimFloat.add;
     mul := PrimFloat.mul;
     div := PrimFloat.div;
     sqrt := PrimFloat.sqrt;
     isZero := fun x => strict_eq x 0%float |}.

End JS.

(* ================================================================= *)
(** ** The relational store ([config/db.js]) *)

Module Db.
Import JS.

(** [sender VARCHAR(20) CHECK (sender IN ('user', 'ai'))] *)
Inductive sender : Type := SenderUser | SenderAi.

Record conversation_row : Type := {
  c_id : Z;
  c_user_id : Z;
  c_title : jsstring
}.

Record message_row : Type := {
  m_id : Z;
  m_conversation_id : Z;
  m_sender : sender;
  m_content : jsstring;
  m_created_at : Z
}.

(** [embeddings]: [id SERIAL PRIMARY KEY], [message_id INTEGER UNIQUE
    REFERENCES messages(id)], [embedding_vector TEXT NOT NULL],
    [model_name], [created_at], [updated_at]. *)
Record embedding_row : Type := {
  e_id : Z;
  e_message_id : Z;
  e_embedding_vector : jsstring;
  e_model_name : jsstring;
  e_created_at : Z;
  e_updated_at : Z
}.

Record database : Type := {
  conversations : list conversation_row;
  messages : list message_row;
  embeddings : list embedding_row;
  embeddings_id_seq : Z
}.

(** The [UNIQUE] constraint on [embeddings.message_id]. *)
Definition unique_message_id (db : database) : Prop :=
  NoDup (map e_message_id (embeddings db)).

(** [ORDER BY key DESC], as a stable sort of the scan order. *)
Fixpoint insertDesc {A : Type} (key : A -> Z) (x : A) (l : list A) : list A :=
  match l with
  | [] => [x]
  | y :: l' => if key x <? key y then y :: insertDesc key x l' else x :: l
  end.

Fixpoint orderByDesc {A : Type} (key : A -> Z) (l : list A) : list A :=
  match l with
  | [] => []
  | x :: l' => insertDesc key x (orderByDesc key l')
  end.

(** [LIMIT n]: a negative [n], or one that is no [bigint], is rejected. *)
Definition limitRows {A : Type} (n : Z) (l : list A) : completion (list A) :=
  if (n <? 0) || (2 ^ 63 - 1 <? n) then Thrown "LIMIT must be a non-negative bigint"
  else Returned (firstn (Z.to_nat n) l).

(** [TRIM(s)] strips spaces only; [LENGTH(s)] counts characters, a
    surrogate pair being one. *)
Fixpoint ltrimSpaces (s : jsstring) : jsstring :=
  match s with
  | c :: s' => if (c =? 32)%N then ltrimSpaces s' else s
  | [] => []
  end.

Definition TRIM (s : jsstring) : jsstring := rev (ltrimSpaces (rev (ltrimSpaces s))).

Definition isLowSurrogate (c : N) : bool := ((56320 <=? c) && (c <=? 57343))%N.

Definition LENGTH (s : jsstring) : Z :=
  Z.of_nat (List.length (filter (fun c => negb (isLowSurrogate c)) s)).

(** [messages m JOIN conversations c ON m.conversation_id = c.id
    WHERE c.user_id = userId] *)
Definition messagesOfUser (db : database) (userId : Z)
  : list (message_row * conversation_row) :=
  flat_map (fun m =>
    map (fun c => (m, c))
        (filter (fun c => (m_conversation_id m =? c_id c) && (c_user_id c =? userId))
                (conversations db)))
    (messages db).

Definition embeddingsOf (db : database) (m : message_row) : list embedding_row :=
  filter (fun e => m_id m =? e_message_id e) (embeddings db).

(** The statement of [storeEmbedding]:
    [INSERT INTO embeddings (message_id, embedding_vector, model_name,
    created_at, updated_at) VALUES ($1, $2, $3, NOW(), NOW())
    ON CONFLICT (message_id) DO UPDATE SET embedding_vector = EXCLUDED.embedding_vector,
    model_name = EXCLUDED.model_name, updated_at = NOW()].

    The default of [id] draws from the sequence before the conflict is
    seen; a row for an unknown message violates the foreign key. *)
Definition upsertEmbedding (messageId : Z) (vector model : jsstring)
  (db : database) (now : Z) : completion unit * database :=
  let id := embeddings_id_seq db + 1 in
  if existsb (fun e => e_message_id e =? messageId) (embeddings db) then
    (Returned tt,
     {| conversations := conversations db;
        messages := messages db;
        embeddings :=
          map (fun e =>
                 if e_message_id e =? messageId then
                   {| e_id := e_id e;
                      e_message_id := e_message_id e;
                      e_embedding_vector := vector;
                      e_model_name := model;
                      e_created_at := e_created_at e;
                      e_updated_at := now |}
                 else e)
              (embeddings db);
        embeddings_id_seq := id |})
  else if existsb (fun m => m_id m =? messageId) (messages db) then
    (Returned tt,
     {| conversations := conversations db;
        messages := messages db;
        embeddings :=
          embeddings db ++
          [ {| e_id := id;
               e_message_id := messageId;
               e_embedding_vector := vector;
               e_model_name := model;
               e_created_at := now;
               e_updated_at := now |} ];
        embeddings_id_seq := id |})
  else
    (Thrown "insert or update on table embeddings violates foreign key constraint",
     {| conversations := conversations db;
        messages := messages db;
        embeddings := embeddings db;
        embeddings_id_seq := id |}).

(** A parameter compared with an [INTEGER] column is read as an integer
    of 32 bits: the statement fails on a value outside. *)
Definition int4 (n : Z) : bool := (- 2 ^ 31 <=? n) && (n <? 2 ^ 31).

Definition asInteger {A : Type} (n : Z) (result : completion A) : completion A :=
  if int4 n then result else Thrown "value is out of range for type integer".

(** The row of the search statement:
    [SELECT m.id, m.conversation_id, m.sender as role, m.content,
    m.created_at, c.title as conversation_title, e.embedding_vector]. *)
Record embedded_row : Type := {
  er_id : Z;
  er_conversation_id : Z;
  er_role : sender;
  er_content : jsstring;
  er_created_at : Z;
  er_conversation_title : jsstring;
  er_embedding_vector : jsstring
}.

(** The rows of [... JOIN embeddings e ON m.id = e.message_id
    WHERE c.user_id = $1 ORDER BY m.created_at DESC], for a [$1] the
    store accepts. *)
Definition selectEmbedded (userId : Z) (db : database) : list embedded_row :=
  orderByDesc er_created_at
    (flat_map (fun mc : message_row * conversation_row =>
       let (m, c) := mc in
       map (fun e =>
              {| er_id := m_id m;
                 er_conversation_id := m_conversation_id m;
                 er_role := m_sender m;
                 er_content := m_content m;
                 er_created_at := m_created_at m;
                 er_conversation_title := c_title c;
                 er_embedding_vector := e_embedding_vector e |})
           (embeddingsOf db m))
       (messagesOfUser db userId)).

(** The statement, which fails on a [$1] that is no [integer]. *)
Definition queryEmbedded (userId : Z) (db : database) : completion (list embedded_row) :=
  asInteger userId (Returned (selectEmbedded userId db)).

(** The row of the keyword statement; [0.5 as similarity] is a [numeric],
    which the driver hands over as text. *)
Record keyword_row : Type := {
  kr_id : Z;
  kr_conversation_id : Z;
  kr_role : sender;
  kr_content : jsstring;
  kr_created_at : Z;
  kr_conversation_title : jsstring;
  kr_similarity : jsstring
}.

(** The rows of [... WHERE c.user_id = $1 AND m.content ILIKE $2
    ORDER BY m.created_at DESC LIMIT 50], for a [$1] the store accepts;
    [ILIKE] is the store's matching operator. *)
Definition selectKeyword (ILIKE : jsstring -> jsstring -> bool)
  (userId : Z) (pattern : jsstring) (db : database) : list keyword_row :=
  firstn 50
    (orderByDesc kr_created_at
       (map (fun mc : message_row * conversation_row =>
               let (m, c) := mc in
               {| kr_id := m_id m;
                  kr_conversation_id := m_conversation_id m;
                  kr_role := m_sender m;
                  kr_content := m_content m;
                  kr_created_at := m_created_at m;
                  kr_conversation_title := c_title c;
                  kr_similarity := lit "0.5" |})
            (filter (fun mc : message_row * conversation_row =>
                       ILIKE (m_content (fst mc)) pattern)
                    (messagesOfUser db userId)))).

(** The statement, which fails on a [$1] that is no [integer]. *)
Definition queryKeyword (ILIKE : jsstring -> jsstring -> bool)
  (userId : Z) (pattern : jsstring) (db : database) : completion (list keyword_row) :=
  asInteger userId (Returned (selectKeyword ILIKE userId pattern db)).

(** The row of the backfill statement: [SELECT m.id, m.content]. *)
Record unembedded_row : Type := {
  ur_id : Z;
  ur_content : jsstring
}.

(** [... LEFT JOIN embeddings e ON m.id = e.message_id
    WHERE c.user_id = $1 AND e.id IS NULL AND LENGTH(TRIM(m.content)) >= 3
    ORDER BY m.created_at DESC LIMIT $2], which fails on a [$1] that is no
    [integer] and on a [$2] that [LIMIT] rejects. *)
Definition selectUnembedded (userId limit : Z) (db : database)
  : completion (list unembedded_row) :=
  asInteger userId
    (limitRows limit
       (map (fun mc : message_row * conversation_row =>
               {| ur_id := m_id (fst mc); ur_content := m_content (fst mc) |})
          (orderByDesc (fun mc : message_row * conversation_row => m_created_at (fst mc))
             (filter (fun mc : message_row * conversation_row =>
                        match embeddingsOf db (fst mc) with
                        | [] => 3 <=? LENGTH (TRIM (m_content (fst mc)))
                        | _ :: _ => false
                        end)
                     (messagesOfUser db userId))))).

End Db.

(* ================================================================= *)
(** ** The world outside the controller *)

Module World.
Import JS Db.

(** What the embedding endpoint does with one request. *)
Inductive ollama_reply : Type :=
| Unreachable                              (* [fetch] rejects: network error, 30 s timeout *)
| Status (code : Z)                        (* a response whose [ok] is false *)
| NotJson                                  (* [response.json()] rejects *)
| Json (embedding : option (list number)). (* [data.embedding]; [None] when it is missing *)

Inductive statement : Type :=
| UpsertEmbedding (messageId : Z)
| SelectEmbedded (userId : Z)
| SelectKeyword (userId : Z) (pattern : jsstring)
| SelectUnembedded (userId limit : Z).

Inductive event : Type :=
| ProviderRequest (prompt : jsstring)
| StoreQuery (q : statement).

(** The store, the clock behind [NOW()], the replies the endpoint will
    give to the successive requests (a request beyond the script is not
    answered), for the successive statements whether the store cannot be
    reached, and the calls made so far, oldest first. *)
Record world : Type := {
  db : database;
  clock : Z;
  ollama : list ollama_reply;
  outages : list bool;
  calls : list event
}.

(** An asynchronous function, run to completion from a given world. *)
Definition io (A : Type) : Type := world -> completion A * world.

Definition ret {A : Type} (a : A) : io A := fun w => (Returned a, w).

Definition throw {A : Type} (message : string) : io A := fun w => (Thrown message, w).

Definition bind {A B : Type} (m : io A) (k : A -> io B) : io B :=
  fun w =>
    match m w with
    | (Returned a, w') => k a w'
    | (Thrown e, w') => (Thrown e, w')
    end.

(** [try { body } catch (error) { handler(error.message) }] *)
Definition try_catch {A : Type} (body : io A) (handler : string -> io A) : io A :=
  fun w =>
    match body w with
    | (Returned a, w') => (Returned a, w')
    | (Thrown e, w') => handler e w'
    end.

(** [await fetch(`${OLLAMA_BASE_URL}/api/embeddings`, ...)] *)
Definition fetchEmbeddings (prompt : jsstring) : io ollama_reply :=
  fun w =>
    (Returned (hd Unreachable (ollama w)),
     {| db := db w;
        clock := clock w + 1;
        ollama := tl (ollama w);
        outages := outages w;
        calls := calls w ++ [ProviderRequest prompt] |}).

(** [await pool.query(...)] *)
Definition pool_query {A : Type} (q : statement)
  (run : database -> Z -> completion A * database) : io A :=
  fun w =>
    if hd false (outages w) then
      (Thrown "the store cannot be reached",
       {| db := db w;
          clock := clock w + 1;
          ollama := ollama w;
          outages := tl (outages w);
          calls := calls w ++ [StoreQuery q] |})
    else
      let (r, db') := run (db w) (clock w) in
      (r,
       {| db := db';
          clock := clock w + 1;
          ollama := ollama w;
          outages := tl (outages w);
          calls := calls w ++ [StoreQuery q] |}).

End World.

Declare Scope io_scope.
Delimit Scope io_scope with io.
Notation "x <- m ;; k" := (World.bind m (fun x => k))
  (at level 61, m at next level, right associativity) : io_scope.
Notation "m ;;; k" := (World.bind m (fun _ => k))
  (at level 61, right associativity) : io_scope.

(* ================================================================= *)
(** ** [controllers/chatController.js] *)

Module ChatController.
Import JS Db World.
Local Open Scope io_scope.

Definition EMBEDDING_MODEL : jsstring := lit "nomic-embed-text:latest".

(** *** Responses *)

(** The [similarity] of a hit: a number, or the text the keyword statement
    returns. *)
Inductive similarity_value : Type :=
| SimNumber (x : number)
| SimText (s : jsstring).

Record hit : Type := {
  id : Z;
  conversationId : Z;
  role : sender;
  content : jsstring;
  createdAt : Z;
  similarity : similarity_value
}.

Record group : Type := {
  g_conversationId : Z;
  g_conversationTitle : jsstring;
  g_messages : list hit
}.

Inductive search_type : Type := semantic | keyword.

Record error_entry : Type := {
  err_messageId : Z;
  err_error : string
}.

Record backfill_result : Type := {
  success : bool;
  message : option string;
  totalProcessed : Z;
  successCount : Z;
  failCount : Z;
  embeddingModel : option jsstring;
  errors : option (list error_entry)
}.

Inductive response : Type :=
| SearchResult (conversations : list group) (totalMessages : Z)
               (searchType : search_type) (embeddingModel : option jsstring)
| BackfillResult (r : backfill_result)
| ErrorResponse (status : Z) (error : string).

(** [!text]: the empty string is falsy. *)
Definition falsy (s : jsstring) : bool :=
  match s with [] => true | _ :: _ => false end.

(** *** Embedding helper functions *)

(** [generateEmbedding(text)] *)
Definition generateEmbedding (text : jsstring) : io (option (list number)) :=
  try_catch
    (if falsy text || (strlen (trim text) <? 3) then ret None
     else
       reply <- fetchEmbeddings text ;;
       match reply with
       | Unreachable => throw "request to the embedding endpoint failed"
       | Status code =>
           throw ("Ollama API error: " ++ NilZero.string_of_int (Z.to_int code))
       | NotJson => throw "invalid json response body"
       | Json None => throw "No embedding returned from Ollama"
       | Json (Some embedding) => ret (Some embedding)
       end)
    (fun _ => ret None).

(** [cosineSimilarity(vecA, vecB)], over a given arithmetic.  [None] is an
    absent vector.  [accumulate] is the loop: it runs over the indices of
    [vecA], whose length is the one of [vecB] when it is reached. *)
Section CosineSimilarity.
Variable T : Type.
Variable ar : arithmetic T.

Fixpoint accumulate (vecA vecB : list T) (dotProduct normA normB : T) : T * T * T :=
  match vecA, vecB with
  | a :: vecA', b :: vecB' =>
      accumulate vecA' vecB'
        (add ar dotProduct (mul ar a b))
        (add ar normA (mul ar a a))
        (add ar normB (mul ar b b))
  | _, _ => (dotProduct, normA, normB)
  end.

Definition cosineSimilarityOver (vecA vecB : option (list T)) : T :=
  match vecA, vecB with
  | Some a, Some b =>
      if negb (Nat.eqb (List.length a) (List.length b)) then zero ar
      else
        let '(dotProduct, normA, normB) :=
          accumulate a b (zero ar) (zero ar) (zero ar) in
        let normA := sqrt ar normA in
        let normB := sqrt ar normB in
        if isZero ar normA || isZero ar normB then zero ar
        else div ar dotProduct (mul ar normA normB)
  | _, _ => zero ar
  end.
End CosineSimilarity.

(** The function as the source runs it. *)
Definition cosineSimilarity (vecA vecB : option (list number)) : number :=
  cosineSimilarityOver binary64 vecA vecB.

Section Controller.

(** [JSON.stringify] of a vector; [JSON.parse] of a stored text, which
    throws on a text that is no JSON and gives [None] for [null]; the
    [ILIKE] operator of the store. *)
Variable JSON_stringify : list number -> jsstring.
Variable JSON_parse : jsstring -> completion (option (list number)).
Variable ILIKE : jsstring -> jsstring -> bool.

(** [storeEmbedding(messageId, embedding)] *)
Definition storeEmbedding (messageId : Z) (embedding : list number) : io bool :=
  try_catch
    (let embeddingStr := JSON_stringify embedding in
     pool_query (UpsertEmbedding messageId)
       (upsertEmbedding messageId embeddingStr EMBEDDING_MODEL) ;;;
     ret true)
    (fun _ => ret false).

(** [generateAndStoreEmbedding(messageId, content)] *)
Definition generateAndStoreEmbedding (messageId : Z) (content : jsstring) : io unit :=
  try_catch
    (if falsy content || (strlen (trim content) <? 3) then ret tt
     else
       embedding <- generateEmbedding content ;;
       match embedding with
       | Some e => storeEmbedding messageId e ;;; ret tt
       | None => ret tt
       end)
    (fun _ => ret tt).

(** *** Search *)

(** An element of [messagesWithScores]. *)
Record scored_message : Type := {
  sm_id : Z;
  sm_conversationId : Z;
  sm_role : sender;
  sm_content : jsstring;
  sm_createdAt : Z;
  sm_conversationTitle : jsstring;
  sm_similarity : number
}.

(** [result.rows.map(row => { try { ... } catch { return null } })
    .filter(msg => msg !== null)] *)
Definition score (queryEmbedding : list number) (row : embedded_row)
  : option scored_message :=
  match JSON_parse (er_embedding_vector row) with
  | Returned messageEmbedding =>
      Some {| sm_id := er_id row;
              sm_conversationId := er_conversation_id row;
              sm_role := er_role row;
              sm_content := er_content row;
              sm_createdAt := er_created_at row;
              sm_conversationTitle := er_conversation_title row;
              sm_similarity :=
                cosineSimilarity (Some queryEmbedding) messageEmbedding |}
  | Thrown _ => None
  end.

Fixpoint messagesWithScores (queryEmbedding : list number) (rows : list embedded_row)
  : list scored_message :=
  match rows with
  | [] => []
  | row :: rows' =>
      match score queryEmbedding row with
      | Some msg => msg :: messagesWithScores queryEmbedding rows'
      | None => messagesWithScores queryEmbedding rows'
      end
  end.

(** [0.3]: the binary64 value nearest to it. *)
Definition SIMILARITY_THRESHOLD : number := 0x1.3333333333333p-2%float.

(** [(a, b) => b.similarity - a.similarity] *)
Definition bySimilarity (a b : scored_message) : number :=
  PrimFloat.sub (sm_similarity b) (sm_similarity a).

(** [messagesWithScores.filter(msg => msg.similarity >= SIMILARITY_THRESHOLD)
    .sort((a, b) => b.similarity - a.similarity).slice(0, 50)] *)
Definition relevantMessages (scored : list scored_message) : list scored_message :=
  slice0 50
    (sort bySimilarity
       (filter (fun msg => ge (sm_similarity msg) SIMILARITY_THRESHOLD) scored)).

(** The grouping loops of [searchMessages] and [performKeywordSearch] have
    one shape: per element, create the group of its conversation when
    [conversations] has none, then push the hit onto the group's
    [messages]. *)
Definition addToGroup (conversations : object group)
  (cid : Z) (title : jsstring) (h : hit) : object group :=
  let key := ToPropertyKey cid in
  let conversations :=
    match get conversations key with
    | None =>
        set conversations key
          {| g_conversationId := cid; g_conversationTitle := title; g_messages := [] |}
    | Some _ => conversations
    end in
  match get conversations key with
  | Some g =>
      set conversations key
        {| g_conversationId := g_conversationId g;
           g_conversationTitle := g_conversationTitle g;
           g_messages := g_messages g ++ [h] |}
  | None => conversations
  end.

Definition semanticHit (msg : scored_message) : hit :=
  {| id := sm_id msg;
     conversationId := sm_conversationId msg;
     role := sm_role msg;
     content := sm_content msg;
     createdAt := sm_createdAt msg;
     similarity := SimNumber (sm_similarity msg) |}.

(** [row.similarity || 0] *)
Definition keywordHit (row : keyword_row) : hit :=
  {| id := kr_id row;
     conversationId := kr_conversation_id row;
     role := kr_role row;
     content := kr_content row;
     createdAt := kr_created_at row;
     similarity :=
       if falsy (kr_similarity row) then SimNumber 0%float
       else SimText (kr_similarity row) |}.

Definition groupSemantic (relevant : list scored_message) : object group :=
  fold_left
    (fun conversations msg =>
       addToGroup conversations (sm_conversationId msg) (sm_conversationTitle msg)
         (semanticHit msg))
    relevant empty_object.

Definition groupKeyword (rows : list keyword_row) : object group :=
  fold_left
    (fun conversations row =>
       addToGroup conversations (kr_conversation_id row) (kr_conversation_title row)
         (keywordHit row))
    rows empty_object.

Definition count {A : Type} (l : list A) : Z := Z.of_nat (List.length l).

(** [performKeywordSearch(userId, query, res)]; [userId] is the integer
    the caller passes on. *)
Definition performKeywordSearch (userId : Z) (query : jsstring) : io response :=
  try_catch
    (let pattern := lit "%" ++ query ++ lit "%" in
     rows <- pool_query (SelectKeyword userId pattern)
               (fun db _ => (queryKeyword ILIKE userId pattern db, db)) ;;
     ret (SearchResult (values (groupKeyword rows)) (count rows) keyword None))
    (fun _ => ret (ErrorResponse 500 "Failed to search messages")).

(** [exports.searchMessages]; [userId] is the integer of
    [req.body.userId], [query] is [None] when the body has none. *)
Definition searchMessages (userId : Z) (query : option jsstring) : io response :=
  try_catch
    (match query with
     | None => ret (ErrorResponse 400 "Search query too short")
     | Some query =>
         if falsy query || (strlen (trim query) <? 3)
         then ret (ErrorResponse 400 "Search query too short")
         else
           queryEmbedding <- generateEmbedding query ;;
           match queryEmbedding with
           | None => performKeywordSearch userId query
           | Some queryEmbedding =>
               rows <- pool_query (SelectEmbedded userId)
                         (fun db _ => (queryEmbedded userId db, db)) ;;
               if count rows =? 0 then performKeywordSearch userId query
               else
                 let relevant :=
                   relevantMessages (messagesWithScores queryEmbedding rows) in
                 if count relevant =? 0 then performKeywordSearch userId query
                 else
                   ret (SearchResult (values (groupSemantic relevant))
                          (count relevant) semantic (Some EMBEDDING_MODEL))
           end
     end)
    (fun _ => ret (ErrorResponse 500 "Failed to search messages")).

(** *** Backfill *)

(** [parseInt(req.query.limit) || 100]; [None] is the NaN of a missing or
    non-numeric parameter. *)
Definition limitOf (parsed : option Z) : Z :=
  match parsed with
  | Some n => if n =? 0 then 100 else n
  | None => 100
  end.

(** The [for (const row of result.rows)] loop, with its three
    accumulators. *)
Fixpoint processRows (rows : list unembedded_row)
  (successCount failCount : Z) (errors : list error_entry)
  : io (Z * Z * list error_entry) :=
  match rows with
  | [] => ret (successCount, failCount, errors)
  | row :: rows' =>
      acc <- try_catch
               (generateAndStoreEmbedding (ur_id row) (ur_content row) ;;;
                ret (successCount + 1, failCount, errors))
               (fun message =>
                  ret (successCount, failCount + 1,
                       errors ++ [ {| err_messageId := ur_id row;
                                      err_error := message |} ])) ;;
      let '(successCount, failCount, errors) := acc in
      processRows rows' successCount failCount errors
  end.

(** [exports.generateMissingEmbeddings]; [userId] is the integer
    [req.params.userId] reads as, [limit] is what [parseInt] made of the
    query parameter. *)
Definition generateMissingEmbeddings (userId : Z) (limit : option Z) : io response :=
  try_catch
    (let limit := limitOf limit in
     rows <- pool_query (SelectUnembedded userId limit)
               (fun db _ => (selectUnembedded userId limit db, db)) ;;
     if count rows =? 0 then
       ret (BackfillResult
              {| success := true;
                 message := Some "All messages already have embeddings"%string;
                 totalProcessed := 0;
                 successCount := 0;
                 failCount := 0;
                 embeddingModel := None;
                 errors := None |})
     else
       acc <- processRows rows 0 0 [] ;;
       let '(successCount, failCount, errors) := acc in
       ret (BackfillResult
              {| success := true;
                 message := None;
                 totalProcessed := count rows;
                 successCount := successCount;
                 failCount := failCount;
                 embeddingModel := Some EMBEDDING_MODEL;
                 errors := Some (slice0 5 errors) |}))
    (fun _ => ret (ErrorResponse 500 "Failed to generate embeddings")).

End Controller.

End ChatController.

(* ================================================================= *)
(** ** The vocabulary of the statements *)

Module Terms.
Import JS Db World ChatController.

(** A vector all of whose entries are zero ([+0] or [-0]). *)
Definition allZero (v : list number) : Prop :=
  Forall (fun x => strict_eq x 0%float = true) v.

(** The magnitude the loop of [cosineSimilarity] computes for a vector. *)
Definition magnitude (v : list number) : number :=
  PrimFloat.sqrt (fold_left (fun s x => PrimFloat.add s (PrimFloat.mul x x)) v 0%float).

(** [x == y] on numbers. *)
Definition loose_eq (x y : number) : bool := PrimFloat.eqb x y.

(** A number within [-1, 1]. *)
Definition withinUnit (x : number) : bool :=
  PrimFloat.leb (-1)%float x && PrimFloat.leb x 1%float.

(** The own properties of an object, in the order of
    [OrdinaryOwnPropertyKeys]. *)
Definition entries {V : Type} (o : object V) : list (property_key * V) :=
  map (fun iv : N * V => (IndexKey (fst iv), snd iv)) (index_properties o) ++
  map (fun sv : jsstring * V => (NameKey (fst sv), snd sv)) (name_properties o).

(** The entries a write at [k] replaces: the former value, if any. *)
Definition former {V : Type} (o : object V) (k : property_key)
  : list (property_key * V) :=
  match get o k with
  | Some w => [(k, w)]
  | None => []
  end.

(** An object as the grouping loops keep it: integer keys ascending,
    no key twice, every group under the key of its conversation. *)
Record wellKeyed (o : object group) : Prop := {
  wk_sorted : Sorted N.lt (map fst (index_properties o));
  wk_nodup : NoDup (map fst (entries o));
  wk_keys : forall k g, In (k, g) (entries o) -> ToPropertyKey (g_conversationId g) = k
}.

(** What a grouping loop handles per element: the conversation, its
    title and the hit pushed. *)
Record item : Type := {
  item_conversationId : Z;
  item_title : jsstring;
  item_hit : hit
}.

Definition groupItems (items : list item) : object group :=
  fold_left
    (fun conversations x =>
       addToGroup conversations (item_conversationId x) (item_title x) (item_hit x))
    items empty_object.

Definition semanticItem (msg : scored_message) : item :=
  {| item_conversationId := sm_conversationId msg;
     item_title := sm_conversationTitle msg;
     item_hit := semanticHit msg |}.

Definition keywordItem (row : keyword_row) : item :=
  {| item_conversationId := kr_conversation_id row;
     item_title := kr_conversation_title row;
     item_hit := keywordHit row |}.

(** The group written by one round of a grouping loop. *)
Definition pushed (o : object group) (cid : Z) (title : jsstring) (h : hit) : group :=
  match get o (ToPropertyKey cid) with
  | Some g =>
      {| g_conversationId := g_conversationId g;
         g_conversationTitle := g_conversationTitle g;
         g_messages := g_messages g ++ [h] |}
  | None =>
      {| g_conversationId := cid; g_conversationTitle := title; g_messages := [h] |}
  end.

(** The hits of a conversation among the elements handled, in their
    order. *)
Definition hitsOf (cid : Z) (items : list item) : list hit :=
  map item_hit (filter (fun x => item_conversationId x =? cid) items).

(** The conversations of a list of hits, each at its first occurrence. *)
Fixpoint firstSeen (ids : list Z) : list Z :=
  match ids with
  | [] => []
  | c :: ids' => c :: filter (fun d => negb (d =? c)) (firstSeen ids')
  end.

(** All the hits of a list of groups. *)
Definition allMessages (groups : list group) : list hit :=
  List.concat (map g_messages groups).

(** The state of a grouping loop after [items]. *)
Record grouped (items : list item) (o : object group) : Prop := {
  gr_keys : wellKeyed o;
  gr_messages : forall g, In g (values o) ->
                  g_messages g = hitsOf (g_conversationId g) items;
  gr_inhabited : forall g, In g (values o) ->
                  exists x, In x items /\ item_conversationId x = g_conversationId g;
  gr_covered : forall x, In x items ->
                  exists g, In g (values o) /\ g_conversationId g = item_conversationId x;
  gr_permutation : Permutation (allMessages (values o)) (map item_hit items)
}.

(** *** The search handler *)

Section SearchPaths.
Variable JSON_parse : jsstring -> completion (option (list number)).
Variable ILIKE : jsstring -> jsstring -> bool.

Local Abbreviation performKeywordSearch := (performKeywordSearch ILIKE).
Local Abbreviation messagesWithScores := (messagesWithScores JSON_parse).

(** The query the handler accepts. *)
Definition accepted (query : jsstring) : bool :=
  negb (falsy query || (strlen (trim query) <? 3)).

(** The statement that reads the embedded messages of a user. *)
Definition readEmbedded (userId : Z) : io (list embedded_row) :=
  pool_query (SelectEmbedded userId)
    (fun db _ => (queryEmbedded userId db, db)).

(** The paths of [searchMessages]. *)
Inductive search_path (userId : Z) (query : option jsstring) (w : world)
  : response -> world -> Prop :=
| path_rejected :
    match query with Some q => accepted q = false | None => True end ->
    search_path userId query w (ErrorResponse 400 "Search query too short") w
| path_no_query_embedding q w1 resp w' :
    query = Some q -> accepted q = true ->
    generateEmbedding q w = (Returned None, w1) ->
    performKeywordSearch userId q w1 = (Returned resp, w') ->
    search_path userId query w resp w'
| path_store_failure q qe w1 message w' :
    query = Some q -> accepted q = true ->
    generateEmbedding q w = (Returned (Some qe), w1) ->
    readEmbedded userId w1 = (Thrown message, w') ->
    search_path userId query w (ErrorResponse 500 "Failed to search messages") w'
| path_no_rows q qe w1 w2 resp w' :
    query = Some q -> accepted q = true ->
    generateEmbedding q w = (Returned (Some qe), w1) ->
    readEmbedded userId w1 = (Returned [], w2) ->
    performKeywordSearch userId q w2 = (Returned resp, w') ->
    search_path userId query w resp w'
| path_nothing_relevant q qe w1 rows w2 resp w' :
    query = Some q -> accepted q = true ->
    generateEmbedding q w = (Returned (Some qe), w1) ->
    readEmbedded userId w1 = (Returned rows, w2) ->
    rows <> [] ->
    relevantMessages (messagesWithScores qe rows) = [] ->
    performKeywordSearch userId q w2 = (Returned resp, w') ->
    search_path userId query w resp w'
| path_semantic q qe w1 rows w' :
    query = Some q -> accepted q = true ->
    generateEmbedding q w = (Returned (Some qe), w1) ->
    readEmbedded userId w1 = (Returned rows, w') ->
    rows <> [] ->
    relevantMessages (messagesWithScores qe rows) <> [] ->
    search_path userId query w
      (SearchResult
         (values (groupSemantic (relevantMessages (messagesWithScores qe rows))))
         (count (relevantMessages (messagesWithScores qe rows)))
         semantic (Some EMBEDDING_MODEL))
      w'.

End SearchPaths.

(** A hit at or above the threshold. *)
Definition relevant (msg : scored_message) : Prop :=
  ge (sm_similarity msg) SIMILARITY_THRESHOLD = true.

(** A ranked list in descending similarity: every element is at least as
    similar as all the elements after it. *)
Definition descending (l : list scored_message) : Prop :=
  StronglySorted (fun a b => ge (sm_similarity a) (sm_similarity b) = true) l.

(** The same on the hits of a response. *)
Definition scoreAtLeast (h : hit) (x : number) : Prop :=
  match similarity h with
  | SimNumber y => ge y x = true
  | SimText _ => False
  end.

Definition hitBefore (h1 h2 : hit) : Prop :=
  match similarity h2 with
  | SimNumber y => scoreAtLeast h1 y
  | SimText _ => False
  end.

Definition descendingHits (l : list hit) : Prop := StronglySorted hitBefore l.

(** The order the sort keeps between positive numbers. *)
Definition rankedBefore (a b : scored_message) : Prop :=
  positive_number (sm_similarity a) /\ positive_number (sm_similarity b) /\
  ge (sm_similarity a) (sm_similarity b) = true.

(** The row an upsert writes over [e]. *)
Definition rewritten (vector model : jsstring) (now : Z) (e : embedding_row)
  : embedding_row :=
  {| e_id := e_id e;
     e_message_id := e_message_id e;
     e_embedding_vector := vector;
     e_model_name := model;
     e_created_at := e_created_at e;
     e_updated_at := now |}.

(** The embedding rows of a message. *)
Definition rowsOf (messageId : Z) (db : database) : list embedding_row :=
  filter (fun e => e_message_id e =? messageId) (embeddings db).

(** What an overwrite for [messageId] may do to a row: to the row of the
    message, set the vector, the model name and the update time and
    nothing else; to any other row, nothing. *)
Definition overwritten (messageId : Z) (vector model : jsstring) (now : Z)
  (before after : embedding_row) : Prop :=
  if e_message_id before =? messageId then
    e_id after = e_id before /\
    e_message_id after = e_message_id before /\
    e_created_at after = e_created_at before /\
    e_embedding_vector after = vector /\
    e_model_name after = model /\
    e_updated_at after = now
  else after = before.

(** The sum, over the groups, of the number of messages of the group. *)
Definition sumOfSizes (groups : list group) : Z :=
  fold_right (fun g n => count (g_messages g) + n) 0 groups.

End Terms.

(* ================================================================= *)
(** ** A store, and worlds around it, to run the handlers on *)

Module Examples.
Import JS Db World ChatController Terms.

Definition sameVector (u v : list number) : bool :=
  (Nat.eqb (List.length u) (List.length v)) &&
  forallb (fun p => PrimFloat.Leibniz.eqb (fst p) (snd p)) (combine u v).

(** [JSON.stringify] and [JSON.parse] on the vectors of the example. *)
Definition stringify (v : list number) : jsstring :=
  if sameVector v [1; 0]%float then lit "[1,0]"
  else if sameVector v [1; 1]%float then lit "[1,1]"
  else if sameVector v [0; 1]%float then lit "[0,1]"
  else lit "[]".

Definition parse (s : jsstring) : completion (option (list number)) :=
  if jsstring_eqb s (lit "[1,0]") then Returned (Some [1; 0]%float)
  else if jsstring_eqb s (lit "[1,1]") then Returned (Some [1; 1]%float)
  else if jsstring_eqb s (lit "[0,1]") then Returned (Some [0; 1]%float)
  else if jsstring_eqb s (lit "[]") then Returned (Some [])
  else if jsstring_eqb s (lit "null") then Returned None
  else Thrown "Unexpected token in JSON".

(** An [ILIKE] under which every content matches. *)
Definition matchAll (text pattern : jsstring) : bool := true.

(** User 7 has two conversations.  Message 10, in conversation 1, and
    message 11, in conversation 2, are embedded; message 12 is not. *)
Definition store : database :=
  {| conversations :=
       [ {| c_id := 1; c_user_id := 7; c_title := lit "Slow queries" |};
         {| c_id := 2; c_user_id := 7; c_title := lit "Indexes" |} ];
     messages :=
       [ {| m_id := 10; m_conversation_id := 1; m_sender := SenderUser;
            m_content := lit "why is the report slow"; m_created_at := 100 |};
         {| m_id := 11; m_conversation_id := 2; m_sender := SenderAi;
            m_content := lit "database performance depends on indexes";
            m_created_at := 200 |};
         {| m_id := 12; m_conversation_id := 2; m_sender := SenderUser;
            m_content := lit "thanks, that helps"; m_created_at := 300 |} ];
     embeddings :=
       [ {| e_id := 1; e_message_id := 10; e_embedding_vector := lit "[1,1]";
            e_model_name := EMBEDDING_MODEL; e_created_at := 101; e_updated_at := 101 |};
         {| e_id := 2; e_message_id := 11; e_embedding_vector := lit "[1,0]";
            e_model_name := EMBEDDING_MODEL; e_created_at := 201; e_updated_at := 201 |} ];
     embeddings_id_seq := 2 |}.

(** The endpoint answers the next request with [reply]. *)
Definition worldWith (reply : ollama_reply) : world :=
  {| db := store; clock := 1000; ollama := [reply]; outages := []; calls := [] |}.

(** The query embeds to [[1, 0]]: message 11 scores 1, message 10 scores
    0.7071067811865475. *)
Definition answering : world := worldWith (Json (Some [1; 0]%float)).

(** The query embeds to [[-1, 0]]: no message reaches the threshold. *)
Definition unrelated : world := worldWith (Json (Some [(-1); 0]%float)).

(** The endpoint cannot be reached. *)
Definition offline : world := worldWith Unreachable.

Definition theQuery : jsstring := lit "database performance".

Definition rankedInExample : list scored_message :=
  relevantMessages
    (messagesWithScores parse [1; 0]%float (selectEmbedded 7 store)).

(** A scored message of conversation [cid]. *)
Definition scoredAt (mid cid : Z) (x : number) : scored_message :=
  {| sm_id := mid; sm_conversationId := cid; sm_role := SenderUser;
     sm_content := lit "text"; sm_createdAt := 0;
     sm_conversationTitle := lit "title"; sm_similarity := x |}.

Definition groupsOf (r : completion response * world) : list group :=
  match fst r with
  | Returned (SearchResult groups _ _ _) => groups
  | _ => []
  end.

(** The search for [theQuery] when its embedding is [[1, 0]], and when it
    is [[-1, 0]]. *)
Definition semanticRun : completion response * world :=
  searchMessages parse matchAll 7 (Some theQuery) answering.

Definition fallbackRun : completion response * world :=
  searchMessages parse matchAll 7 (Some theQuery) unrelated.

(** The endpoint answers, the store accepts the next statement and cannot
    be reached for the one after. *)
Definition storeFailing : world :=
  {| db := store; clock := 1000; ollama := [Json (Some [1; 0]%float)];
     outages := [false; true]; calls := [] |}.

(** What the backfill job answers when every message it fetched was
    embedded. *)
Definition oneProcessedOneSucceeded : response :=
  BackfillResult
    {| success := true;
       message := None;
       totalProcessed := 1;
       successCount := 1;
       failCount := 0;
       embeddingModel := Some EMBEDDING_MODEL;
       errors := Some [] |}.

(** Message 12 gets the vector [[1, 0]], then the vector [[0, 1]]. *)
Definition firstStore : completion bool * world :=
  storeEmbedding stringify 12 [1; 0]%float answering.

Definition secondStore : completion bool * world :=
  storeEmbedding stringify 12 [0; 1]%float (snd firstStore).

(** Message 10, already embedded, gets the vector [[0, 1]]. *)
Definition overwrite : completion bool * world :=
  storeEmbedding stringify 10 [0; 1]%float answering.

End Examples.
(* ================================================================= *)
(** ** The worlds a call leaves *)

Module Steps.
Import JS Db World ChatController Terms.

(** The world after a request to the embedding endpoint. *)
Definition afterRequest (prompt : jsstring) (w : world) : world :=
  {| db := db w;
     clock := clock w + 1;
     ollama := tl (ollama w);
     outages := outages w;
     calls := calls w ++ [ProviderRequest prompt] |}.

(** The world after a statement that left the store as [db']. *)
Definition afterQuery (q : statement) (db' : database) (w : world) : world :=
  {| db := db';
     clock := clock w + 1;
     ollama := ollama w;
     outages := tl (outages w);
     calls := calls w ++ [StoreQuery q] |}.

(** The vector of a reply of the endpoint, if it carries one. *)
Definition vectorOf (reply : ollama_reply) : option (list number) :=
  match reply with
  | Json (Some embedding) => Some embedding
  | _ => None
  end.

(** The store accepts the next statement. *)
Definition reachable (w : world) : Prop := hd false (outages w) = false.

(** The message is stored. *)
Definition stored (messageId : Z) (db : database) : Prop :=
  existsb (fun m => m_id m =? messageId) (messages db) = true.

Definition isRequest (e : event) : bool :=
  match e with ProviderRequest _ => true | StoreQuery _ => false end.

(** The requests to the endpoint among some calls. *)
Definition requests (l : list event) : list event := filter isRequest l.

(** The foreign key of [embeddings.message_id]. *)
Definition references_hold (db : database) : Prop :=
  forall e, In e (embeddings db) -> stored (e_message_id e) db.

(** What [performKeywordSearch] answers from the rows it read. *)
Definition keywordResult (ILIKE : jsstring -> jsstring -> bool)
  (userId : Z) (query : jsstring) (db : database) : response :=
  let rows := selectKeyword ILIKE userId (lit "%" ++ query ++ lit "%") db in
  SearchResult (values (groupKeyword rows)) (count rows) keyword None.

(** What [searchMessages] answers from the rows it ranked. *)
Definition semanticResult (JSON_parse : jsstring -> completion (option (list number)))
  (userId : Z) (queryEmbedding : list number) (db : database) : response :=
  let relevant :=
    relevantMessages
      (messagesWithScores JSON_parse queryEmbedding (selectEmbedded userId db)) in
  SearchResult (values (groupSemantic relevant)) (count relevant) semantic
    (Some EMBEDDING_MODEL).

End Steps.

(* ================================================================= *)
(** ** The backfill job, row by row *)

Module Backfill.
Import JS Db World ChatController Terms Steps.

(** The world after the loop of [generateMissingEmbeddings] went over
    [rows]. *)
Definition afterRows (JSON_stringify : list number -> jsstring)
  (rows : list unembedded_row) (w : world) : world :=
  fold_left
    (fun w row =>
       snd (generateAndStoreEmbedding JSON_stringify (ur_id row) (ur_content row) w))
    rows w.

(** What the job answers after it fetched [rows]. *)
Definition backfillResult (rows : list unembedded_row) : response :=
  if count rows =? 0 then
    BackfillResult
      {| success := true;
         message := Some "All messages already have embeddings"%string;
         totalProcessed := 0;
         successCount := 0;
         failCount := 0;
         embeddingModel := None;
         errors := None |}
  else
    BackfillResult
      {| success := true;
         message := None;
         totalProcessed := count rows;
         successCount := count rows;
         failCount := 0;
         embeddingModel := Some EMBEDDING_MODEL;
         errors := Some [] |}.

(** The events of the loop: requests to the endpoint and upserts. *)
Definition isUpsert (e : event) : bool :=
  match e with StoreQuery (UpsertEmbedding _) => true | _ => false end.

Definition upserts (l : list event) : list event := filter isUpsert l.

(** The store answers every statement. *)
Definition alwaysReachable (w : world) : Prop := Forall (fun o => o = false) (outages w).


End Backfill.

(* ================================================================= *)
(** ** [exports.deleteConversation] *)

Module Deletion.
Import JS Db World Steps.
Local Open Scope io_scope.

(** What a request binds to a parameter that the store compares with an
    [INTEGER] column: [req.params] and [req.body] hand over whatever the
    request carried. *)
Inductive parameter : Type :=
| Null               (* [undefined] or [null] *)
| Integer (n : Z)    (* a number, or a text that reads as one *)
| NoInteger.         (* any other value *)

(** The store reads the parameter as an [integer], of 32 bits. *)
Definition bound (p : parameter) : completion (option Z) :=
  match p with
  | Null => Returned None
  | Integer n =>
      if (- 2 ^ 31 <=? n) && (n <? 2 ^ 31) then Returned (Some n)
      else Thrown "value is out of range for type integer"
  | NoInteger => Thrown "invalid input syntax for type integer"
  end.

(** [column = $n], which is not true of [NULL]. *)
Definition equals (column : Z) (value : option Z) : bool :=
  match value with
  | Some n => column =? n
  | None => false
  end.

(** [message_id ... REFERENCES messages(id) ON DELETE CASCADE]: the
    embeddings of the messages that go, go with them. *)
Definition cascadeToEmbeddings (gone : list message_row) (l : list embedding_row)
  : list embedding_row :=
  filter (fun e => negb (existsb (fun m => m_id m =? e_message_id e) gone)) l.

(** [DELETE FROM embeddings WHERE message_id IN
    (SELECT id FROM messages WHERE conversation_id = $1)] *)
Definition deleteEmbeddingsOfConversation (conversationId : parameter) (db : database)
  : completion unit * database :=
  match bound conversationId with
  | Returned cid =>
      let selected := filter (fun m => equals (m_conversation_id m) cid) (messages db) in
      (Returned tt,
       {| conversations := conversations db;
          messages := messages db;
          embeddings :=
            filter (fun e => negb (existsb (fun m => e_message_id e =? m_id m) selected))
                   (embeddings db);
          embeddings_id_seq := embeddings_id_seq db |})
  | Thrown e => (Thrown e, db)
  end.

(** [DELETE FROM messages WHERE conversation_id = $1] *)
Definition deleteMessagesOfConversation (conversationId : parameter) (db : database)
  : completion unit * database :=
  match bound conversationId with
  | Returned cid =>
      let gone := filter (fun m => equals (m_conversation_id m) cid) (messages db) in
      (Returned tt,
       {| conversations := conversations db;
          messages := filter (fun m => negb (equals (m_conversation_id m) cid)) (messages db);
          embeddings := cascadeToEmbeddings gone (embeddings db);
          embeddings_id_seq := embeddings_id_seq db |})
  | Thrown e => (Thrown e, db)
  end.

(** [DELETE FROM conversations WHERE id = $1 AND user_id = $2], with the
    cascade of [conversation_id ... REFERENCES conversations(id) ON DELETE
    CASCADE] to [messages] and from there to [embeddings]. *)
Definition deleteConversationOfUser (conversationId userId : parameter) (db : database)
  : completion unit * database :=
  match bound conversationId, bound userId with
  | Returned cid, Returned uid =>
      let goes := fun c => equals (c_id c) cid && equals (c_user_id c) uid in
      let orphaned := fun m =>
        existsb (fun c => m_conversation_id m =? c_id c) (filter goes (conversations db)) in
      (Returned tt,
       {| conversations := filter (fun c => negb (goes c)) (conversations db);
          messages := filter (fun m => negb (orphaned m)) (messages db);
          embeddings := cascadeToEmbeddings (filter orphaned (messages db)) (embeddings db);
          embeddings_id_seq := embeddings_id_seq db |})
  | Thrown e, _ => (Thrown e, db)
  | _, Thrown e => (Thrown e, db)
  end.

(** [await pool.query(...)] for the statements of this handler.  [calls]
    keeps the statements of the search and embedding code only. *)
Definition pool_run (run : database -> completion unit * database) : io unit :=
  fun w =>
    if hd false (outages w) then
      (Thrown "the store cannot be reached",
       {| db := db w;
          clock := clock w + 1;
          ollama := ollama w;
          outages := tl (outages w);
          calls := calls w |})
    else
      let (r, db') := run (db w) in
      (r,
       {| db := db';
          clock := clock w + 1;
          ollama := ollama w;
          outages := tl (outages w);
          calls := calls w |}).

(** The two bodies the handler sends. *)
Inductive deletion_response : Type :=
| Deleted (success : bool) (message : string)
| DeletionError (status : Z) (error : string).

(** [exports.deleteConversation], for a request whose body is an object;
    [conversationId] is [req.params.conversationId], [userId] is
    [req.body.userId]. *)
Definition deleteConversation (conversationId userId : parameter) : io deletion_response :=
  try_catch
    (pool_run (deleteEmbeddingsOfConversation conversationId) ;;;
     pool_run (deleteMessagesOfConversation conversationId) ;;;
     pool_run (deleteConversationOfUser conversationId userId) ;;;
     ret (Deleted true "Conversation deleted"))
    (fun _ => ret (DeletionError 500 "Failed to delete conversation")).

(** The world after a statement of the handler that left the store as
    [db']. *)
Definition afterRun (db' : database) (w : world) : world :=
  {| db := db';
     clock := clock w + 1;
     ollama := ollama w;
     outages := tl (outages w);
     calls := calls w |}.

(** The messages of a conversation, and the embedding rows of such
    messages. *)
Definition inConversation (cid : Z) (m : message_row) : bool :=
  m_conversation_id m =? cid.

Definition embedsConversation (db : database) (cid : Z) (e : embedding_row) : bool :=
  existsb (fun m => (m_id m =? e_message_id e) && inConversation cid m) (messages db).

(** The store after the first statement, after the first two, and after
    all three, for a conversation id the store accepts. *)
Definition withoutEmbeddings (cid : Z) (db : database) : database :=
  {| conversations := conversations db;
     messages := messages db;
     embeddings := filter (fun e => negb (embedsConversation db cid e)) (embeddings db);
     embeddings_id_seq := embeddings_id_seq db |}.

Definition withoutMessages (cid : Z) (db : database) : database :=
  {| conversations := conversations db;
     messages := filter (fun m => negb (inConversation cid m)) (messages db);
     embeddings := filter (fun e => negb (embedsConversation db cid e)) (embeddings db);
     embeddings_id_seq := embeddings_id_seq db |}.

Definition withoutConversation (cid : Z) (uid : option Z) (db : database) : database :=
  {| conversations :=
       filter (fun c => negb ((c_id c =? cid) && equals (c_user_id c) uid))
              (conversations db);
     messages := filter (fun m => negb (inConversation cid m)) (messages db);
     embeddings := filter (fun e => negb (embedsConversation db cid e)) (embeddings db);
     embeddings_id_seq := embeddings_id_seq db |}.

(** What one statement of the handler may do to the store. *)
Definition shrinks (db db' : database) : Prop :=
  incl (conversations db') (conversations db) /\
  incl (messages db') (messages db) /\
  incl (embeddings db') (embeddings db) /\
  embeddings_id_seq db' = embeddings_id_seq db /\
  (unique_message_id db -> unique_message_id db') /\
  (references_hold db -> references_hold db').

End Deletion.

(* ================================================================= *)
(** ** More worlds to run the handlers on *)

Module MoreExamples.
Import JS Db World ChatController Terms Steps Backfill Deletion.

(** Fifty-one scored messages: the first scores 0.5, the fifty after it
    score 1. *)
Definition crowded : list scored_message :=
  Examples.scoredAt 0 1 0.5%float ::
  map (fun n => Examples.scoredAt (Z.of_nat n) 1 1%float) (seq 1 50).

(** The search for [theQuery] when the endpoint cannot be reached. *)
Definition keywordRun : completion response * world :=
  searchMessages Examples.parse Examples.matchAll 7 (Some Examples.theQuery)
    Examples.offline.

(** Message 13 of user 7 holds two letters between a tab and a line
    feed: four characters for [LENGTH(TRIM(...))], two code units for
    [trim()]. *)
Definition padded : database :=
  {| conversations := conversations Examples.store;
     messages :=
       [ {| m_id := 13; m_conversation_id := 1; m_sender := SenderUser;
            m_content := [9; 111; 107; 10]%N; m_created_at := 400 |} ];
     embeddings := [];
     embeddings_id_seq := 0 |}.

Definition paddedWorld : world :=
  {| db := padded; clock := 1000; ollama := [Json (Some [1; 0]%float)];
     outages := []; calls := [] |}.

(** The store answers one statement and cannot be reached for the next. *)
Definition failingSecond : world :=
  {| db := Examples.store; clock := 1000; ollama := [];
     outages := [false; true]; calls := [] |}.

End MoreExamples.

(* ================================================================= *)
(** ** Messages of one score *)

Module Ties.
Import JS ChatController.

(** The scored messages whose similarity is the number [s]. *)
Definition scoresAs (s : number) (msg : scored_message) : bool :=
  PrimFloat.Leibniz.eqb (sm_similarity msg) s.

End Ties.

(* ================================================================= *)
(** ** The definitions on small inputs *)

Section SmallInputs.
Import JS Db World ChatController Terms.

Example trim_strips_both_ends : trim (lit "  ab ") = lit "ab".
Proof. reflexivity. Qed.

Example trim_strips_no_break_space : strlen (trim [160; 97; 98; 8232]%N) = 2.
Proof. reflexivity. Qed.

Example sql_trim_keeps_line_feeds :
  LENGTH (TRIM (lit " ab ")) = 2 /\ LENGTH (TRIM [10; 97; 98; 10]%N) = 4.
Proof. split; reflexivity. Qed.

Example keys_of_numbers :
  ToPropertyKey 7 = IndexKey 7 /\
  ToPropertyKey (-5) = NameKey (lit "-5") /\
  ToPropertyKey (2 ^ 32 - 1) = NameKey (lit "4294967295").
Proof. repeat split; reflexivity. Qed.

Example values_lists_integer_keys_first :
  values (set (set (set empty_object (ToPropertyKey 9) 90) (ToPropertyKey (-1)) 10)
            (ToPropertyKey 3) 30)
  = [30; 90; 10].
Proof. reflexivity. Qed.

Example cosine_of_axis_and_diagonal :
  cosineSimilarity (Some [1; 0]%float) (Some [1; 1]%float) = 0x1.6a09e667f3bccp-1%float.
Proof. reflexivity. Qed.

Example cosine_of_a_vector_with_itself :
  cosineSimilarity (Some [3; 3]%float) (Some [3; 3]%float) = 0x1.0000000000001p+0%float.
Proof. reflexivity. Qed.

Example cosine_of_overflowing_sums :
  let x := cosineSimilarity (Some [0x1p+600]%float) (Some [0x1p+600]%float) in
  PrimFloat.is_nan x = true /\ loose_eq x x = false.
Proof. split; reflexivity. Qed.

Example sort_is_descending_and_stable :
  map sm_id
    (sort bySimilarity
       [Examples.scoredAt 1 1 0.5; Examples.scoredAt 2 1 0.75; Examples.scoredAt 3 2 0.5]%float)
  = [2; 1; 3].
Proof. reflexivity. Qed.

Example upsert_draws_from_the_sequence :
  embeddings_id_seq (db (snd Examples.overwrite)) = 3 /\
  map e_id (embeddings (db (snd Examples.overwrite))) = [1; 2].
Proof. split; reflexivity. Qed.

Example user_id_outside_the_integers_fails_the_search :
  fst (searchMessages Examples.parse Examples.matchAll 2147483648 (Some Examples.theQuery)
         Examples.answering)
  = Returned (ErrorResponse 500 "Failed to search messages").
Proof. vm_compute. reflexivity. Qed.

Example user_id_outside_the_integers_fails_the_backfill :
  fst (generateMissingEmbeddings Examples.stringify 2147483648 None Examples.answering)
  = Returned (ErrorResponse 500 "Failed to generate embeddings").
Proof. vm_compute. reflexivity. Qed.

Example limit_zero_runs_with_the_default :
  limitOf (Some 0) = 100 /\ limitOf None = 100 /\ limitOf (Some 25) = 25.
Proof. repeat split. Qed.

End SmallInputs.

(* ================================================================= *)
(** ** Facts on binary64 numbers

    Derived from the specification of the primitive operations
    ([FloatAxioms]) by computation on [spec_float]. *)

Module Binary64.
Import JS.

Lemma mul_comm (x y : float) : PrimFloat.mul x y = PrimFloat.mul y x.
Proof.
  apply Prim2SF_inj. rewrite !mul_spec. unfold SF64mul, SFmul.
  destruct (Prim2SF x) as [sx|sx| |sx mx ex], (Prim2SF y) as [sy|sy| |sy my ey];
    try reflexivity; try (now rewrite xorb_comm).
  now rewrite xorb_comm, Pos.mul_comm, Z.add_comm.
Qed.

Lemma Prim2SF_zero : Prim2SF 0%float = S754_zero false.
Proof. reflexivity. Qed.

Lemma eqb_zero (x : float) :
  PrimFloat.eqb x 0%float = true -> x = 0%float \/ x = (-0)%float.
Proof.
  rewrite eqb_spec, Prim2SF_zero. intros H.
  rewrite <- (SF2Prim_Prim2SF x).
  destruct (Prim2SF x) as [[]|[]| |[] m e]; try discriminate;
    [right|left]; reflexivity.
Qed.

(** digits *)
Lemma digits2_pos_bounds (m : positive) :
  2 ^ (Zpos (digits2_pos m) - 1) <= Zpos m < 2 ^ Zpos (digits2_pos m).
Proof.
  induction m as [m IH|m IH|]; cbn [digits2_pos].
  - rewrite Pos2Z.inj_succ.
    replace (Z.succ (Zpos (digits2_pos m)) - 1) with (Z.succ (Zpos (digits2_pos m) - 1)) by lia.
    rewrite !Z.pow_succ_r by lia. lia.
  - rewrite Pos2Z.inj_succ.
    replace (Z.succ (Zpos (digits2_pos m)) - 1) with (Z.succ (Zpos (digits2_pos m) - 1)) by lia.
    rewrite !Z.pow_succ_r by lia. lia.
  - cbn. lia.
Qed.

Lemma shr_1_lower (r : shr_record) (k : Z) :
  1 <= k -> 2 ^ k <= shr_m r -> 2 ^ (k - 1) <= shr_m (shr_1 r).
Proof.
  intros Hk H. destruct r as [m b s]. cbn [shr_m] in H.
  replace k with (Z.succ (k - 1)) in H by lia.
  rewrite Z.pow_succ_r in H by lia.
  assert (0 < 2 ^ (k - 1)) by (apply Z.pow_pos_nonneg; lia).
  destruct m as [|[p|p|]|p]; cbn [shr_1 shr_m]; lia.
Qed.

Lemma iter_shr_1_lower (p : positive) :
  forall (r : shr_record) (k : Z),
    Zpos p <= k -> 2 ^ k <= shr_m r ->
    2 ^ (k - Zpos p) <= shr_m (iter_pos shr_1 p r).
Proof.
  induction p as [p IH|p IH|]; intros r k Hk H; cbn [iter_pos].
  - replace (k - Zpos p~1) with (((k - 1) - Zpos p) - Zpos p) by lia.
    apply IH; [lia|]. apply IH; [lia|]. apply shr_1_lower; [lia|assumption].
  - replace (k - Zpos p~0) with ((k - Zpos p) - Zpos p) by lia.
    apply IH; [lia|]. apply IH; [lia|assumption].
  - apply shr_1_lower; [lia|assumption].
Qed.

Lemma shr_record_of_loc_m (m : Z) (l : location) : shr_m (shr_record_of_loc m l) = m.
Proof. destruct l as [|[]]; reflexivity. Qed.

Lemma shr_fexp_positive (m : positive) (e : Z) (l : location) :
  emin <= e ->
  0 < shr_m (fst (shr_fexp prec emax (Zpos m) e l)) /\
  emin <= snd (shr_fexp prec emax (Zpos m) e l).
Proof.
  intros He. unfold shr_fexp, shr, fexp. cbn [Zdigits2].
  pose proof (digits2_pos_bounds m) as [Hlo _].
  set (d := Zpos (digits2_pos m)) in *.
  assert (Hd : 1 <= d) by (unfold d; lia).
  destruct (Z.max (d + e - prec) (SpecFloat.emin prec emax) - e) as [|p|p] eqn:E;
    cbn [fst snd]; rewrite ?shr_record_of_loc_m; try (split; [lia|assumption]).
  assert (Hp : Zpos p <= d - 1) by (unfold prec, SpecFloat.emin, emax in *; lia).
  split; [|lia].
  pose proof (@iter_shr_1_lower p (shr_record_of_loc (Zpos m) l) (d - 1) Hp) as H.
  rewrite shr_record_of_loc_m in H. specialize (H Hlo).
  assert (0 < 2 ^ (d - 1 - Zpos p)) by (apply Z.pow_pos_nonneg; lia).
  lia.
Qed.

Lemma round_nearest_even_positive (m : Z) (l : location) :
  0 < m -> 0 < round_nearest_even m l.
Proof.
  intros H. destruct l as [|[]]; cbn [round_nearest_even]; try lia.
  destruct (Z.even m); lia.
Qed.

Lemma binary_round_aux_sign (s : bool) (m : positive) (e : Z) (l : location) :
  emin <= e ->
  (exists m' e', binary_round_aux prec emax s (Zpos m) e l = S754_finite s m' e')
  \/ binary_round_aux prec emax s (Zpos m) e l = S754_infinity s.
Proof.
  intros He. unfold binary_round_aux.
  destruct (@shr_fexp_positive m e l He) as [H1 H1e].
  destruct (shr_fexp prec emax (Zpos m) e l) as [mrs' e'] eqn:E1. cbn [fst snd] in *.
  pose proof (@round_nearest_even_positive _ (loc_of_shr_record mrs') H1) as H2.
  destruct (round_nearest_even (shr_m mrs') (loc_of_shr_record mrs')) as [|m2|m2]; try lia.
  destruct (@shr_fexp_positive m2 e' loc_Exact H1e) as [H3 _].
  destruct (shr_fexp prec emax (Zpos m2) e' loc_Exact) as [mrs'' e''] eqn:E2. cbn [fst snd] in *.
  destruct (shr_m mrs'') as [|m3|m3]; try lia.
  destruct (Z.leb e'' (emax - prec)); [left; eauto|right; reflexivity].
Qed.

Lemma binary_round_sign (s : bool) (m : positive) (e : Z) :
  emin <= e ->
  (exists m' e', binary_round prec emax s m e = S754_finite s m' e')
  \/ binary_round prec emax s m e = S754_infinity s.
Proof.
  intros He. unfold binary_round, shl_align.
  destruct (fexp prec emax (Zpos (digits2_pos m) + e) - e) as [|p|p] eqn:E;
    try (apply binary_round_aux_sign; assumption).
  apply binary_round_aux_sign. unfold fexp, SpecFloat.emin, prec, emax in *. lia.
Qed.

Lemma iter_xO_value (d m : positive) : Zpos (Pos.iter xO m d) = Zpos m * 2 ^ Zpos d.
Proof.
  induction d as [|d IH] using Pos.peano_ind.
  - cbn. lia.
  - rewrite Pos.iter_succ, Pos2Z.inj_xO, IH, Pos2Z.inj_succ, Z.pow_succ_r by lia. lia.
Qed.

Lemma shl_align_value (m : positive) (e e' : Z) :
  e' <= e -> Zpos (fst (shl_align m e e')) = Zpos m * 2 ^ (e - e').
Proof.
  intros H. unfold shl_align.
  destruct (e' - e) as [|p|p] eqn:E; cbn [fst]; try lia.
  - replace (e - e') with 0 by lia. cbn. lia.
  - rewrite iter_xO_value. f_equal. f_equal. lia.
Qed.

Lemma bounded_facts (m : positive) (e : Z) :
  bounded prec emax m e = true ->
  emin <= e /\ Zpos m < 2 ^ prec /\ (emin < e -> 2 ^ (prec - 1) <= Zpos m).
Proof.
  unfold bounded, canonical_mantissa, fexp. intros H.
  apply andb_true_iff in H as [H _]. apply Z.eqb_eq in H.
  pose proof (digits2_pos_bounds m) as [Hlo Hhi].
  set (d := Zpos (digits2_pos m)) in *.
  assert (Hd : 1 <= d) by (unfold d; lia).
  unfold prec, emax, SpecFloat.emin in *.
  split; [lia|split].
  - assert (d <= 53) by lia.
    apply Z.lt_le_trans with (2 ^ d); [assumption|].
    apply Z.pow_le_mono_r; lia.
  - intros He. assert (d = 53) by lia. subst d. rewrite <- H0. assumption.
Qed.

(** On valid positive finite numbers the comparison of the specification
    is the comparison of the mantissas brought to the smaller exponent. *)
Lemma compare_aligned (mx my : positive) (ex ey : Z) :
  bounded prec emax mx ex = true -> bounded prec emax my ey = true ->
  SFcompare (S754_finite false mx ex) (S754_finite false my ey)
  = Some (Zpos (fst (shl_align mx ex (Z.min ey ex)))
          ?= Zpos (fst (shl_align my ey (Z.min ey ex)))).
Proof.
  intros Hx Hy.
  destruct (@bounded_facts _ _ Hx) as (Hex & Hmx & Hnx).
  destruct (@bounded_facts _ _ Hy) as (Hey & Hmy & Hny).
  rewrite !shl_align_value by lia.
  cbn [SFcompare]. f_equal.
  destruct (Z.compare_spec ex ey) as [E|E|E].
  - subst ey. rewrite Z.min_id, Z.sub_diag. cbn [Z.pow].
    rewrite !Z.mul_1_r. reflexivity.
  - rewrite Z.min_r by lia. rewrite Z.sub_diag. cbn [Z.pow]. rewrite Z.mul_1_r.
    symmetry. apply Z.compare_lt_iff.
    assert (2 <= 2 ^ (ey - ex)).
    { change 2 with (2 ^ 1) at 1. apply Z.pow_le_mono_r; lia. }
    specialize (Hny ltac:(lia)).
    assert (2 ^ prec = 2 * 2 ^ (prec - 1)) by reflexivity.
    nia.
  - rewrite Z.min_l by lia. rewrite Z.sub_diag. cbn [Z.pow]. rewrite Z.mul_1_r.
    symmetry. apply Z.compare_gt_iff.
    assert (2 <= 2 ^ (ex - ey)).
    { change 2 with (2 ^ 1) at 1. apply Z.pow_le_mono_r; lia. }
    specialize (Hnx ltac:(lia)).
    assert (2 ^ prec = 2 * 2 ^ (prec - 1)) by reflexivity.
    nia.
Qed.

Lemma SFltb_zero_sub (x y : spec_float) :
  valid_binary x = true -> valid_binary y = true ->
  positive_sf x -> positive_sf y ->
  SFltb (S754_zero false) (SF64sub y x) = SFltb x y.
Proof.
  intros Vx Vy Px Py.
  destruct x as [sx|[]| |[] mx ex]; try contradiction;
  destruct y as [sy|[]| |[] my ey]; try contradiction; try reflexivity.
  cbn [valid_binary] in Vx, Vy.
  unfold SFltb at 2. rewrite (@compare_aligned mx my ex ey Vx Vy).
  unfold SF64sub, SFsub, cond_Zopp.
  destruct (@bounded_facts _ _ Vx) as (Hex & _).
  destruct (@bounded_facts _ _ Vy) as (Hey & _).
  set (X := Zpos (fst (shl_align mx ex (Z.min ey ex)))).
  set (Y := Zpos (fst (shl_align my ey (Z.min ey ex)))).
  assert (Hez : emin <= Z.min ey ex) by lia.
  destruct (Y - X) as [|d|d] eqn:E; cbn [binary_normalize].
  - replace (X ?= Y) with Eq by (symmetry; apply Z.compare_eq_iff; lia). reflexivity.
  - replace (X ?= Y) with Lt by (symmetry; apply Z.compare_lt_iff; lia).
    destruct (@binary_round_sign false d _ Hez) as [(m' & e' & ->)| ->]; reflexivity.
  - replace (X ?= Y) with Gt by (symmetry; apply Z.compare_gt_iff; lia).
    destruct (@binary_round_sign true d _ Hez) as [(m' & e' & ->)| ->]; reflexivity.
Qed.

Lemma SFcompare_antisym (x y : spec_float) :
  positive_sf x -> positive_sf y ->
  SFcompare y x = option_map CompOpp (SFcompare x y).
Proof.
  intros Px Py.
  destruct x as [sx|[]| |[] mx ex]; try contradiction;
  destruct y as [sy|[]| |[] my ey]; try contradiction; try reflexivity.
  cbn [SFcompare option_map]. f_equal.
  rewrite (Z.compare_antisym ex ey).
  destruct (ex ?= ey) eqn:E; cbn [CompOpp]; try reflexivity.
  rewrite Pos.compare_cont_antisym. reflexivity.
Qed.

(** *** The same facts on primitive numbers *)

Lemma leb_positive (t x : float) :
  positive_number t -> PrimFloat.leb t x = true -> positive_number x.
Proof.
  unfold positive_number. rewrite leb_spec. unfold SFleb.
  destruct (Prim2SF t) as [st|[]| |[] mt et]; try contradiction; intros _;
  destruct (Prim2SF x) as [sx|[]| |[] mx ex]; cbn; try discriminate; trivial.
Qed.

Lemma ltb_zero_sub (x y : float) :
  positive_number x -> positive_number y ->
  PrimFloat.ltb 0%float (PrimFloat.sub y x) = PrimFloat.ltb x y.
Proof.
  intros Px Py. rewrite !ltb_spec, sub_spec, Prim2SF_zero.
  apply SFltb_zero_sub; auto using Prim2SF_valid.
Qed.

Lemma ltb_leb (x y : float) : PrimFloat.ltb x y = true -> PrimFloat.leb x y = true.
Proof.
  rewrite ltb_spec, leb_spec. unfold SFltb, SFleb.
  destruct (SFcompare (Prim2SF x) (Prim2SF y)) as [[]|]; congruence.
Qed.

Lemma not_ltb_leb (x y : float) :
  positive_number x -> positive_number y ->
  PrimFloat.ltb x y = false -> PrimFloat.leb y x = true.
Proof.
  intros Px Py. rewrite ltb_spec, leb_spec. unfold SFltb, SFleb.
  rewrite (@SFcompare_antisym _ _ Px Py).
  assert (SFcompare (Prim2SF x) (Prim2SF y) <> None).
  { unfold positive_number in *.
    destruct (Prim2SF x) as [sx|[]| |[] mx ex]; try contradiction;
    destruct (Prim2SF y) as [sy|[]| |[] my ey]; try contradiction; discriminate. }
  destruct (SFcompare (Prim2SF x) (Prim2SF y)) as [[]|]; cbn; congruence.
Qed.

End Binary64.

(* ================================================================= *)
(** ** [cosineSimilarity] *)

Module CosineFacts.
Import JS ChatController Terms.

Section Generic.
Variable T : Type.
Variable ar : arithmetic T.

(** The three accumulators of the loop are three independent sums. *)
Lemma accumulate_split (a : list T) :
  forall (b : list T) (d na nb : T),
    List.length a = List.length b ->
    accumulate ar a b d na nb =
    (fold_left (fun s p => add ar s (mul ar (fst p) (snd p))) (combine a b) d,
     fold_left (fun s x => add ar s (mul ar x x)) a na,
     fold_left (fun s x => add ar s (mul ar x x)) b nb).
Proof.
  induction a as [|x a IH]; intros [|y b] d na nb Hlen; try discriminate.
  - reflexivity.
  - cbn [accumulate combine fold_left fst snd]. apply IH. now injection Hlen.
Qed.

Hypothesis mul_comm : forall x y : T, mul ar x y = mul ar y x.

Lemma accumulate_swap (a : list T) :
  forall (b : list T) (d na nb : T),
    accumulate ar b a d nb na =
    let '(d', na', nb') := accumulate ar a b d na nb in (d', nb', na').
Proof.
  induction a as [|x a IH]; intros [|y b] d na nb; try reflexivity.
  cbn [accumulate]. rewrite (mul_comm y x). apply IH.
Qed.

Lemma cosineSimilarityOver_sym (vecA vecB : option (list T)) :
  cosineSimilarityOver ar vecA vecB = cosineSimilarityOver ar vecB vecA.
Proof.
  destruct vecA as [a|], vecB as [b|]; try reflexivity.
  unfold cosineSimilarityOver.
  rewrite (Nat.eqb_sym (List.length b) (List.length a)).
  destruct (negb (Nat.eqb (List.length a) (List.length b))); [reflexivity|].
  rewrite (@accumulate_swap a b).
  destruct (accumulate ar a b (zero ar) (zero ar) (zero ar)) as [[d na] nb].
  rewrite (orb_comm (isZero ar (sqrt ar nb))), (mul_comm (sqrt ar nb)).
  reflexivity.
Qed.

End Generic.

(** *** Over binary64 numbers *)

Lemma sum_squares_zero (v : list number) :
  allZero v ->
  fold_left (fun s x => PrimFloat.add s (PrimFloat.mul x x)) v 0%float = 0%float.
Proof.
  induction 1 as [|x v Hx _ IH]; [reflexivity|].
  cbn [fold_left].
  destruct (@Binary64.eqb_zero x Hx) as [-> | ->]; exact IH.
Qed.

Lemma magnitude_zero (v : list number) : allZero v -> magnitude v = 0%float.
Proof. intros H. unfold magnitude. now rewrite sum_squares_zero. Qed.

Lemma cosineSimilarity_magnitudes (a b : list number) :
  List.length a = List.length b ->
  strict_eq (magnitude a) 0%float = true \/ strict_eq (magnitude b) 0%float = true ->
  cosineSimilarity (Some a) (Some b) = 0%float.
Proof.
  intros Hlen H. unfold cosineSimilarity, cosineSimilarityOver.
  rewrite Hlen, Nat.eqb_refl. cbn [negb].
  rewrite (@accumulate_split _ binary64 a b) by assumption.
  cbn [binary64 zero add mul sqrt isZero]. unfold magnitude in H.
  destruct H as [H | H]; rewrite H; [reflexivity|].
  now rewrite orb_true_r.
Qed.

Lemma cosineSimilarity_lengths (a b : list number) :
  List.length a <> List.length b -> cosineSimilarity (Some a) (Some b) = 0%float.
Proof.
  intros H. unfold cosineSimilarity, cosineSimilarityOver.
  apply Nat.eqb_neq in H. now rewrite H.
Qed.

End CosineFacts.

Section CosineClaims.
Import JS ChatController Terms.

(** C6. [cosineSimilarity(a, b)] returns 0 whenever either input is absent,
    or the two lengths differ, or either vector has zero magnitude, in
    particular when either vector is all zeros. *)
Theorem cosineSimilarity_degenerate_inputs :
  (forall vecB, cosineSimilarity None vecB = 0%float) /\
  (forall vecA, cosineSimilarity vecA None = 0%float) /\
  (forall a b, List.length a <> List.length b ->
               cosineSimilarity (Some a) (Some b) = 0%float) /\
  (forall a b, strict_eq (magnitude a) 0%float = true \/
               strict_eq (magnitude b) 0%float = true ->
               cosineSimilarity (Some a) (Some b) = 0%float) /\
  (forall a b, allZero a \/ allZero b ->
               cosineSimilarity (Some a) (Some b) = 0%float).
Proof.
  assert (Hmag : forall a b,
             strict_eq (magnitude a) 0%float = true \/
             strict_eq (magnitude b) 0%float = true ->
             cosineSimilarity (Some a) (Some b) = 0%float).
  { intros a b H.
    destruct (Nat.eq_dec (List.length a) (List.length b)) as [E|E].
    - now apply CosineFacts.cosineSimilarity_magnitudes.
    - now apply CosineFacts.cosineSimilarity_lengths. }
  split; [|split; [|split; [|split]]].
  - intros vecB. reflexivity.
  - intros [a|]; reflexivity.
  - apply CosineFacts.cosineSimilarity_lengths.
  - exact Hmag.
  - intros a b [H|H]; apply Hmag; [left|right];
      now rewrite (@CosineFacts.magnitude_zero _ H).
Qed.

Lemma cosineSimilarity_degenerate_inputs_witness :
  cosineSimilarity (Some [1; 2]%float) (Some [1]%float) = 0%float /\
  cosineSimilarity (Some [3; 4]%float) (Some [0; (-0)]%float) = 0%float.
Proof.
  destruct cosineSimilarity_degenerate_inputs as (_ & _ & Hlen & _ & Hzero).
  split.
  - apply Hlen. cbn. discriminate.
  - apply Hzero. right. repeat constructor.
Defined.

(** C7, as the code has it.  The two orders of the arguments return the
    same number, NaN included, for vectors of any length.  The number is
    not confined to [-1, 1] and need not be near the cosine of the
    angle: the code divides the rounded dot product by the rounded
    product of two rounded square roots and clamps nothing.  It is
    1.0000000000000002 for [[3, 3]] with itself; 2 for [[1.3 * 2^-537]]
    and [[1.2 * 2^-537]], whose squares round to subnormal numbers; 0 for
    [[2^600]] and [[1]], and NaN for [[2^600]] with itself, where a
    square overflows. *)
Theorem cosineSimilarity_symmetric_and_unclamped :
  (forall vecA vecB, cosineSimilarity vecA vecB = cosineSimilarity vecB vecA) /\
  cosineSimilarity (Some [3; 3]%float) (Some [3; 3]%float)
  = 0x1.0000000000001p+0%float /\
  cosineSimilarity (Some [0x1.4cccccccccccdp-537]%float)
                   (Some [0x1.3333333333333p-537]%float)
  = 2%float /\
  cosineSimilarity (Some [0x1p600]%float) (Some [1]%float) = 0%float /\
  cosineSimilarity (Some [0x1p600]%float) (Some [0x1p600]%float) = nan.
Proof.
  split; [|split; [|split; [|split]]].
  - intros vecA vecB. unfold cosineSimilarity.
    apply CosineFacts.cosineSimilarityOver_sym. exact Binary64.mul_comm.
  - vm_compute. reflexivity.
  - vm_compute. reflexivity.
  - vm_compute. reflexivity.
  - vm_compute. reflexivity.
Qed.

(** C7 as stated fails: for [a = b = [3, 3]] the dot product is 18 and the
    product of the two rounded norms is 17.999999999999996, so that the
    result is 1.0000000000000002. *)
Lemma cosineSimilarity_leaves_unit_interval :
  ~ (forall a b : list number,
       List.length a = List.length b -> (0 < List.length a)%nat ->
       loose_eq (cosineSimilarity (Some a) (Some b))
                (cosineSimilarity (Some b) (Some a)) = true /\
       withinUnit (cosineSimilarity (Some a) (Some b)) = true).
Proof.
  intros H.
  destruct (H [3; 3]%float [3; 3]%float eq_refl) as [_ Hrange].
  - cbn. lia.
  - vm_compute in Hrange. discriminate.
Qed.

End CosineClaims.

(* ================================================================= *)
(** ** Objects used as dictionaries *)

Module ObjectFacts.
Import JS Terms.

Section Properties.
Variable V : Type.

Lemma index_get_set_same (l : list (N * V)) (i : N) (v : V) :
  index_get (index_set l i v) i = Some v.
Proof.
  induction l as [|[j w] l IH]; cbn [index_set index_get].
  - now rewrite N.eqb_refl.
  - destruct (N.eqb_spec i j) as [->|Hne].
    + cbn [index_get]. now rewrite N.eqb_refl.
    + destruct (i <? j)%N; cbn [index_get].
      * now rewrite N.eqb_refl.
      * apply N.eqb_neq in Hne. now rewrite Hne.
Qed.

Lemma index_set_set (l : list (N * V)) (i : N) (v v' : V) :
  index_set (index_set l i v) i v' = index_set l i v'.
Proof.
  induction l as [|[j w] l IH]; cbn [index_set].
  - now rewrite N.eqb_refl.
  - destruct (N.eqb_spec i j) as [->|Hne].
    + cbn [index_set]. now rewrite N.eqb_refl.
    + destruct (i <? j)%N eqn:Hlt; cbn [index_set].
      * now rewrite N.eqb_refl.
      * apply N.eqb_neq in Hne. rewrite Hne, Hlt. now rewrite IH.
Qed.

Lemma name_get_set_same (l : list (jsstring * V)) (s : jsstring) (v : V) :
  name_get (name_set l s v) s = Some v.
Proof.
  assert (Hrefl : jsstring_eqb s s = true).
  { unfold jsstring_eqb. destruct (list_eq_dec N.eq_dec s s); congruence. }
  induction l as [|[t w] l IH]; cbn [name_set name_get].
  - now rewrite Hrefl.
  - destruct (jsstring_eqb s t) eqn:E; cbn [name_get]; rewrite E; [reflexivity|exact IH].
Qed.

Lemma name_set_set (l : list (jsstring * V)) (s : jsstring) (v v' : V) :
  name_set (name_set l s v) s v' = name_set l s v'.
Proof.
  assert (Hrefl : jsstring_eqb s s = true).
  { unfold jsstring_eqb. destruct (list_eq_dec N.eq_dec s s); congruence. }
  induction l as [|[t w] l IH]; cbn [name_set].
  - now rewrite Hrefl.
  - destruct (jsstring_eqb s t) eqn:E; cbn [name_set]; rewrite E; [reflexivity|now rewrite IH].
Qed.

Lemma get_set_same (o : object V) (k : property_key) (v : V) :
  get (set o k v) k = Some v.
Proof.
  destruct k; cbn [get set index_properties name_properties];
    [apply index_get_set_same | apply name_get_set_same].
Qed.

Lemma set_set (o : object V) (k : property_key) (v v' : V) :
  set (set o k v) k v' = set o k v'.
Proof.
  destruct k; cbn [set index_properties name_properties];
    [now rewrite index_set_set | now rewrite name_set_set].
Qed.

(** Below the first key of an ascending list nothing is found. *)
Lemma index_get_below (l : list (N * V)) (i : N) :
  Sorted N.lt (map fst l) ->
  (forall j, In j (map fst l) -> (i < j)%N) ->
  index_get l i = None.
Proof.
  induction l as [|[j w] l IH]; intros Hs Hlt; [reflexivity|].
  cbn [index_get].
  assert (i < j)%N as Hij by (apply Hlt; now left).
  replace (i =? j)%N with false by (symmetry; apply N.eqb_neq; lia).
  apply IH.
  - now inversion Hs.
  - intros j' Hj'. apply Hlt. now right.
Qed.

Lemma sorted_tail_above (j : N) (keys : list N) :
  Sorted N.lt (j :: keys) -> forall j', In j' keys -> (j < j')%N.
Proof.
  intros Hs. apply Sorted_StronglySorted in Hs; [|exact N.lt_trans].
  inversion Hs as [|? ? _ Hall]; subst.
  now apply Forall_forall.
Qed.

Lemma index_set_sorted (l : list (N * V)) (i : N) (v : V) :
  Sorted N.lt (map fst l) -> Sorted N.lt (map fst (index_set l i v)).
Proof.
  induction l as [|[j w] l IH]; intros Hs; cbn [index_set].
  - repeat constructor.
  - destruct (N.eqb_spec i j) as [->|Hne]; [exact Hs|].
    destruct (N.ltb_spec i j) as [Hlt|Hge].
    + cbn [map fst]. constructor; [exact Hs|]. constructor. exact Hlt.
    + cbn [map fst] in *. inversion Hs as [|? ? Hs' Hhd]; subst.
      constructor; [now apply IH|].
      destruct l as [|[j' w'] l']; cbn [index_set map fst].
      * constructor. lia.
      * inversion Hhd; subst.
        destruct (i =? j')%N; [constructor; assumption|].
        destruct (i <? j')%N; cbn [map fst]; constructor; [lia|assumption].
Qed.

Lemma index_set_split (l : list (N * V)) (i : N) (v : V) :
  Sorted N.lt (map fst l) ->
  exists l1 l2,
    l = l1 ++ match index_get l i with Some w => [(i, w)] | None => [] end ++ l2 /\
    index_set l i v = l1 ++ (i, v) :: l2.
Proof.
  induction l as [|[j w] l IH]; intros Hs.
  - exists [], []. split; reflexivity.
  - cbn [index_set index_get].
    destruct (N.eqb_spec i j) as [->|Hne].
    + exists [], l. split; reflexivity.
    + destruct (N.ltb_spec i j) as [Hlt|Hge].
      * exists [], ((j, w) :: l). split; [|reflexivity].
        rewrite index_get_below; [reflexivity| now inversion Hs |].
        intros j' Hj'. cbn [map fst] in Hs.
        pose proof (@sorted_tail_above j (map fst l) Hs j' Hj'). lia.
      * destruct IH as (l1 & l2 & E1 & E2); [now inversion Hs|].
        exists ((j, w) :: l1), l2. split.
        -- cbn [app]. f_equal. exact E1.
        -- cbn [app]. f_equal. exact E2.
Qed.

Lemma name_set_split (l : list (jsstring * V)) (s : jsstring) (v : V) :
  exists l1 l2,
    l = l1 ++ match name_get l s with Some w => [(s, w)] | None => [] end ++ l2 /\
    name_set l s v = l1 ++ (s, v) :: l2.
Proof.
  induction l as [|[t w] l IH].
  - exists [], []. split; reflexivity.
  - cbn [name_set name_get]. unfold jsstring_eqb.
    destruct (list_eq_dec N.eq_dec s t) as [->|Hne].
    + exists [], l. split; reflexivity.
    + destruct IH as (l1 & l2 & E1 & E2).
      exists ((t, w) :: l1), l2. split.
      * cbn [app]. f_equal. exact E1.
      * cbn [app]. f_equal. exact E2.
Qed.

Lemma values_entries (o : object V) : values o = map snd (entries o).
Proof.
  unfold values, entries. rewrite map_app, !map_map. reflexivity.
Qed.

(** A write replaces the former entry of the key where it stands, or
    adds the entry at the place of the key. *)
Lemma entries_set (o : object V) (k : property_key) (v : V) :
  Sorted N.lt (map fst (index_properties o)) ->
  exists l1 l2,
    entries o = l1 ++ former o k ++ l2 /\
    entries (set o k v) = l1 ++ (k, v) :: l2.
Proof.
  intros Hs. unfold entries, former. destruct k as [i|s]; cbn [get set index_properties name_properties].
  - destruct (@index_set_split (index_properties o) i v Hs) as (l1 & l2 & E1 & E2).
    exists (map (fun iv : N * V => (IndexKey (fst iv), snd iv)) l1),
           (map (fun iv : N * V => (IndexKey (fst iv), snd iv)) l2 ++
            map (fun sv : jsstring * V => (NameKey (fst sv), snd sv)) (name_properties o)).
    split.
    + rewrite E1 at 1. rewrite !map_app, <- !app_assoc. f_equal. f_equal.
      destruct (index_get (index_properties o) i); reflexivity.
    + rewrite E2, map_app. cbn [map fst snd]. rewrite <- app_assoc. reflexivity.
  - destruct (@name_set_split (name_properties o) s v) as (l1 & l2 & E1 & E2).
    exists (map (fun iv : N * V => (IndexKey (fst iv), snd iv)) (index_properties o) ++
            map (fun sv : jsstring * V => (NameKey (fst sv), snd sv)) l1),
           (map (fun sv : jsstring * V => (NameKey (fst sv), snd sv)) l2).
    split.
    + rewrite E1 at 1. rewrite !map_app, <- !app_assoc. f_equal. f_equal. f_equal.
      destruct (name_get (name_properties o) s); reflexivity.
    + rewrite E2, map_app. cbn [map fst snd]. rewrite <- app_assoc. reflexivity.
Qed.

Lemma set_sorted (o : object V) (k : property_key) (v : V) :
  Sorted N.lt (map fst (index_properties o)) ->
  Sorted N.lt (map fst (index_properties (set o k v))).
Proof.
  intros Hs. destruct k; cbn [set index_properties]; [now apply index_set_sorted|exact Hs].
Qed.

Lemma index_get_None (l : list (N * V)) (i : N) :
  index_get l i = None -> ~ In i (map fst l).
Proof.
  induction l as [|[j w] l IH]; cbn [index_get map fst In]; [tauto|].
  destruct (N.eqb_spec i j) as [->|Hne]; [discriminate|].
  intros H [E|Hin]; [congruence|]. now apply IH.
Qed.

Lemma name_get_None (l : list (jsstring * V)) (s : jsstring) :
  name_get l s = None -> ~ In s (map fst l).
Proof.
  induction l as [|[t w] l IH]; cbn [name_get map fst In]; [tauto|].
  unfold jsstring_eqb. destruct (list_eq_dec N.eq_dec s t) as [->|Hne]; [discriminate|].
  intros H [E|Hin]; [congruence|]. now apply IH.
Qed.

Lemma get_None (o : object V) (k : property_key) :
  get o k = None -> ~ In k (map fst (entries o)).
Proof.
  intros H Hin. unfold entries in Hin. rewrite map_app, !map_map in Hin. cbn [fst] in Hin.
  apply in_app_or in Hin as [Hin|Hin]; apply in_map_iff in Hin as (x & E & Hx);
    destruct k as [i|s]; try discriminate; injection E as E; subst; cbn [get] in H.
  - apply (index_get_None _ _ H). now apply in_map.
  - apply (name_get_None _ _ H). now apply in_map.
Qed.

End Properties.

End ObjectFacts.


(* ================================================================= *)
(** ** Grouping by conversation *)

Module GroupFacts.
Import JS Db ChatController Terms ObjectFacts.

Lemma lit_inj (s t : string) : lit s = lit t -> s = t.
Proof.
  unfold lit. intros H.
  rewrite <- (string_of_list_ascii_of_string s), <- (string_of_list_ascii_of_string t).
  f_equal. revert H. generalize (list_ascii_of_string t).
  induction (list_ascii_of_string s) as [|a l IH]; intros [|b l'] H; try discriminate.
  - reflexivity.
  - cbn [map] in H. injection H as Hab Hl. f_equal; [|now apply IH].
    unfold code_unit in Hab.
    rewrite <- (ascii_N_embedding a), <- (ascii_N_embedding b). now rewrite Hab.
Qed.

Lemma to_int_proper (n : Z) :
  Z.to_int n <> Decimal.Pos Decimal.Nil /\ Z.to_int n <> Decimal.Neg Decimal.Nil.
Proof.
  split; intros H; pose proof (DecimalZ.of_to n) as E; rewrite H in E;
    cbn in E; subst n; discriminate.
Qed.

Lemma integerToString_inj (n m : Z) : integerToString n = integerToString m -> n = m.
Proof.
  unfold integerToString. intros H. apply lit_inj in H.
  destruct (to_int_proper n) as [Hn1 Hn2], (to_int_proper m) as [Hm1 Hm2].
  pose proof (@NilZero.isi _ Hn1 Hn2) as En. pose proof (@NilZero.isi _ Hm1 Hm2) as Em.
  rewrite H in En. rewrite En in Em. injection Em as Em.
  rewrite <- (DecimalZ.of_to n), <- (DecimalZ.of_to m). now rewrite Em.
Qed.

(** Two conversations never share a key. *)
Lemma ToPropertyKey_inj (n m : Z) : ToPropertyKey n = ToPropertyKey m -> n = m.
Proof.
  unfold ToPropertyKey.
  destruct ((0 <=? n) && (n <? 2 ^ 32 - 1)) eqn:En;
  destruct ((0 <=? m) && (m <? 2 ^ 32 - 1)) eqn:Em; intros H; try discriminate.
  - injection H as H. lia.
  - injection H as H. now apply integerToString_inj.
Qed.

(** The two statements of the loop body amount to one write. *)
Lemma addToGroup_set (o : object group) (cid : Z) (title : jsstring) (h : hit) :
  addToGroup o cid title h = set o (ToPropertyKey cid) (pushed o cid title h).
Proof.
  unfold addToGroup, pushed.
  destruct (get o (ToPropertyKey cid)) as [g|] eqn:E.
  - rewrite E. reflexivity.
  - rewrite get_set_same, set_set. reflexivity.
Qed.

Lemma hitsOf_snoc (cid : Z) (items : list item) (x : item) :
  hitsOf cid (items ++ [x]) =
  hitsOf cid items ++ (if item_conversationId x =? cid then [item_hit x] else []).
Proof.
  unfold hitsOf. rewrite filter_app, map_app. cbn [filter].
  destruct (item_conversationId x =? cid); reflexivity.
Qed.

Lemma allMessages_app (l1 l2 : list group) :
  allMessages (l1 ++ l2) = allMessages l1 ++ allMessages l2.
Proof. unfold allMessages. now rewrite map_app, concat_app. Qed.

Lemma grouped_empty : grouped [] empty_object.
Proof.
  split.
  - split; cbn.
    + constructor.
    + constructor.
    + intros k g [].
  - intros g [].
  - intros g [].
  - intros x [].
  - constructor.
Qed.

Lemma filter_none (A : Type) (f : A -> bool) (l : list A) :
  (forall y, In y l -> f y = false) -> filter f l = [].
Proof.
  induction l as [|a l IH]; intros H; [reflexivity|].
  cbn [filter]. rewrite (H a) by now left. apply IH. intros y Hy. apply H. now right.
Qed.

Lemma in_values (o : object group) (g : group) :
  In g (values o) <-> exists k, In (k, g) (entries o).
Proof.
  rewrite values_entries. split.
  - intros H. apply in_map_iff in H as ([k g0] & E & Hin). cbn in E. subst g0. eauto.
  - intros [k Hin]. change g with (snd (k, g)). now apply in_map.
Qed.

Lemma grouped_step (items : list item) (o : object group) (x : item) :
  grouped items o ->
  grouped (items ++ [x])
    (addToGroup o (item_conversationId x) (item_title x) (item_hit x)).
Proof.
  intros [[Hsorted Hnodup Hkeys] Hmsgs Hinh Hcov Hperm].
  rewrite addToGroup_set.
  set (cid := item_conversationId x). set (k := ToPropertyKey cid).
  set (g' := pushed o cid (item_title x) (item_hit x)).
  destruct (@entries_set _ o k g' Hsorted) as (l1 & l2 & E & E').
  assert (Hformer : forall g, In (k, g) (former o k) -> g_conversationId g = cid).
  { intros g Hin. apply ToPropertyKey_inj. fold k. apply Hkeys.
    rewrite E. apply in_or_app. right. apply in_or_app. now left. }
  (* the group written: the one of [cid], with the hit pushed *)
  assert (Hid : g_conversationId g' = cid).
  { unfold g', pushed. fold k. destruct (get o k) as [g|] eqn:Eg; [|reflexivity].
    cbn [g_conversationId]. apply Hformer. unfold former. rewrite Eg. now left. }
  assert (Hpush : g_messages g' = allMessages (map snd (former o k)) ++ [item_hit x]).
  { unfold g', pushed, former. fold k. destruct (get o k) as [g|]; cbn.
    - now rewrite app_nil_r.
    - reflexivity. }
  (* the keys after the write *)
  assert (Hnodup' : NoDup (map fst (l1 ++ (k, g') :: l2))).
  { rewrite E in Hnodup. unfold former in Hnodup. destruct (get o k) as [g|] eqn:Eg.
    - rewrite !map_app in *. exact Hnodup.
    - cbn [app] in Hnodup. rewrite map_app. cbn [map fst].
      apply (NoDup_Add (Add_app k (map fst l1) (map fst l2))). split.
      + now rewrite <- map_app.
      + assert (entries o = l1 ++ l2) as E0
          by (rewrite E; unfold former; rewrite Eg; reflexivity).
        rewrite <- map_app, <- E0. now apply get_None. }
  assert (Hother : forall k0 g0, In (k0, g0) (l1 ++ l2) ->
                     In (k0, g0) (entries o) /\ g_conversationId g0 <> cid).
  { intros k0 g0 Hin. assert (In (k0, g0) (entries o)) as Hin0.
    { rewrite E. apply in_app_or in Hin as [H|H]; apply in_or_app; [now left|right].
      apply in_or_app. now right. }
    split; [exact Hin0|]. intros Heq.
    assert (k0 = k) as -> by (rewrite <- (Hkeys _ _ Hin0), Heq; reflexivity).
    rewrite map_app in Hnodup'. cbn [map fst] in Hnodup'.
    apply NoDup_remove_2 in Hnodup'. apply Hnodup'.
    rewrite <- map_app. change k with (fst (k, g0)). now apply in_map. }
  assert (Hsplit : forall k0 g0, In (k0, g0) (l1 ++ (k, g') :: l2) ->
                     (k0, g0) = (k, g') \/ In (k0, g0) (l1 ++ l2)).
  { intros k0 g0 Hin. apply in_app_or in Hin as [H|[H|H]].
    - right. apply in_or_app. now left.
    - left. now symmetry.
    - right. apply in_or_app. now right. }
  split.
  - split.
    + now apply set_sorted.
    + rewrite E'. exact Hnodup'.
    + rewrite E'. intros k0 g0 Hin. apply Hsplit in Hin as [Heq|Hin].
      * injection Heq as -> ->. now rewrite Hid.
      * apply Hkeys. now apply Hother.
  - intros g0 Hin. apply in_values in Hin as [k0 Hin]. rewrite E' in Hin.
    rewrite hitsOf_snoc. fold cid.
    apply Hsplit in Hin as [Heq|Hin].
    + injection Heq as -> ->. rewrite Hid, Z.eqb_refl, Hpush. f_equal.
      unfold former. destruct (get o k) as [g|] eqn:Eg; cbn.
      * rewrite app_nil_r. rewrite <- (Hformer g) by (unfold former; rewrite Eg; now left).
        apply Hmsgs. apply in_values. exists k. rewrite E. unfold former. rewrite Eg.
        apply in_or_app. right. now left.
      * unfold hitsOf. rewrite filter_none; [reflexivity|].
        intros y Hy. apply Z.eqb_neq. intros Heq.
        destruct (Hcov y Hy) as (g & Hg & Hgid). apply in_values in Hg as [k0 Hg].
        apply (get_None _ _ Eg).
        assert (k0 = k) as <-.
        { rewrite <- (Hkeys _ _ Hg), Hgid, Heq. reflexivity. }
        change k0 with (fst (k0, g)). now apply in_map.
    + destruct (Hother _ _ Hin) as [Hin0 Hne].
      replace (cid =? g_conversationId g0) with false
        by (symmetry; apply Z.eqb_neq; congruence).
      rewrite app_nil_r. apply Hmsgs. apply in_values. eauto.
  - intros g0 Hin. apply in_values in Hin as [k0 Hin]. rewrite E' in Hin.
    apply Hsplit in Hin as [Heq|Hin].
    + injection Heq as -> ->. exists x. split; [apply in_or_app; right; now left|].
      now rewrite Hid.
    + destruct (Hother _ _ Hin) as [Hin0 _].
      destruct (Hinh g0) as (y & Hy & Hyid); [apply in_values; eauto|].
      exists y. split; [apply in_or_app; now left|exact Hyid].
  - intros y Hy. apply in_app_or in Hy as [Hy|[<-|[]]].
    + destruct (Hcov y Hy) as (g & Hg & Hgid). apply in_values in Hg as [k0 Hg].
      rewrite E in Hg. apply in_app_or in Hg as [Hg|Hg];
        [|apply in_app_or in Hg as [Hg|Hg]].
      * exists g. split; [|exact Hgid]. apply in_values. exists k0. rewrite E'.
        apply in_or_app. now left.
      * exists g'. split.
        -- apply in_values. exists k. rewrite E'. apply in_or_app. right. now left.
        -- rewrite Hid, <- Hgid. symmetry. apply Hformer.
           assert (k0 = k) as <-; [|exact Hg].
           unfold former in Hg. destruct (get o k); [|destruct Hg].
           destruct Hg as [Heq|[]]. now injection Heq.
      * exists g. split; [|exact Hgid]. apply in_values. exists k0. rewrite E'.
        apply in_or_app. right. now right.
    + exists g'. split; [|exact Hid].
      apply in_values. exists k. rewrite E'. apply in_or_app. right. now left.
  - rewrite values_entries, E', map_app. cbn [map snd].
    rewrite allMessages_app. unfold allMessages at 2. cbn [map List.concat].
    fold (allMessages (map snd l2)). rewrite Hpush.
    rewrite values_entries, E, !map_app, !allMessages_app in Hperm.
    rewrite map_app. cbn [map].
    rewrite <- !app_assoc. cbn [app].
    rewrite (app_assoc (allMessages (map snd l1))).
    eapply Permutation_trans; [apply Permutation_sym, Permutation_middle|].
    eapply Permutation_trans; [|apply Permutation_cons_append].
    apply perm_skip. rewrite <- app_assoc. exact Hperm.
Qed.

Lemma groupItems_snoc (items : list item) (x : item) :
  groupItems (items ++ [x]) =
  addToGroup (groupItems items) (item_conversationId x) (item_title x) (item_hit x).
Proof. unfold groupItems. now rewrite fold_left_app. Qed.

Lemma groupItems_grouped (items : list item) : grouped items (groupItems items).
Proof.
  induction items as [|x items IH] using rev_ind.
  - apply grouped_empty.
  - rewrite groupItems_snoc. now apply grouped_step.
Qed.

Lemma groupSemantic_items (relevant : list scored_message) :
  groupSemantic relevant = groupItems (map semanticItem relevant).
Proof.
  unfold groupSemantic, groupItems. generalize (@empty_object group).
  induction relevant as [|msg l IH]; intros o; [reflexivity|].
  cbn [fold_left map]. apply IH.
Qed.

Lemma groupKeyword_items (rows : list keyword_row) :
  groupKeyword rows = groupItems (map keywordItem rows).
Proof.
  unfold groupKeyword, groupItems. generalize (@empty_object group).
  induction rows as [|row l IH]; intros o; [reflexivity|].
  cbn [fold_left map]. apply IH.
Qed.

End GroupFacts.

(* ================================================================= *)
(** ** The order of positive numbers, and the sort *)

Module Binary64Order.
Import JS.

Lemma SFleb_trans (x y z : spec_float) :
  positive_sf x -> positive_sf y -> positive_sf z ->
  SFleb x y = true -> SFleb y z = true -> SFleb x z = true.
Proof.
  intros Px Py Pz.
  destruct x as [sx|[]| |[] mx ex]; try contradiction;
  destruct y as [sy|[]| |[] my ey]; try contradiction;
  destruct z as [sz|[]| |[] mz ez]; try contradiction;
    unfold SFleb; cbn [SFcompare]; try reflexivity; try discriminate.
  change (Pos.compare_cont Eq) with Pos.compare.
  destruct (Z.compare_spec ex ey), (Z.compare_spec ey ez), (Z.compare_spec ex ez);
    try reflexivity; try discriminate; try lia; subst.
  destruct (Pos.compare_spec mx my), (Pos.compare_spec my mz), (Pos.compare_spec mx mz);
    try reflexivity; try discriminate; lia.
Qed.

Lemma leb_trans (x y z : float) :
  positive_number x -> positive_number y -> positive_number z ->
  PrimFloat.leb x y = true -> PrimFloat.leb y z = true -> PrimFloat.leb x z = true.
Proof. rewrite !leb_spec. apply SFleb_trans. Qed.

End Binary64Order.

Module SortFacts.
Import JS.

Section Insertion.
Variable A : Type.
Variable comparefn : A -> A -> number.
Variable ok : A -> Prop.
Variable before : A -> A -> Prop.

Hypothesis moves : forall x y, ok x -> ok y ->
  comesAfter comparefn x y = true -> before y x.
Hypothesis stays : forall x y, ok x -> ok y ->
  comesAfter comparefn x y = false -> before x y.

Lemma insert_permutation (x : A) (l : list A) :
  Permutation (x :: l) (insert comparefn x l).
Proof.
  induction l as [|y l IH]; cbn [insert]; [reflexivity|].
  destruct (comesAfter comparefn x y); [|reflexivity].
  eapply Permutation_trans; [apply perm_swap|]. now apply perm_skip.
Qed.

Lemma sort_permutation (l : list A) : Permutation l (sort comparefn l).
Proof.
  induction l as [|x l IH]; cbn [sort]; [reflexivity|].
  eapply Permutation_trans; [|apply insert_permutation]. now apply perm_skip.
Qed.

Lemma insert_sorted (x : A) (l : list A) :
  ok x -> Forall ok l -> Sorted before l -> Sorted before (insert comparefn x l).
Proof.
  intros Hx. induction l as [|y l IH]; intros Hok Hs; cbn [insert].
  - repeat constructor.
  - inversion Hok as [|? ? Hy Hl]; subst. inversion Hs as [|? ? Hs' Hhd]; subst.
    destruct (comesAfter comparefn x y) eqn:E.
    + constructor; [now apply IH|].
      destruct l as [|z l]; cbn [insert].
      * constructor. now apply moves.
      * inversion Hhd; subst.
        destruct (comesAfter comparefn x z); constructor; [assumption|now apply moves].
    + constructor; [exact Hs|]. constructor. now apply stays.
Qed.

Lemma sort_sorted (l : list A) : Forall ok l -> Sorted before (sort comparefn l).
Proof.
  induction l as [|x l IH]; intros Hok; cbn [sort]; [constructor|].
  inversion Hok; subst. apply insert_sorted; auto.
  apply (Permutation_Forall (sort_permutation l)). assumption.
Qed.

End Insertion.

Lemma in_firstn (A : Type) (n : nat) (l : list A) (x : A) :
  In x (firstn n l) -> In x l.
Proof.
  intros H. rewrite <- (firstn_skipn n l). apply in_or_app. now left.
Qed.

Lemma StronglySorted_firstn (A : Type) (R : A -> A -> Prop) (n : nat) (l : list A) :
  StronglySorted R l -> StronglySorted R (firstn n l).
Proof.
  revert l. induction n as [|n IH]; intros [|x l] H; cbn [firstn]; try constructor.
  - apply IH. now inversion H.
  - inversion H as [|? ? _ Hall]; subst. apply Forall_forall. intros y Hy.
    apply (proj1 (Forall_forall _ _) Hall). exact (in_firstn n l y Hy).
Qed.

Lemma StronglySorted_filter (A : Type) (R : A -> A -> Prop) (f : A -> bool) (l : list A) :
  StronglySorted R l -> StronglySorted R (filter f l).
Proof.
  induction 1 as [|x l Hs IH Hall]; cbn [filter]; [constructor|].
  destruct (f x); [|exact IH]. constructor; [exact IH|].
  apply Forall_forall. intros y Hy. apply filter_In in Hy as [Hy _].
  now apply (proj1 (Forall_forall _ _) Hall).
Qed.

Lemma StronglySorted_map (A B : Type) (R : A -> A -> Prop) (S : B -> B -> Prop)
  (f : A -> B) (l : list A) :
  (forall x y, R x y -> S (f x) (f y)) ->
  StronglySorted R l -> StronglySorted S (map f l).
Proof.
  intros HRS. induction 1 as [|x l Hs IH Hall]; cbn [map]; constructor; [exact IH|].
  apply Forall_forall. intros y Hy. apply in_map_iff in Hy as (a & <- & Ha).
  apply HRS. now apply (proj1 (Forall_forall _ _) Hall).
Qed.

End SortFacts.

(* ================================================================= *)
(** ** The search handler *)

Module SearchFacts.
Import JS Db World ChatController Terms.

Section Handlers.
Variable JSON_parse : jsstring -> completion (option (list number)).
Variable ILIKE : jsstring -> jsstring -> bool.

Local Abbreviation searchMessages := (searchMessages JSON_parse ILIKE).
Local Abbreviation performKeywordSearch := (performKeywordSearch ILIKE).
Local Abbreviation messagesWithScores := (messagesWithScores JSON_parse).
Local Abbreviation search_path := (search_path JSON_parse ILIKE).

(** [generateEmbedding] absorbs every failure. *)
Lemma generateEmbedding_returns (text : jsstring) (w : world) :
  exists r w', generateEmbedding text w = (Returned r, w').
Proof.
  unfold generateEmbedding, try_catch.
  destruct (falsy text || (strlen (trim text) <? 3)); [unfold ret; eauto|].
  unfold bind, fetchEmbeddings, throw, ret.
  destruct (hd Unreachable (ollama w)) as [|code| |[e|]]; eauto.
Qed.

(** The keyword search answers with its result, or with status 500 when
    the store cannot be reached or rejects the user id. *)
Lemma performKeywordSearch_returns (userId : Z) (query : jsstring) (w : world) :
  exists w',
    performKeywordSearch userId query w =
    (Returned
       (if hd false (outages w) || negb (int4 userId)
        then ErrorResponse 500 "Failed to search messages"
        else
          let rows := selectKeyword ILIKE userId (lit "%" ++ query ++ lit "%") (db w) in
          SearchResult (values (groupKeyword rows)) (count rows) keyword None),
     w').
Proof.
  unfold performKeywordSearch, try_catch, bind, pool_query, ret, queryKeyword, asInteger.
  destruct (hd false (outages w)); [eauto|].
  destruct (int4 userId); eauto.
Qed.

Lemma count_zero (A : Type) (l : list A) : (count l =? 0) = true <-> l = [].
Proof.
  unfold count. destruct l; cbn; split; intros; try reflexivity; discriminate.
Qed.

Lemma count_nonzero (A : Type) (l : list A) : (count l =? 0) = false <-> l <> [].
Proof.
  unfold count. destruct l; cbn; split; intros; congruence.
Qed.

(** Every run of the handler answers, along one of the paths. *)
Lemma searchMessages_path (userId : Z) (query : option jsstring) (w : world) :
  exists resp w',
    searchMessages userId query w = (Returned resp, w') /\
    search_path userId query w resp w'.
Proof.
  unfold ChatController.searchMessages, try_catch.
  destruct query as [q|]; [|do 2 eexists; split; [reflexivity|now constructor]].
  destruct (falsy q || (strlen (trim q) <? 3)) eqn:Eacc.
  { do 2 eexists; split; [reflexivity|]. constructor. unfold accepted. now rewrite Eacc. }
  assert (Hacc : accepted q = true) by (unfold accepted; now rewrite Eacc).
  unfold bind at 1.
  destruct (generateEmbedding_returns q w) as (r & w1 & Eg). rewrite Eg.
  destruct r as [qe|].
  2:{ destruct (performKeywordSearch_returns userId q w1) as (w' & Ek).
      rewrite Ek. do 2 eexists; split; [reflexivity|].
      eapply path_no_query_embedding; eauto. }
  unfold bind. fold (readEmbedded userId).
  destruct (readEmbedded userId w1) as [[rows|message] w2] eqn:Er.
  2:{ do 2 eexists; split; [reflexivity|]. eapply path_store_failure; eauto. }
  destruct (count rows =? 0) eqn:Erows.
  { apply count_zero in Erows. subst rows.
    destruct (performKeywordSearch_returns userId q w2) as (w' & Ek).
    rewrite Ek. do 2 eexists; split; [reflexivity|].
    eapply path_no_rows; eauto. }
  apply count_nonzero in Erows.
  destruct (count (relevantMessages (messagesWithScores qe rows)) =? 0) eqn:Erel.
  { apply count_zero in Erel.
    destruct (performKeywordSearch_returns userId q w2) as (w' & Ek).
    rewrite Ek. do 2 eexists; split; [reflexivity|].
    eapply path_nothing_relevant; eauto. }
  apply count_nonzero in Erel.
  do 2 eexists; split; [reflexivity|]. eapply path_semantic; eauto.
Qed.

End Handlers.
End SearchFacts.

(* ================================================================= *)
(** ** Ranking *)

Module RankFacts.
Import JS ChatController Terms.

Lemma threshold_positive : positive_number SIMILARITY_THRESHOLD.
Proof. exact I. Qed.

Lemma relevant_positive (msg : scored_message) :
  relevant msg -> positive_number (sm_similarity msg).
Proof.
  unfold relevant, ge. apply Binary64.leb_positive. exact threshold_positive.
Qed.

Lemma bySimilarity_moves (x y : scored_message) :
  relevant x -> relevant y ->
  comesAfter bySimilarity x y = true -> rankedBefore y x.
Proof.
  intros Hx Hy. apply relevant_positive in Hx, Hy.
  unfold comesAfter, gt, bySimilarity. rewrite Binary64.ltb_zero_sub by assumption.
  intros H. repeat split; try assumption. unfold ge. now apply Binary64.ltb_leb.
Qed.

Lemma bySimilarity_stays (x y : scored_message) :
  relevant x -> relevant y ->
  comesAfter bySimilarity x y = false -> rankedBefore x y.
Proof.
  intros Hx Hy. apply relevant_positive in Hx, Hy.
  unfold comesAfter, gt, bySimilarity. rewrite Binary64.ltb_zero_sub by assumption.
  intros H. repeat split; try assumption. unfold ge. now apply Binary64.not_ltb_leb.
Qed.

Lemma rankedBefore_trans : Transitive rankedBefore.
Proof.
  intros x y z (Px & Py & Hxy) (_ & Pz & Hyz). repeat split; try assumption.
  unfold ge in *. now apply (@Binary64Order.leb_trans _ (sm_similarity y)).
Qed.

(** The ranked list: at or above the threshold, in descending similarity,
    at most 50, drawn from the candidates. *)
Lemma relevantMessages_ranked (scored : list scored_message) :
  Forall relevant (relevantMessages scored) /\
  descending (relevantMessages scored) /\
  (List.length (relevantMessages scored) <= 50)%nat /\
  (forall msg, In msg (relevantMessages scored) -> In msg scored).
Proof.
  unfold relevantMessages, slice0.
  set (kept := filter (fun msg => ge (sm_similarity msg) SIMILARITY_THRESHOLD) scored).
  assert (Hkept : Forall relevant kept).
  { apply Forall_forall. intros msg H. apply filter_In in H. apply H. }
  pose proof (SortFacts.sort_permutation bySimilarity kept) as Hperm.
  assert (Hsorted : Forall relevant (sort bySimilarity kept))
    by (apply (Permutation_Forall Hperm); exact Hkept).
  split; [|split; [|split]].
  - apply Forall_forall. intros msg H. apply SortFacts.in_firstn in H.
    now apply (proj1 (Forall_forall _ _) Hsorted).
  - apply SortFacts.StronglySorted_firstn.
    rewrite <- (map_id (sort bySimilarity kept)).
    apply (@SortFacts.StronglySorted_map _ _ rankedBefore).
    + intros x y H. apply H.
    + apply Sorted_StronglySorted; [exact rankedBefore_trans|].
      apply (@SortFacts.sort_sorted _ bySimilarity relevant rankedBefore
               bySimilarity_moves bySimilarity_stays kept Hkept).
  - apply firstn_le_length.
  - intros msg H. apply SortFacts.in_firstn in H.
    apply (Permutation_in _ (Permutation_sym Hperm)) in H.
    apply filter_In in H. apply H.
Qed.

End RankFacts.

(* ================================================================= *)
(** ** The groups of a response *)

Module ResponseFacts.
Import JS Db World ChatController Terms.

Lemma sumOfSizes_count (groups : list group) :
  sumOfSizes groups = count (allMessages groups).
Proof.
  unfold sumOfSizes, allMessages, count.
  induction groups as [|g groups IH]; cbn [fold_right map List.concat]; [reflexivity|].
  rewrite IH, length_app. lia.
Qed.

Lemma hitsOf_filter (cid : Z) (items : list item) :
  Forall (fun x => conversationId (item_hit x) = item_conversationId x) items ->
  hitsOf cid items = filter (fun h => conversationId h =? cid) (map item_hit items).
Proof.
  unfold hitsOf. induction 1 as [|x items Hx _ IH]; [reflexivity|].
  cbn [filter map]. rewrite Hx.
  destruct (item_conversationId x =? cid); cbn [map]; now rewrite IH.
Qed.

Lemma group_ids_nodup (o : object group) :
  wellKeyed o -> NoDup (map g_conversationId (values o)).
Proof.
  intros [_ Hnodup Hkeys].
  apply (NoDup_map_inv ToPropertyKey).
  rewrite ObjectFacts.values_entries, !map_map.
  erewrite map_ext_in; [exact Hnodup|].
  intros [k g] Hin. cbn [fst snd]. now apply Hkeys.
Qed.

(** The groups hold the hits of their conversation, each hit once. *)
Lemma groups_partition (items : list item) :
  Forall (fun x => conversationId (item_hit x) = item_conversationId x) items ->
  let groups := values (groupItems items) in
  let hits := map item_hit items in
  count hits = sumOfSizes groups /\
  NoDup (map g_conversationId groups) /\
  (forall g, In g groups ->
     g_messages g = filter (fun h => conversationId h =? g_conversationId g) hits) /\
  (forall h, In h hits ->
     exists g, In g groups /\ g_conversationId g = conversationId h) /\
  Permutation (allMessages groups) hits.
Proof.
  intros Hcoh groups hits.
  destruct (GroupFacts.groupItems_grouped items) as [Hkeys Hmsgs Hinh Hcov Hperm].
  fold groups in Hmsgs, Hinh, Hcov, Hperm. fold hits in Hperm.
  split; [|split; [|split; [|split]]].
  - rewrite sumOfSizes_count. unfold count. f_equal. symmetry.
    now apply Permutation_length.
  - now apply group_ids_nodup.
  - intros g Hg. rewrite (Hmsgs g Hg). now apply hitsOf_filter.
  - intros h Hh. apply in_map_iff in Hh as (x & <- & Hx).
    destruct (Hcov x Hx) as (g & Hg & Hid). exists g. split; [exact Hg|].
    rewrite Hid. symmetry. now apply (proj1 (Forall_forall _ _) Hcoh).
  - exact Hperm.
Qed.

Lemma semanticItems_coherent (ranked : list scored_message) :
  Forall (fun x => conversationId (item_hit x) = item_conversationId x)
         (map semanticItem ranked).
Proof. apply Forall_forall. intros x H. apply in_map_iff in H as (m & <- & _). reflexivity. Qed.

Lemma keywordItems_coherent (rows : list keyword_row) :
  Forall (fun x => conversationId (item_hit x) = item_conversationId x)
         (map keywordItem rows).
Proof. apply Forall_forall. intros x H. apply in_map_iff in H as (m & <- & _). reflexivity. Qed.

(** When every conversation has an integer key, the groups come out in
    ascending order of [conversationId]. *)
Lemma integer_keys_ascending (o : object group) :
  wellKeyed o ->
  Forall (fun g => 0 <= g_conversationId g < 2 ^ 32 - 1) (values o) ->
  StronglySorted Z.lt (map g_conversationId (values o)).
Proof.
  intros [Hsorted _ Hkeys] Hrange.
  assert (Hnames : name_properties o = []).
  { destruct (name_properties o) as [|[s g] l] eqn:E; [reflexivity|exfalso].
    assert (In (NameKey s, g) (entries o)) as Hin.
    { unfold entries. rewrite E. apply in_or_app. right. now left. }
    assert (In g (values o)) as Hg.
    { rewrite ObjectFacts.values_entries. change g with (snd (NameKey s, g)).
      now apply in_map. }
    apply Hkeys in Hin. apply (proj1 (Forall_forall _ _) Hrange) in Hg.
    unfold ToPropertyKey in Hin.
    replace ((0 <=? g_conversationId g) && (g_conversationId g <? 2 ^ 32 - 1))
      with true in Hin by (symmetry; apply andb_true_iff; split; lia).
    discriminate. }
  assert (Hids : map g_conversationId (values o)
                 = map Z.of_N (map fst (index_properties o))).
  { unfold values. rewrite Hnames, app_nil_r, !map_map.
    apply map_ext_in. intros [i g] Hin. cbn [fst snd].
    assert (In (IndexKey i, g) (entries o)) as Hin'.
    { unfold entries. apply in_or_app. left.
      change (IndexKey i, g) with ((fun iv : N * group => (IndexKey (fst iv), snd iv)) (i, g)).
      now apply in_map. }
    apply Hkeys in Hin'. unfold ToPropertyKey in Hin'.
    destruct ((0 <=? g_conversationId g) && (g_conversationId g <? 2 ^ 32 - 1)) eqn:E;
      [|discriminate].
    injection Hin' as <-. apply andb_true_iff in E. lia. }
  rewrite Hids.
  apply (@SortFacts.StronglySorted_map _ _ N.lt).
  - intros x y H. lia.
  - apply Sorted_StronglySorted; [exact N.lt_trans|exact Hsorted].
Qed.

Section Responses.
Variable JSON_parse : jsstring -> completion (option (list number)).
Variable ILIKE : jsstring -> jsstring -> bool.

Local Abbreviation searchMessages := (searchMessages JSON_parse ILIKE).
Local Abbreviation performKeywordSearch := (performKeywordSearch ILIKE).
Local Abbreviation messagesWithScores := (messagesWithScores JSON_parse).

Lemma keyword_result (userId : Z) (q : jsstring) (w w' : world)
  (groups : list group) (total : Z) (ty : search_type) (model : option jsstring) :
  performKeywordSearch userId q w = (Returned (SearchResult groups total ty model), w') ->
  ty = keyword /\ model = None /\
  exists rows : list keyword_row,
    groups = values (groupKeyword rows) /\ total = count rows.
Proof.
  destruct (SearchFacts.performKeywordSearch_returns ILIKE userId q w) as (w0 & E).
  rewrite E. intros H. injection H as H _.
  destruct (hd false (outages w) || negb (int4 userId)); [discriminate|].
  injection H as <- <- <- <-. repeat split; eauto.
Qed.

(** A response tagged [semantic] is the grouping of a non-empty ranked
    list. *)
Lemma semantic_response (userId : Z) (query : option jsstring) (w w' : world)
  (groups : list group) (total : Z) (model : option jsstring) :
  searchMessages userId query w = (Returned (SearchResult groups total semantic model), w') ->
  exists q qe w1 rows,
    query = Some q /\ accepted q = true /\
    generateEmbedding q w = (Returned (Some qe), w1) /\
    readEmbedded userId w1 = (Returned rows, w') /\
    rows <> [] /\
    relevantMessages (messagesWithScores qe rows) <> [] /\
    groups = values (groupSemantic (relevantMessages (messagesWithScores qe rows))) /\
    total = count (relevantMessages (messagesWithScores qe rows)) /\
    model = Some EMBEDDING_MODEL.
Proof.
  intros H.
  destruct (SearchFacts.searchMessages_path JSON_parse ILIKE userId query w)
    as (resp & w0 & E & Hpath).
  rewrite E in H. injection H as -> ->.
  inversion Hpath; subst;
    try match goal with
        | H : ChatController.performKeywordSearch _ _ _ _ = _ |- _ =>
            apply keyword_result in H; destruct H as [? _]; discriminate
        end.
  exists q, qe, w1, rows. repeat split; auto.
Qed.

(** A response tagged [keyword] is the grouping of the rows matched. *)
Lemma keyword_response (userId : Z) (query : option jsstring) (w w' : world)
  (groups : list group) (total : Z) (model : option jsstring) :
  searchMessages userId query w = (Returned (SearchResult groups total keyword model), w') ->
  exists rows : list keyword_row,
    groups = values (groupKeyword rows) /\ total = count rows.
Proof.
  intros H.
  destruct (SearchFacts.searchMessages_path JSON_parse ILIKE userId query w)
    as (resp & w0 & E & Hpath).
  rewrite E in H. injection H as -> ->.
  inversion Hpath; subst;
    try match goal with
        | H : ChatController.performKeywordSearch _ _ _ _ = _ |- _ =>
            apply keyword_result in H; destruct H as (_ & _ & H); exact H
        end.
Qed.

End Responses.
End ResponseFacts.

(* ================================================================= *)
(** ** The search claims *)

Section SearchClaims.
Import JS Db World ChatController Terms.

(** C8. A search whose query trims to fewer than 3 characters ends with
    the validation error, in the world it started in: no request to the
    embedding endpoint, no statement sent to the store, no fallback
    search. *)
Theorem short_query_rejected_before_any_call
  (JSON_parse : jsstring -> completion (option (list number)))
  (ILIKE : jsstring -> jsstring -> bool)
  (userId : Z) (query : jsstring) (w : world) :
  strlen (trim query) < 3 ->
  searchMessages JSON_parse ILIKE userId (Some query) w
  = (Returned (ErrorResponse 400 "Search query too short"), w).
Proof.
  intros H. unfold searchMessages, try_catch.
  replace (strlen (trim query) <? 3) with true by (symmetry; now apply Z.ltb_lt).
  rewrite orb_true_r. reflexivity.
Qed.

Lemma short_query_rejected_before_any_call_witness :
  strlen (trim (lit "  ab ")) < 3 /\
  searchMessages Examples.parse Examples.matchAll 7 (Some (lit "  ab ")) Examples.answering
  = (Returned (ErrorResponse 400 "Search query too short"), Examples.answering).
Proof.
  assert (H : strlen (trim (lit "  ab ")) < 3) by (vm_compute; reflexivity).
  split; [exact H|].
  exact (short_query_rejected_before_any_call Examples.parse Examples.matchAll 7
           (lit "  ab ") Examples.answering H).
Defined.

(** C3. The ranked list holds only hits at or above the threshold, in
    descending similarity, at most 50 of them; a response tagged
    [semantic] groups such a list, which is not empty, so that each of
    its hits is at or above the threshold; and when the query embedding
    is produced, the user has stored embeddings and no candidate reaches
    the threshold, the handler answers with the keyword search. *)
Theorem ranking_threshold_order_cap_and_fallback
  (JSON_parse : jsstring -> completion (option (list number)))
  (ILIKE : jsstring -> jsstring -> bool) :
  (forall scored,
      Forall relevant (relevantMessages scored) /\
      descending (relevantMessages scored) /\
      (List.length (relevantMessages scored) <= 50)%nat) /\
  (forall userId query w w' groups total model,
      searchMessages JSON_parse ILIKE userId query w
      = (Returned (SearchResult groups total semantic model), w') ->
      exists qe rows,
        let ranked := relevantMessages (messagesWithScores JSON_parse qe rows) in
        ranked <> [] /\
        groups = values (groupSemantic ranked) /\
        total = count ranked /\
        0 < total <= 50 /\
        (forall g h, In g groups -> In h (g_messages g) ->
                     scoreAtLeast h SIMILARITY_THRESHOLD) /\
        (forall g, In g groups -> descendingHits (g_messages g))) /\
  (forall userId query w qe w1 rows w2,
      accepted query = true ->
      generateEmbedding query w = (Returned (Some qe), w1) ->
      readEmbedded userId w1 = (Returned rows, w2) ->
      relevantMessages (messagesWithScores JSON_parse qe rows) = [] ->
      searchMessages JSON_parse ILIKE userId (Some query) w
      = performKeywordSearch ILIKE userId query w2 /\
      exists resp w', performKeywordSearch ILIKE userId query w2 = (Returned resp, w') /\
                      forall groups total ty model,
                        resp = SearchResult groups total ty model -> ty = keyword).
Proof.
  split; [|split].
  - intros scored. destruct (RankFacts.relevantMessages_ranked scored) as (H1 & H2 & H3 & _).
    auto.
  - intros userId query w w' groups total model H.
    apply ResponseFacts.semantic_response in H
      as (q & qe & w1 & rows & _ & _ & _ & _ & _ & Hne & -> & -> & _).
    exists qe, rows. cbv zeta.
    set (ranked := relevantMessages (messagesWithScores JSON_parse qe rows)) in *.
    destruct (RankFacts.relevantMessages_ranked (messagesWithScores JSON_parse qe rows))
      as (Hrel & Hdesc & Hlen & _). fold ranked in Hrel, Hdesc, Hlen.
    rewrite GroupFacts.groupSemantic_items.
    destruct (GroupFacts.groupItems_grouped (map semanticItem ranked))
      as [_ Hmsgs _ _ Hperm].
    split; [exact Hne|]. split; [reflexivity|]. split; [reflexivity|]. split.
    { unfold count. destruct ranked; [congruence|]. cbn [List.length] in *. lia. }
    split.
    + intros g h Hg Hh.
      assert (In h (map item_hit (map semanticItem ranked))) as Hin.
      { apply (Permutation_in _ Hperm). unfold allMessages. apply in_concat.
        exists (g_messages g). split; [now apply in_map|exact Hh]. }
      rewrite map_map in Hin. apply in_map_iff in Hin as (m & <- & Hm).
      exact (proj1 (Forall_forall _ _) Hrel m Hm).
    + intros g Hg. rewrite (Hmsgs g Hg). unfold hitsOf.
      assert (Hfilter : forall l,
                 filter (fun x => item_conversationId x =? g_conversationId g)
                        (map semanticItem l)
                 = map semanticItem
                     (filter (fun m => sm_conversationId m =? g_conversationId g) l)).
      { induction l as [|m l IH]; [reflexivity|]. cbn [map filter item_conversationId semanticItem].
        destruct (sm_conversationId m =? g_conversationId g); cbn [map]; now rewrite IH. }
      rewrite Hfilter, map_map.
      apply (@SortFacts.StronglySorted_map _ _
               (fun a b => ge (sm_similarity a) (sm_similarity b) = true)).
      * intros x y Hxy. exact Hxy.
      * now apply SortFacts.StronglySorted_filter.
  - intros userId query w qe w1 rows w2 Hacc Hg Hr Hrel.
    destruct (SearchFacts.performKeywordSearch_returns ILIKE userId query w2) as (w' & Ek).
    split.
    + unfold searchMessages, try_catch. unfold accepted in Hacc.
      apply negb_true_iff in Hacc. rewrite Hacc.
      unfold bind at 1. rewrite Hg. unfold bind.
      unfold readEmbedded in Hr. rewrite Hr.
      rewrite Hrel. cbn [count List.length Z.of_nat Z.eqb].
      destruct (count rows =? 0); rewrite Ek; reflexivity.
    + do 2 eexists. split; [exact Ek|].
      intros groups total ty model H.
      destruct (hd false (outages w2) || negb (int4 userId)); [discriminate|].
      now injection H.
Qed.

Lemma ranking_threshold_order_cap_and_fallback_witness :
  (Examples.semanticRun
   = (Returned (SearchResult (Examples.groupsOf Examples.semanticRun) 2 semantic
                  (Some EMBEDDING_MODEL)),
      snd Examples.semanticRun) /\
   forall g h, In g (Examples.groupsOf Examples.semanticRun) -> In h (g_messages g) ->
               scoreAtLeast h SIMILARITY_THRESHOLD) /\
  (accepted Examples.theQuery = true /\
   generateEmbedding Examples.theQuery Examples.unrelated
   = (Returned (Some [(-1); 0]%float),
      snd (generateEmbedding Examples.theQuery Examples.unrelated)) /\
   readEmbedded 7 (snd (generateEmbedding Examples.theQuery Examples.unrelated))
   = (Returned (selectEmbedded 7 Examples.store),
      snd (readEmbedded 7 (snd (generateEmbedding Examples.theQuery Examples.unrelated)))) /\
   relevantMessages
     (messagesWithScores Examples.parse [(-1); 0]%float (selectEmbedded 7 Examples.store))
   = [] /\
   Examples.fallbackRun
   = performKeywordSearch Examples.matchAll 7 Examples.theQuery
       (snd (readEmbedded 7 (snd (generateEmbedding Examples.theQuery Examples.unrelated))))).
Proof.
  destruct (ranking_threshold_order_cap_and_fallback Examples.parse Examples.matchAll)
    as (_ & Hsem & Hfall).
  split.
  - assert (H : searchMessages Examples.parse Examples.matchAll 7
                    (Some Examples.theQuery) Examples.answering
                = (Returned (SearchResult (Examples.groupsOf Examples.semanticRun) 2
                               semantic (Some EMBEDDING_MODEL)),
                   snd Examples.semanticRun)) by (vm_compute; reflexivity).
    split; [exact H|].
    destruct (Hsem _ _ _ _ _ _ _ H) as (qe & rows & _ & _ & _ & _ & Hthr & _).
    exact Hthr.
  - assert (H1 : accepted Examples.theQuery = true) by (vm_compute; reflexivity).
    assert (H2 : generateEmbedding Examples.theQuery Examples.unrelated
                 = (Returned (Some [(-1); 0]%float),
                    snd (generateEmbedding Examples.theQuery Examples.unrelated)))
      by (vm_compute; reflexivity).
    assert (H3 : readEmbedded 7 (snd (generateEmbedding Examples.theQuery Examples.unrelated))
                 = (Returned (selectEmbedded 7 Examples.store),
                    snd (readEmbedded 7
                           (snd (generateEmbedding Examples.theQuery Examples.unrelated)))))
      by (vm_compute; reflexivity).
    assert (H4 : relevantMessages
                   (messagesWithScores Examples.parse [(-1); 0]%float
                      (selectEmbedded 7 Examples.store)) = [])
      by (vm_compute; reflexivity).
    repeat (split; [assumption|]).
    exact (proj1 (Hfall 7 _ _ _ _ _ _ H1 H2 H3 H4)).
Defined.


(** C9. In every search response, semantic or keyword, [totalMessages] is
    the sum of the sizes of the groups; no two groups share a
    conversation; each group holds exactly the hits of its conversation,
    in their order; so that every hit stands in one group only, the one
    of its conversation. *)
Theorem search_response_groups_partition_the_hits
  (JSON_parse : jsstring -> completion (option (list number)))
  (ILIKE : jsstring -> jsstring -> bool)
  (userId : Z) (query : option jsstring) (w w' : world)
  (groups : list group) (total : Z) (ty : search_type) (model : option jsstring) :
  searchMessages JSON_parse ILIKE userId query w
  = (Returned (SearchResult groups total ty model), w') ->
  exists hits : list hit,
    match ty with
    | semantic =>
        exists qe rows,
          hits = map semanticHit
                   (relevantMessages (messagesWithScores JSON_parse qe rows))
    | keyword => exists rows : list keyword_row, hits = map keywordHit rows
    end /\
    total = count hits /\
    total = sumOfSizes groups /\
    NoDup (map g_conversationId groups) /\
    (forall g, In g groups ->
       g_messages g = filter (fun h => conversationId h =? g_conversationId g) hits) /\
    (forall h, In h hits ->
       exists g, In g groups /\ g_conversationId g = conversationId h) /\
    Permutation (allMessages groups) hits.
Proof.
  intros H. destruct ty.
  - apply ResponseFacts.semantic_response in H
      as (q & qe & w1 & rows & _ & _ & _ & _ & _ & _ & -> & -> & _).
    set (ranked := relevantMessages (messagesWithScores JSON_parse qe rows)).
    exists (map semanticHit ranked).
    rewrite GroupFacts.groupSemantic_items.
    destruct (ResponseFacts.groups_partition (ResponseFacts.semanticItems_coherent ranked))
      as (H1 & H2 & H3 & H4 & H5).
    rewrite map_map in H1, H3, H4, H5.
    change (map (fun x => item_hit (semanticItem x)) ranked)
      with (map semanticHit ranked) in *.
    split; [do 2 eexists; reflexivity|]. split; [unfold count; now rewrite length_map|].
    split; [rewrite <- H1; unfold count; now rewrite length_map|].
    auto.
  - apply ResponseFacts.keyword_response in H as (rows & -> & ->).
    exists (map keywordHit rows).
    rewrite GroupFacts.groupKeyword_items.
    destruct (ResponseFacts.groups_partition (ResponseFacts.keywordItems_coherent rows))
      as (H1 & H2 & H3 & H4 & H5).
    rewrite map_map in H1, H3, H4, H5.
    change (map (fun x => item_hit (keywordItem x)) rows)
      with (map keywordHit rows) in *.
    split; [eexists; reflexivity|]. split; [unfold count; now rewrite length_map|].
    split; [rewrite <- H1; unfold count; now rewrite length_map|].
    auto.
Qed.

Lemma search_response_groups_partition_the_hits_witness :
  Examples.semanticRun
  = (Returned (SearchResult (Examples.groupsOf Examples.semanticRun) 2 semantic
                 (Some EMBEDDING_MODEL)),
     snd Examples.semanticRun) /\
  2 = sumOfSizes (Examples.groupsOf Examples.semanticRun) /\
  NoDup (map g_conversationId (Examples.groupsOf Examples.semanticRun)).
Proof.
  assert (H : searchMessages Examples.parse Examples.matchAll 7
                  (Some Examples.theQuery) Examples.answering
              = (Returned (SearchResult (Examples.groupsOf Examples.semanticRun) 2
                             semantic (Some EMBEDDING_MODEL)),
                 snd Examples.semanticRun)) by (vm_compute; reflexivity).
  split; [exact H|].
  destruct (search_response_groups_partition_the_hits _ _ _ _ _ H)
    as (hits & _ & _ & Hsum & Hnodup & _).
  split; assumption.
Defined.

(** C1, as the code has it.  In a semantic response whose conversations
    have integer keys (identifiers in [0, 2^32 - 2], as those of a serial
    column are), the groups stand in ascending order of [conversationId],
    one group for each conversation with a ranked hit; inside a group the
    hits keep the order of the ranked list. *)
Theorem semantic_groups_ascend_by_conversation
  (JSON_parse : jsstring -> completion (option (list number)))
  (ILIKE : jsstring -> jsstring -> bool)
  (userId : Z) (query : option jsstring) (w w' : world)
  (groups : list group) (total : Z) (model : option jsstring) :
  searchMessages JSON_parse ILIKE userId query w
  = (Returned (SearchResult groups total semantic model), w') ->
  Forall (fun g => 0 <= g_conversationId g < 2 ^ 32 - 1) groups ->
  exists qe rows,
    let ranked := relevantMessages (messagesWithScores JSON_parse qe rows) in
    ranked <> [] /\
    StronglySorted Z.lt (map g_conversationId groups) /\
    (forall c, In c (map g_conversationId groups) <-> In c (map sm_conversationId ranked)) /\
    (forall g, In g groups ->
       g_messages g =
       map semanticHit (filter (fun m => sm_conversationId m =? g_conversationId g) ranked)).
Proof.
  intros H Hrange.
  apply ResponseFacts.semantic_response in H
    as (q & qe & w1 & rows & _ & _ & _ & _ & _ & Hne & -> & -> & _).
  exists qe, rows. cbv zeta.
  set (ranked := relevantMessages (messagesWithScores JSON_parse qe rows)) in *.
  rewrite GroupFacts.groupSemantic_items in *.
  destruct (GroupFacts.groupItems_grouped (map semanticItem ranked))
    as [Hkeys Hmsgs Hinh Hcov _].
  split; [exact Hne|]. split; [now apply ResponseFacts.integer_keys_ascending|]. split.
  - intros c. split; intros Hc.
    + apply in_map_iff in Hc as (g & <- & Hg).
      destruct (Hinh g Hg) as (x & Hx & Hid).
      apply in_map_iff in Hx as (m & <- & Hm). rewrite <- Hid.
      cbn [item_conversationId semanticItem]. now apply in_map.
    + apply in_map_iff in Hc as (m & <- & Hm).
      destruct (Hcov (semanticItem m)) as (g & Hg & Hid); [now apply in_map|].
      cbn [item_conversationId semanticItem] in Hid. rewrite <- Hid. now apply in_map.
  - intros g Hg. rewrite (Hmsgs g Hg). unfold hitsOf.
    clear. induction ranked as [|m l IH]; [reflexivity|].
    cbn [map filter item_conversationId semanticItem].
    destruct (sm_conversationId m =? g_conversationId g); cbn [map]; now rewrite IH.
Qed.

Lemma semantic_groups_ascend_by_conversation_witness :
  Examples.semanticRun
  = (Returned (SearchResult (Examples.groupsOf Examples.semanticRun) 2 semantic
                 (Some EMBEDDING_MODEL)),
     snd Examples.semanticRun) /\
  Forall (fun g => 0 <= g_conversationId g < 2 ^ 32 - 1)
         (Examples.groupsOf Examples.semanticRun) /\
  StronglySorted Z.lt (map g_conversationId (Examples.groupsOf Examples.semanticRun)).
Proof.
  assert (H : searchMessages Examples.parse Examples.matchAll 7
                  (Some Examples.theQuery) Examples.answering
              = (Returned (SearchResult (Examples.groupsOf Examples.semanticRun) 2
                             semantic (Some EMBEDDING_MODEL)),
                 snd Examples.semanticRun)) by (vm_compute; reflexivity).
  assert (R : Forall (fun g => 0 <= g_conversationId g < 2 ^ 32 - 1)
                     (Examples.groupsOf Examples.semanticRun)).
  { assert (B : forallb (fun g => (0 <=? g_conversationId g)
                                  && (g_conversationId g <? 2 ^ 32 - 1))
                        (Examples.groupsOf Examples.semanticRun) = true)
      by (vm_compute; reflexivity).
    apply Forall_forall. intros g Hg.
    apply (proj1 (forallb_forall _ _) B) in Hg.
    apply andb_true_iff in Hg. lia. }
  split; [exact H|]. split; [exact R|].
  destruct (semantic_groups_ascend_by_conversation _ _ _ _ _ H R)
    as (qe & rows & _ & Hsorted & _).
  exact Hsorted.
Defined.

(** C1 as stated fails.  For the query of the example the ranked list is
    message 11 (conversation 2, similarity 1), then message 10
    (conversation 1, similarity 0.7071067811865475), and the response
    lists conversation 1 before conversation 2. *)
Lemma semantic_groups_not_in_rank_order :
  map sm_conversationId Examples.rankedInExample = [2; 1] /\
  fst Examples.semanticRun
  = Returned (SearchResult (Examples.groupsOf Examples.semanticRun) 2 semantic
                (Some EMBEDDING_MODEL)) /\
  Examples.groupsOf Examples.semanticRun
  = values (groupSemantic Examples.rankedInExample) /\
  map g_conversationId (Examples.groupsOf Examples.semanticRun) = [1; 2] /\
  map g_conversationId (Examples.groupsOf Examples.semanticRun)
  <> firstSeen (map sm_conversationId Examples.rankedInExample).
Proof.
  assert (E1 : map sm_conversationId Examples.rankedInExample = [2; 1])
    by (vm_compute; reflexivity).
  assert (E2 : map g_conversationId (Examples.groupsOf Examples.semanticRun) = [1; 2])
    by (vm_compute; reflexivity).
  split; [exact E1|]. split; [vm_compute; reflexivity|].
  split; [vm_compute; reflexivity|]. split; [exact E2|].
  rewrite E1, E2. cbn. discriminate.
Qed.

End SearchClaims.

(* ================================================================= *)
(** ** The backfill job *)

Module BackfillFacts.
Import JS Db World ChatController Terms.

Section Job.
Variable JSON_stringify : list number -> jsstring.

Local Abbreviation generateAndStoreEmbedding := (generateAndStoreEmbedding JSON_stringify).
Local Abbreviation processRows := (processRows JSON_stringify).
Local Abbreviation generateMissingEmbeddings := (generateMissingEmbeddings JSON_stringify).

(** [generateAndStoreEmbedding] catches whatever its body throws, and
    [generateEmbedding] and [storeEmbedding] before it: it never throws. *)
Lemma generateAndStoreEmbedding_returns (messageId : Z) (content : jsstring) (w : world) :
  exists w', generateAndStoreEmbedding messageId content w = (Returned tt, w').
Proof.
  unfold ChatController.generateAndStoreEmbedding, try_catch.
  match goal with |- context [match ?body w with _ => _ end] =>
    destruct (body w) as [[[]|e] w']
  end; unfold ret; eauto.
Qed.

(** Each round of the loop adds one to exactly one of the two counters. *)
Lemma processRows_counts (rows : list unembedded_row) :
  forall (successCount failCount : Z) (errors : list error_entry) (w : world),
  exists successCount' failCount' errors' w',
    processRows rows successCount failCount errors w
    = (Returned (successCount', failCount', errors'), w') /\
    successCount' + failCount' = successCount + failCount + count rows.
Proof.
  induction rows as [|row rows IH]; intros s f errs w.
  - exists s, f, errs, w. split; [reflexivity|]. unfold count. cbn. lia.
  - cbn [ChatController.processRows]. unfold bind at 1. unfold try_catch, bind at 1.
    destruct (generateAndStoreEmbedding (ur_id row) (ur_content row) w) as [[[]|e] w1];
      unfold ret.
    + destruct (IH (s + 1) f errs w1) as (s' & f' & errs' & w' & E & Hsum).
      exists s', f', errs', w'. split; [exact E|].
      unfold count in *. cbn [List.length]. lia.
    + destruct (IH s (f + 1)
                  (errs ++ [ {| err_messageId := ur_id row; err_error := e |} ]) w1)
        as (s' & f' & errs' & w' & E & Hsum).
      exists s', f', errs', w'. split; [exact E|].
      unfold count in *. cbn [List.length]. lia.
Qed.

(** As the helper never throws, the rounds all take the success branch. *)
Lemma processRows_all_succeed (rows : list unembedded_row) :
  forall (successCount failCount : Z) (errors : list error_entry) (w : world),
  exists w',
    processRows rows successCount failCount errors w
    = (Returned (successCount + count rows, failCount, errors), w').
Proof.
  induction rows as [|row rows IH]; intros s f errs w.
  - exists w. unfold count. cbn. now rewrite Z.add_0_r.
  - cbn [ChatController.processRows]. unfold bind at 1. unfold try_catch, bind at 1.
    destruct (generateAndStoreEmbedding_returns (ur_id row) (ur_content row) w) as (w1 & ->).
    unfold ret. destruct (IH (s + 1) f errs w1) as (w' & ->).
    exists w'. replace (s + 1 + count rows) with (s + count (row :: rows))
      by (unfold count; cbn [List.length]; lia).
    reflexivity.
Qed.

Lemma limitRows_count (A : Type) (n : Z) (l rows : list A) :
  limitRows n l = Returned rows -> 0 <= count rows <= n.
Proof.
  unfold limitRows, count.
  destruct ((n <? 0) || (2 ^ 63 - 1 <? n)) eqn:E; [discriminate|].
  intros H. injection H as <-. apply orb_false_iff in E as [E _].
  pose proof (firstn_le_length (Z.to_nat n) l). lia.
Qed.

(** The results of the job. *)
Lemma generateMissingEmbeddings_result (userId : Z) (limit : option Z) (w w' : world)
  (r : backfill_result) :
  generateMissingEmbeddings userId limit w = (Returned (BackfillResult r), w') ->
  exists rows : list unembedded_row,
    selectUnembedded userId (limitOf limit) (db w) = Returned rows /\
    totalProcessed r = count rows /\
    successCount r + failCount r = count rows /\
    match errors r with
    | Some es => (List.length es <= 5)%nat
    | None => rows = []
    end.
Proof.
  unfold ChatController.generateMissingEmbeddings, try_catch.
  unfold bind at 1. unfold pool_query.
  destruct (hd false (outages w)); [unfold ret; discriminate|].
  destruct (selectUnembedded userId (limitOf limit) (db w)) as [rows|e] eqn:Esel;
    [|unfold ret; discriminate].
  set (w1 := {| db := db w; clock := clock w + 1; ollama := ollama w;
                outages := tl (outages w);
                calls := calls w ++ [StoreQuery (SelectUnembedded userId (limitOf limit))] |}).
  destruct (count rows =? 0) eqn:Ec.
  - unfold ret. intros H. injection H as <- _. exists rows.
    apply SearchFacts.count_zero in Ec. subst rows. cbn. auto.
  - unfold bind.
    destruct (processRows_counts rows 0 0 [] w1) as (s & f & errs & w2 & -> & Hsum).
    unfold ret. intros H. injection H as <- _. exists rows.
    cbn [totalProcessed successCount failCount errors].
    split; [reflexivity|]. split; [reflexivity|]. split; [lia|].
    exact (firstn_le_length 5 errs).
Qed.

(** What the job answers, whatever the endpoint and the store do: no
    item is ever counted as failed. *)
Lemma generateMissingEmbeddings_counts_no_failure (userId : Z) (limit : option Z)
  (w w' : world) (r : backfill_result) :
  generateMissingEmbeddings userId limit w = (Returned (BackfillResult r), w') ->
  failCount r = 0 /\ successCount r = totalProcessed r /\
  (errors r = None \/ errors r = Some []).
Proof.
  unfold ChatController.generateMissingEmbeddings, try_catch.
  unfold bind at 1. unfold pool_query.
  destruct (hd false (outages w)); [unfold ret; discriminate|].
  destruct (selectUnembedded userId (limitOf limit) (db w)) as [rows|e] eqn:Esel;
    [|unfold ret; discriminate].
  set (w1 := {| db := db w; clock := clock w + 1; ollama := ollama w;
                outages := tl (outages w);
                calls := calls w ++ [StoreQuery (SelectUnembedded userId (limitOf limit))] |}).
  destruct (count rows =? 0) eqn:Ec.
  - unfold ret. intros H. injection H as <- _. cbn. auto.
  - unfold bind.
    destruct (processRows_all_succeed rows 0 0 [] w1) as (w2 & ->).
    unfold ret. intros H. injection H as <- _. cbn. auto.
Qed.

End Job.
End BackfillFacts.

Section BackfillClaims.
Import JS Db World ChatController Terms.

(** C4. A run of the backfill job that answers with a result has
    processed at most [L] messages when the [limit] parameter reads as a
    non-zero integer [L], and at most 100 when the parameter is missing,
    is not a number or is 0: the job runs with
    [parseInt(req.query.limit) || 100].  The [errors] of the response
    are at most 5, and [successCount + failCount] is [totalProcessed]. *)
Theorem backfill_bounded_by_limit_and_counts_add_up
  (JSON_stringify : list number -> jsstring)
  (userId : Z) (limit : option Z) (w w' : world) (r : backfill_result) :
  generateMissingEmbeddings JSON_stringify userId limit w
  = (Returned (BackfillResult r), w') ->
  0 <= totalProcessed r <= limitOf limit /\
  match errors r with
  | Some es => (List.length es <= 5)%nat
  | None => True
  end /\
  successCount r + failCount r = totalProcessed r /\
  (forall L, limit = Some L -> L <> 0 -> limitOf limit = L) /\
  match limit with
  | Some L => if L =? 0 then totalProcessed r <= 100 else totalProcessed r <= L
  | None => totalProcessed r <= 100
  end.
Proof.
  intros H.
  apply BackfillFacts.generateMissingEmbeddings_result in H
    as (rows & Hsel & Htotal & Hsum & Herr).
  unfold selectUnembedded, asInteger in Hsel.
  destruct (int4 userId); [|discriminate].
  apply BackfillFacts.limitRows_count in Hsel.
  split; [|split; [|split; [|split]]].
  - rewrite Htotal. exact Hsel.
  - destruct (errors r); [exact Herr|exact I].
  - congruence.
  - intros L -> HL. unfold limitOf. apply Z.eqb_neq in HL. now rewrite HL.
  - rewrite Htotal. unfold limitOf in Hsel.
    destruct limit as [L|]; [destruct (L =? 0)|]; apply Hsel.
Qed.

(** With [?limit=0] the job runs with 100, and processes a message. *)
Lemma backfill_with_limit_zero_processes_a_message :
  ~ (forall (userId L : Z) (w w' : world) (r : backfill_result),
       generateMissingEmbeddings Examples.stringify userId (Some L) w
       = (Returned (BackfillResult r), w') ->
       totalProcessed r <= L).
Proof.
  intros H.
  assert (E : generateMissingEmbeddings Examples.stringify 7 (Some 0) Examples.answering
              = (Returned Examples.oneProcessedOneSucceeded,
                 snd (generateMissingEmbeddings Examples.stringify 7 (Some 0)
                        Examples.answering)))
    by (vm_compute; reflexivity).
  apply H in E. cbn in E. lia.
Qed.

End BackfillClaims.

Section BackfillClaimsMore.
Import JS Db World ChatController Terms.

Lemma backfill_bounded_by_limit_and_counts_add_up_witness :
  generateMissingEmbeddings Examples.stringify 7 (Some 25) Examples.offline
  = (Returned Examples.oneProcessedOneSucceeded,
     snd (generateMissingEmbeddings Examples.stringify 7 (Some 25) Examples.offline)) /\
  0 <= 1 <= 25 /\ 1 + 0 = 1.
Proof.
  assert (H : generateMissingEmbeddings Examples.stringify 7 (Some 25) Examples.offline
              = (Returned Examples.oneProcessedOneSucceeded,
                 snd (generateMissingEmbeddings Examples.stringify 7 (Some 25)
                        Examples.offline)))
    by (vm_compute; reflexivity).
  split; [exact H|].
  destruct (@backfill_bounded_by_limit_and_counts_add_up _ _ _ _ _ _ H) as (H1 & _ & H2 & _).
  split; [exact H1|exact H2].
Defined.

(** C2 fails on the code.  The job fetches message 12.  With the
    endpoint out of reach, and again with the store out of reach for the
    upsert, [generateAndStoreEmbedding] returns normally, no embedding is
    stored, and the job answers [successCount = 1], [failCount = 0],
    [errors = []]. *)
Theorem backfill_counts_failed_item_as_success :
  fst (generateMissingEmbeddings Examples.stringify 7 None Examples.offline)
  = Returned Examples.oneProcessedOneSucceeded /\
  rowsOf 12 (db (snd (generateMissingEmbeddings Examples.stringify 7 None Examples.offline)))
  = [] /\
  fst (generateMissingEmbeddings Examples.stringify 7 None Examples.storeFailing)
  = Returned Examples.oneProcessedOneSucceeded /\
  rowsOf 12 (db (snd (generateMissingEmbeddings Examples.stringify 7 None
                        Examples.storeFailing)))
  = [].
Proof. repeat split; vm_compute; reflexivity. Qed.

End BackfillClaimsMore.

(* ================================================================= *)
(** ** The embedding store *)

Module StoreFacts.
Import JS Db World ChatController Terms.

Lemma rowsOf_unique (db : database) (messageId : Z) :
  unique_message_id db ->
  rowsOf messageId db = [] \/ exists row, rowsOf messageId db = [row].
Proof.
  unfold unique_message_id, rowsOf.
  induction (embeddings db) as [|e l IH]; intros Hu; [now left|].
  cbn [map] in Hu. inversion Hu as [|? ? Hnotin Hu']; subst.
  cbn [filter]. destruct (Z.eqb_spec (e_message_id e) messageId) as [E|E].
  - right. exists e. f_equal.
    apply GroupFacts.filter_none. intros y Hy. apply Z.eqb_neq. intros Ey.
    apply Hnotin. rewrite E, <- Ey. now apply in_map.
  - now apply IH.
Qed.

Lemma existsb_rowsOf (db : database) (messageId : Z) :
  existsb (fun e => e_message_id e =? messageId) (embeddings db) = true <->
  rowsOf messageId db <> [].
Proof.
  unfold rowsOf. induction (embeddings db) as [|e l IH]; cbn [existsb filter].
  - split; [discriminate|congruence].
  - destruct (e_message_id e =? messageId); cbn [orb]; [|exact IH].
    split; [discriminate|reflexivity].
Qed.

(** A successful upsert either rewrites the rows of the message in place
    or, when there is none, appends one. *)
Lemma upsertEmbedding_done (messageId : Z) (vector model : jsstring)
  (db db' : database) (now : Z) :
  upsertEmbedding messageId vector model db now = (Returned tt, db') ->
  (rowsOf messageId db <> [] /\
   embeddings db' =
   map (fun e => if e_message_id e =? messageId then rewritten vector model now e else e)
       (embeddings db)) \/
  (rowsOf messageId db = [] /\
   exists row,
     embeddings db' = embeddings db ++ [row] /\
     e_message_id row = messageId /\ e_embedding_vector row = vector /\
     e_model_name row = model /\ e_created_at row = now /\ e_updated_at row = now).
Proof.
  unfold upsertEmbedding.
  destruct (existsb (fun e => e_message_id e =? messageId) (embeddings db)) eqn:Ex.
  - intros H. injection H as <-. left. split; [now apply existsb_rowsOf|reflexivity].
  - destruct (existsb (fun m => m_id m =? messageId) (messages db)); [|discriminate].
    intros H. injection H as <-. right. split.
    + destruct (rowsOf messageId db) eqn:E; [reflexivity|].
      assert (rowsOf messageId db <> []) as Hne by (rewrite E; discriminate).
      apply existsb_rowsOf in Hne. congruence.
    + eexists. split; [reflexivity|]. cbn. auto.
Qed.

Lemma rowsOf_rewritten (messageId : Z) (vector model : jsstring) (now : Z)
  (l : list embedding_row) :
  filter (fun e => e_message_id e =? messageId)
    (map (fun e => if e_message_id e =? messageId then rewritten vector model now e else e) l)
  = map (rewritten vector model now) (filter (fun e => e_message_id e =? messageId) l).
Proof.
  induction l as [|e l IH]; [reflexivity|]. cbn [map filter].
  destruct (e_message_id e =? messageId) eqn:E; cbn [rewritten e_message_id]; rewrite E.
  - cbn [map]. now rewrite IH.
  - exact IH.
Qed.

Lemma message_ids_rewritten (messageId : Z) (vector model : jsstring) (now : Z)
  (l : list embedding_row) :
  map e_message_id
    (map (fun e => if e_message_id e =? messageId then rewritten vector model now e else e) l)
  = map e_message_id l.
Proof.
  rewrite map_map. apply map_ext. intros e.
  destruct (e_message_id e =? messageId); reflexivity.
Qed.

(** After a successful upsert the message has one row, with the vector
    and the model written, which is the former row of the message when
    there was one; and the constraint still holds. *)
Lemma upsertEmbedding_one_row (messageId : Z) (vector model : jsstring)
  (db db' : database) (now : Z) :
  unique_message_id db ->
  upsertEmbedding messageId vector model db now = (Returned tt, db') ->
  unique_message_id db' /\
  exists row,
    rowsOf messageId db' = [row] /\
    e_embedding_vector row = vector /\ e_model_name row = model /\
    e_updated_at row = now /\
    forall former, rowsOf messageId db = [former] ->
                   e_id row = e_id former /\ e_created_at row = e_created_at former.
Proof.
  intros Hu H. apply upsertEmbedding_done in H as [[Hne E]|[Hnone (row & E & Hm & Hv & Hmod & Hc & Hup)]].
  - split.
    + unfold unique_message_id. rewrite E, message_ids_rewritten. exact Hu.
    + destruct (@rowsOf_unique db messageId Hu) as [Hnil|[former Hf]]; [contradiction|].
      exists (rewritten vector model now former). unfold rowsOf in *.
      rewrite E, rowsOf_rewritten, Hf. cbn [map].
      split; [reflexivity|]. split; [reflexivity|]. split; [reflexivity|].
      split; [reflexivity|].
      intros former' Hf'. injection Hf' as <-. split; reflexivity.
  - split.
    + unfold unique_message_id. rewrite E, map_app. cbn [map].
      apply (NoDup_Add (Add_app (e_message_id row) (map e_message_id (embeddings db)) [])).
      rewrite app_nil_r. split; [exact Hu|].
      intros Hin. apply in_map_iff in Hin as (e & He & Hin).
      assert (In e (rowsOf messageId db)) as Hr.
      { unfold rowsOf. apply filter_In. split; [exact Hin|]. apply Z.eqb_eq. congruence. }
      rewrite Hnone in Hr. destruct Hr.
    + exists row. unfold rowsOf in *. rewrite E, filter_app, Hnone. cbn [filter app].
      replace (e_message_id row =? messageId) with true by (symmetry; now apply Z.eqb_eq).
      split; [reflexivity|]. split; [exact Hv|]. split; [exact Hmod|].
      split; [exact Hup|]. intros former Hf. discriminate.
Qed.

Lemma upsertEmbedding_frame (messageId : Z) (vector model : jsstring)
  (db db' : database) (now : Z) :
  upsertEmbedding messageId vector model db now = (Returned tt, db') ->
  conversations db' = conversations db /\ messages db' = messages db.
Proof.
  unfold upsertEmbedding.
  destruct (existsb (fun e => e_message_id e =? messageId) (embeddings db)).
  - intros H. injection H as <-. split; reflexivity.
  - destruct (existsb (fun m => m_id m =? messageId) (messages db)); [|discriminate].
    intros H. injection H as <-. split; reflexivity.
Qed.

Section Store.
Variable JSON_stringify : list number -> jsstring.

Local Abbreviation storeEmbedding := (storeEmbedding JSON_stringify).

(** [storeEmbedding] returns [true] exactly when its statement went
    through. *)
Lemma storeEmbedding_true (messageId : Z) (embedding : list number) (w w' : world) :
  storeEmbedding messageId embedding w = (Returned true, w') ->
  upsertEmbedding messageId (JSON_stringify embedding) EMBEDDING_MODEL (db w) (clock w)
  = (Returned tt, db w') /\
  clock w' = clock w + 1.
Proof.
  unfold ChatController.storeEmbedding, try_catch, bind, pool_query, ret.
  destruct (hd false (outages w)); [discriminate|].
  destruct (upsertEmbedding messageId (JSON_stringify embedding) EMBEDDING_MODEL
              (db w) (clock w)) as [[[]|e] db'].
  - intros H. injection H as <-. split; reflexivity.
  - discriminate.
Qed.

End Store.
End StoreFacts.

Section StoreClaims.
Import JS Db World ChatController Terms.

(** C5. After two successive upserts that went through for one message,
    the message has exactly one embedding row; its vector and model name
    are those of the second call; it is the row the first call left, with
    its identifier and creation time, so that a second call with the same
    arguments leaves the same row. *)
Theorem upsert_twice_leaves_one_row_with_the_last_vector
  (JSON_stringify : list number -> jsstring)
  (messageId : Z) (first second : list number) (w w1 w2 : world) :
  unique_message_id (db w) ->
  storeEmbedding JSON_stringify messageId first w = (Returned true, w1) ->
  storeEmbedding JSON_stringify messageId second w1 = (Returned true, w2) ->
  unique_message_id (db w2) /\
  exists row1 row2,
    rowsOf messageId (db w1) = [row1] /\
    rowsOf messageId (db w2) = [row2] /\
    e_embedding_vector row2 = JSON_stringify second /\
    e_model_name row2 = EMBEDDING_MODEL /\
    e_updated_at row2 = clock w1 /\
    e_id row2 = e_id row1 /\
    e_message_id row2 = e_message_id row1 /\
    e_created_at row2 = e_created_at row1 /\
    (first = second ->
     e_embedding_vector row2 = e_embedding_vector row1 /\
     e_model_name row2 = e_model_name row1).
Proof.
  intros Hu H1 H2.
  apply StoreFacts.storeEmbedding_true in H1 as [H1 _].
  apply StoreFacts.storeEmbedding_true in H2 as [H2 _].
  destruct (@StoreFacts.upsertEmbedding_one_row _ _ _ _ _ _ Hu H1)
    as (Hu1 & row1 & Hr1 & Hv1 & Hm1 & _ & _).
  destruct (@StoreFacts.upsertEmbedding_one_row _ _ _ _ _ _ Hu1 H2)
    as (Hu2 & row2 & Hr2 & Hv2 & Hm2 & Hup2 & Hsame).
  destruct (Hsame row1 Hr1) as [Hid Hcreated].
  split; [exact Hu2|]. exists row1, row2.
  assert (Hmid : forall db row, rowsOf messageId db = [row] -> e_message_id row = messageId).
  { intros db row Hr. assert (In row (rowsOf messageId db)) as Hin by (rewrite Hr; now left).
    unfold rowsOf in Hin. apply filter_In in Hin as [_ Hin]. now apply Z.eqb_eq. }
  split; [exact Hr1|]. split; [exact Hr2|]. split; [exact Hv2|]. split; [exact Hm2|].
  split; [exact Hup2|]. split; [exact Hid|].
  split; [rewrite (Hmid _ _ Hr1), (Hmid _ _ Hr2); reflexivity|].
  split; [exact Hcreated|].
  intros <-. split; congruence.
Qed.


Lemma upsert_twice_leaves_one_row_with_the_last_vector_witness :
  unique_message_id (db Examples.answering) /\
  Examples.firstStore = (Returned true, snd Examples.firstStore) /\
  Examples.secondStore = (Returned true, snd Examples.secondStore) /\
  exists row1 row2,
    rowsOf 12 (db (snd Examples.firstStore)) = [row1] /\
    rowsOf 12 (db (snd Examples.secondStore)) = [row2] /\
    e_embedding_vector row2 = lit "[0,1]" /\
    e_id row2 = e_id row1.
Proof.
  assert (Hu : unique_message_id (db Examples.answering)).
  { unfold unique_message_id. cbn.
    constructor; [intros [H|[]]; discriminate|].
    constructor; [intros []|constructor]. }
  assert (H1 : storeEmbedding Examples.stringify 12 [1; 0]%float Examples.answering
               = (Returned true, snd Examples.firstStore)) by (vm_compute; reflexivity).
  assert (H2 : storeEmbedding Examples.stringify 12 [0; 1]%float (snd Examples.firstStore)
               = (Returned true, snd Examples.secondStore)) by (vm_compute; reflexivity).
  split; [exact Hu|]. split; [exact H1|]. split; [exact H2|].
  destruct (@upsert_twice_leaves_one_row_with_the_last_vector _ _ _ _ _ _ _ Hu H1 H2)
    as (_ & row1 & row2 & Hr1 & Hr2 & Hv & _ & _ & Hid & _).
  exists row1, row2. repeat (split; [assumption|]). exact Hid.
Defined.

(** C10. When an upsert for a message that has an embedding row goes
    through, the table keeps its rows in place; the rows of other
    messages are unchanged; the row of the message keeps its [id], its
    [message_id] and its [created_at], and gets the vector, the model
    name and the update time of the call.  The other tables are
    unchanged. *)
Theorem upsert_overwrite_changes_three_columns_of_one_row
  (JSON_stringify : list number -> jsstring)
  (messageId : Z) (embedding : list number) (w w' : world) :
  rowsOf messageId (db w) <> [] ->
  storeEmbedding JSON_stringify messageId embedding w = (Returned true, w') ->
  Forall2 (overwritten messageId (JSON_stringify embedding) EMBEDDING_MODEL (clock w))
          (embeddings (db w)) (embeddings (db w')) /\
  conversations (db w') = conversations (db w) /\
  messages (db w') = messages (db w).
Proof.
  intros Hrow H. apply StoreFacts.storeEmbedding_true in H as [H _].
  pose proof (StoreFacts.upsertEmbedding_frame _ _ _ _ _ H) as [Hc Hm].
  apply StoreFacts.upsertEmbedding_done in H as [[_ E]|[Hnone _]]; [|contradiction].
  split; [|split; assumption].
  rewrite E. clear. induction (embeddings (db w)) as [|e l IH]; cbn [map]; constructor.
  - unfold overwritten. destruct (e_message_id e =? messageId); [|reflexivity].
    cbn [rewritten e_id e_message_id e_created_at e_embedding_vector
           e_model_name e_updated_at].
    repeat split.
  - exact IH.
Qed.

Lemma upsert_overwrite_changes_three_columns_of_one_row_witness :
  rowsOf 10 (db Examples.answering) <> [] /\
  Examples.overwrite = (Returned true, snd Examples.overwrite) /\
  Forall2 (overwritten 10 (lit "[0,1]") EMBEDDING_MODEL 1000)
          (embeddings Examples.store) (embeddings (db (snd Examples.overwrite))).
Proof.
  assert (Hrow : rowsOf 10 (db Examples.answering) <> []) by (vm_compute; discriminate).
  assert (H : storeEmbedding Examples.stringify 10 [0; 1]%float Examples.answering
              = (Returned true, snd Examples.overwrite)) by (vm_compute; reflexivity).
  split; [exact Hrow|]. split; [exact H|].
  exact (proj1 (@upsert_overwrite_changes_three_columns_of_one_row _ _ _ _ _ Hrow H)).
Defined.

End StoreClaims.

(* ================================================================= *)
(** ** Lists *)

Module ListFacts.

Lemma filter_filter (A : Type) (f g : A -> bool) (l : list A) :
  filter f (filter g l) = filter (fun x => g x && f x) l.
Proof.
  induction l as [|x l IH]; [reflexivity|]. cbn [filter].
  destruct (g x); cbn [filter andb]; [destruct (f x)|]; now rewrite IH.
Qed.

(** A filter of a prefix is a prefix of the filter. *)
Lemma filter_firstn (A : Type) (f : A -> bool) (k : nat) (l : list A) :
  exists n, filter f (firstn k l) = firstn n (filter f l).
Proof.
  revert k. induction l as [|x l IH]; intros k.
  - exists 0%nat. now rewrite firstn_nil.
  - destruct k as [|k]; [now exists 0%nat|]. cbn [firstn filter].
    destruct (IH k) as (n & E). destruct (f x).
    + exists (S n). cbn [firstn]. now rewrite E.
    + exists n. exact E.
Qed.

End ListFacts.

(* ================================================================= *)
(** ** The embedding helpers, call by call *)

Module HelperFacts.
Import JS Db World ChatController Terms Steps.

Lemma pool_query_step (A : Type) (q : statement)
  (run : database -> Z -> completion A * database) (w : world) :
  pool_query q run w =
  if hd false (outages w)
  then (Thrown "the store cannot be reached", afterQuery q (db w) w)
  else (fst (run (db w) (clock w)), afterQuery q (snd (run (db w) (clock w))) w).
Proof.
  unfold pool_query. destruct (hd false (outages w)); [reflexivity|].
  destruct (run (db w) (clock w)); reflexivity.
Qed.

Lemma generateEmbedding_step (text : jsstring) (w : world) :
  generateEmbedding text w =
  if accepted text
  then (Returned (vectorOf (hd Unreachable (ollama w))), afterRequest text w)
  else (Returned None, w).
Proof.
  unfold generateEmbedding, try_catch, accepted.
  destruct (falsy text || (strlen (trim text) <? 3)); [reflexivity|].
  cbn [negb]. unfold bind, fetchEmbeddings, throw, ret. fold (afterRequest text w).
  destruct (hd Unreachable (ollama w)) as [|code| |[e|]]; reflexivity.
Qed.

Section Helpers.
Variable JSON_stringify : list number -> jsstring.

Local Abbreviation storeEmbedding := (storeEmbedding JSON_stringify).
Local Abbreviation generateAndStoreEmbedding := (generateAndStoreEmbedding JSON_stringify).

Lemma storeEmbedding_step (messageId : Z) (embedding : list number) (w : world) :
  storeEmbedding messageId embedding w =
  if hd false (outages w)
  then (Returned false, afterQuery (UpsertEmbedding messageId) (db w) w)
  else
    let r := upsertEmbedding messageId (JSON_stringify embedding) EMBEDDING_MODEL
               (db w) (clock w) in
    (Returned (match fst r with Returned _ => true | Thrown _ => false end),
     afterQuery (UpsertEmbedding messageId) (snd r) w).
Proof.
  unfold ChatController.storeEmbedding, try_catch, bind. rewrite pool_query_step.
  destruct (hd false (outages w)); [reflexivity|]. cbv zeta.
  destruct (upsertEmbedding messageId (JSON_stringify embedding) EMBEDDING_MODEL
              (db w) (clock w)) as [[[]|e] db']; reflexivity.
Qed.

Lemma generateAndStoreEmbedding_step (messageId : Z) (content : jsstring) (w : world) :
  generateAndStoreEmbedding messageId content w =
  if accepted content
  then
    match vectorOf (hd Unreachable (ollama w)) with
    | Some e => (Returned tt, snd (storeEmbedding messageId e (afterRequest content w)))
    | None => (Returned tt, afterRequest content w)
    end
  else (Returned tt, w).
Proof.
  unfold ChatController.generateAndStoreEmbedding, try_catch.
  pose proof (generateEmbedding_step content w) as Hg. unfold accepted in *.
  destruct (falsy content || (strlen (trim content) <? 3)); [reflexivity|].
  cbn [negb] in *. unfold bind at 1. rewrite Hg.
  destruct (vectorOf (hd Unreachable (ollama w))) as [e|]; [|reflexivity].
  unfold bind. rewrite storeEmbedding_step.
  destruct (hd false (outages (afterRequest content w))); [reflexivity|]. cbv zeta.
  reflexivity.
Qed.

End Helpers.
End HelperFacts.

(* ================================================================= *)
(** ** The upsert statement, case by case *)

Module UpsertFacts.
Import JS Db World ChatController Terms Steps.

(** The row a first upsert inserts. *)
Lemma upsertEmbedding_cases (messageId : Z) (vector model : jsstring)
  (db : database) (now : Z) :
  let r := upsertEmbedding messageId vector model db now in
  conversations (snd r) = conversations db /\
  messages (snd r) = messages db /\
  ((rowsOf messageId db <> [] /\ fst r = Returned tt /\
    embeddings (snd r) =
    map (fun e => if e_message_id e =? messageId then rewritten vector model now e else e)
        (embeddings db)) \/
   (rowsOf messageId db = [] /\ stored messageId db /\ fst r = Returned tt /\
    embeddings (snd r) =
    embeddings db ++
    [ {| e_id := embeddings_id_seq db + 1; e_message_id := messageId;
         e_embedding_vector := vector; e_model_name := model;
         e_created_at := now; e_updated_at := now |} ]) \/
   (rowsOf messageId db = [] /\ ~ stored messageId db /\
    (exists message, fst r = Thrown message) /\
    embeddings (snd r) = embeddings db)).
Proof.
  cbv zeta. unfold upsertEmbedding, stored.
  destruct (existsb (fun e => e_message_id e =? messageId) (embeddings db)) eqn:Ex.
  - cbn [fst snd conversations messages embeddings].
    split; [reflexivity|]. split; [reflexivity|].
    left. split; [now apply StoreFacts.existsb_rowsOf|]. split; reflexivity.
  - assert (Hnone : rowsOf messageId db = []).
    { destruct (rowsOf messageId db) eqn:E; [reflexivity|].
      assert (rowsOf messageId db <> []) as Hne by (rewrite E; discriminate).
      apply StoreFacts.existsb_rowsOf in Hne. congruence. }
    destruct (existsb (fun m => m_id m =? messageId) (messages db)) eqn:Em;
      cbn [fst snd conversations messages embeddings];
      (split; [reflexivity|]); (split; [reflexivity|]); right.
    + left. split; [exact Hnone|]. split; [reflexivity|]. split; reflexivity.
    + right. split; [exact Hnone|]. split; [discriminate|].
      split; [eexists; reflexivity|reflexivity].
Qed.

Lemma rowsOf_other_rewritten (messageId other : Z) (vector model : jsstring) (now : Z)
  (l : list embedding_row) :
  other <> messageId ->
  filter (fun e => e_message_id e =? other)
    (map (fun e => if e_message_id e =? messageId then rewritten vector model now e else e) l)
  = filter (fun e => e_message_id e =? other) l.
Proof.
  intros Hne. induction l as [|e l IH]; [reflexivity|]. cbn [map filter].
  destruct (Z.eqb_spec (e_message_id e) messageId) as [E|E].
  - cbn [rewritten e_message_id]. rewrite E.
    replace (messageId =? other) with false by (symmetry; apply Z.eqb_neq; congruence).
    exact IH.
  - destruct (e_message_id e =? other); now rewrite IH.
Qed.

(** An upsert touches the rows of its message only. *)
Lemma upsertEmbedding_other_rows (messageId other : Z) (vector model : jsstring)
  (db : database) (now : Z) :
  other <> messageId ->
  rowsOf other (snd (upsertEmbedding messageId vector model db now)) = rowsOf other db.
Proof.
  intros Hne.
  destruct (upsertEmbedding_cases messageId vector model db now)
    as (_ & _ & [(_ & _ & E)|[(_ & _ & _ & E)|(_ & _ & _ & E)]]);
    unfold rowsOf; rewrite E.
  - now apply rowsOf_other_rewritten.
  - rewrite filter_app. cbn [filter e_message_id].
    replace (messageId =? other) with false by (symmetry; apply Z.eqb_neq; congruence).
    now rewrite app_nil_r.
  - reflexivity.
Qed.

(** An upsert keeps the UNIQUE constraint and the foreign key, whether
    it goes through or not. *)
Lemma upsertEmbedding_keeps_constraints (messageId : Z) (vector model : jsstring)
  (db : database) (now : Z) :
  unique_message_id db -> references_hold db ->
  unique_message_id (snd (upsertEmbedding messageId vector model db now)) /\
  references_hold (snd (upsertEmbedding messageId vector model db now)).
Proof.
  intros Hu Hr.
  destruct (upsertEmbedding_cases messageId vector model db now)
    as (_ & Hm & [(_ & _ & E)|[(Hnone & Hst & _ & E)|(_ & _ & _ & E)]]).
  - split.
    + unfold unique_message_id. rewrite E, StoreFacts.message_ids_rewritten. exact Hu.
    + intros e He. unfold stored. rewrite Hm. rewrite E in He.
      apply in_map_iff in He as (e0 & <- & He0).
      destruct (e_message_id e0 =? messageId); exact (Hr e0 He0).
  - split.
    + unfold unique_message_id. rewrite E, map_app. cbn [map e_message_id].
      apply (NoDup_Add (Add_app messageId (map e_message_id (embeddings db)) [])).
      rewrite app_nil_r. split; [exact Hu|].
      intros Hin. apply in_map_iff in Hin as (e & He & Hin).
      assert (In e (rowsOf messageId db)) as Hrow.
      { unfold rowsOf. apply filter_In. split; [exact Hin|]. now apply Z.eqb_eq. }
      rewrite Hnone in Hrow. destruct Hrow.
    + intros e He. unfold stored. rewrite Hm. rewrite E in He.
      apply in_app_or in He as [He|[<-|[]]]; [now apply Hr|exact Hst].
  - split.
    + unfold unique_message_id. now rewrite E.
    + intros e He. unfold stored. rewrite Hm. rewrite E in He. now apply Hr.
Qed.

End UpsertFacts.

(* ================================================================= *)
(** ** The statements that read the store *)

Module SelectFacts.
Import JS Db World ChatController Terms Steps.

Lemma insertDesc_permutation (A : Type) (key : A -> Z) (x : A) (l : list A) :
  Permutation (x :: l) (insertDesc key x l).
Proof.
  induction l as [|y l IH]; cbn [insertDesc]; [reflexivity|].
  destruct (key x <? key y); [|reflexivity].
  eapply Permutation_trans; [apply perm_swap|]. now apply perm_skip.
Qed.

Lemma orderByDesc_permutation (A : Type) (key : A -> Z) (l : list A) :
  Permutation l (orderByDesc key l).
Proof.
  induction l as [|x l IH]; cbn [orderByDesc]; [reflexivity|].
  eapply Permutation_trans; [|apply insertDesc_permutation]. now apply perm_skip.
Qed.

Lemma in_orderByDesc (A : Type) (key : A -> Z) (l : list A) (x : A) :
  In x (orderByDesc key l) <-> In x l.
Proof.
  split; apply Permutation_in;
    [apply Permutation_sym|]; apply orderByDesc_permutation.
Qed.

(** The pairs of the join are a stored message and the conversation of
    the user it belongs to. *)
Lemma in_messagesOfUser (db : database) (userId : Z) (m : message_row) (c : conversation_row) :
  In (m, c) (messagesOfUser db userId) <->
  In m (messages db) /\ In c (conversations db) /\
  m_conversation_id m = c_id c /\ c_user_id c = userId.
Proof.
  unfold messagesOfUser. rewrite in_flat_map. split.
  - intros (m0 & Hm0 & Hin). apply in_map_iff in Hin as (c0 & E & Hc0).
    injection E as -> ->. apply filter_In in Hc0 as [Hc0 Hb].
    apply andb_true_iff in Hb as [H1 H2]. apply Z.eqb_eq in H1, H2. auto.
  - intros (Hm & Hc & H1 & H2). exists m. split; [exact Hm|].
    apply in_map. apply filter_In. split; [exact Hc|].
    apply andb_true_iff. split; now apply Z.eqb_eq.
Qed.

Lemma embeddingsOf_rowsOf (db : database) (m : message_row) :
  embeddingsOf db m = rowsOf (m_id m) db.
Proof.
  unfold embeddingsOf, rowsOf. apply filter_ext. intros e. apply Z.eqb_sym.
Qed.

Lemma messagesOfUser_same_tables (db db' : database) (userId : Z) :
  conversations db' = conversations db -> messages db' = messages db ->
  messagesOfUser db' userId = messagesOfUser db userId.
Proof. unfold messagesOfUser. now intros -> ->. Qed.

(** The rows the search statement reads. *)
Lemma in_selectEmbedded (userId : Z) (db : database) (row : embedded_row) :
  In row (selectEmbedded userId db) <->
  exists m c e,
    In (m, c) (messagesOfUser db userId) /\ In e (rowsOf (m_id m) db) /\
    row = {| er_id := m_id m;
             er_conversation_id := m_conversation_id m;
             er_role := m_sender m;
             er_content := m_content m;
             er_created_at := m_created_at m;
             er_conversation_title := c_title c;
             er_embedding_vector := e_embedding_vector e |}.
Proof.
  unfold selectEmbedded. rewrite in_orderByDesc, in_flat_map. split.
  - intros ([m c] & Hmc & Hin). apply in_map_iff in Hin as (e & <- & He).
    rewrite embeddingsOf_rowsOf in He. exists m, c, e. auto.
  - intros (m & c & e & Hmc & He & ->). exists (m, c). split; [exact Hmc|].
    rewrite embeddingsOf_rowsOf. apply in_map_iff. exists e. split; [reflexivity|exact He].
Qed.

(** The rows the keyword statement reads. *)
Lemma in_selectKeyword (ILIKE : jsstring -> jsstring -> bool)
  (userId : Z) (pattern : jsstring) (db : database) (row : keyword_row) :
  In row (selectKeyword ILIKE userId pattern db) ->
  exists m c,
    In (m, c) (messagesOfUser db userId) /\ ILIKE (m_content m) pattern = true /\
    row = {| kr_id := m_id m;
             kr_conversation_id := m_conversation_id m;
             kr_role := m_sender m;
             kr_content := m_content m;
             kr_created_at := m_created_at m;
             kr_conversation_title := c_title c;
             kr_similarity := lit "0.5" |}.
Proof.
  unfold selectKeyword. intros H. apply SortFacts.in_firstn in H.
  apply in_orderByDesc in H. apply in_map_iff in H as ([m c] & <- & Hin).
  apply filter_In in Hin as [Hin Hlike]. exists m, c. auto.
Qed.

(** The rows the backfill statement reads. *)
Lemma in_selectUnembedded (userId limit : Z) (db : database)
  (rows : list unembedded_row) (row : unembedded_row) :
  selectUnembedded userId limit db = Returned rows -> In row rows ->
  exists m c,
    In (m, c) (messagesOfUser db userId) /\ rowsOf (m_id m) db = [] /\
    3 <= LENGTH (TRIM (m_content m)) /\
    row = {| ur_id := m_id m; ur_content := m_content m |}.
Proof.
  unfold selectUnembedded, asInteger, limitRows.
  destruct (int4 userId); [|discriminate].
  destruct ((limit <? 0) || (2 ^ 63 - 1 <? limit)); [discriminate|].
  intros H Hin. injection H as <-. apply SortFacts.in_firstn in Hin.
  apply in_map_iff in Hin as ([m c] & <- & Hin). apply in_orderByDesc in Hin.
  apply filter_In in Hin as [Hin Hf]. cbn [fst] in *.
  rewrite embeddingsOf_rowsOf in Hf. exists m, c.
  destruct (rowsOf (m_id m) db); [|discriminate].
  repeat split; auto. now apply Z.leb_le.
Qed.

Lemma in_messagesWithScores
  (JSON_parse : jsstring -> completion (option (list number)))
  (qe : list number) (rows : list embedded_row) (msg : scored_message) :
  In msg (messagesWithScores JSON_parse qe rows) <->
  exists row v,
    In row rows /\ JSON_parse (er_embedding_vector row) = Returned v /\
    msg = {| sm_id := er_id row;
             sm_conversationId := er_conversation_id row;
             sm_role := er_role row;
             sm_content := er_content row;
             sm_createdAt := er_created_at row;
             sm_conversationTitle := er_conversation_title row;
             sm_similarity := cosineSimilarity (Some qe) v |}.
Proof.
  induction rows as [|row rows IH]; cbn [messagesWithScores].
  - split; [intros []|intros (row & v & [] & _)].
  - unfold score at 1.
    destruct (JSON_parse (er_embedding_vector row)) as [v|e] eqn:E; cbv iota.
    + cbn [In]. rewrite IH. split.
      * intros [<-|(row' & v' & Hin & Hp & ->)].
        -- exists row, v. auto.
        -- exists row', v'. auto.
      * intros (row' & v' & [<-|Hin] & Hp & ->).
        -- left. rewrite E in Hp. now injection Hp as <-.
        -- right. exists row', v'. auto.
    + rewrite IH. split.
      * intros (row' & v' & Hin & Hp & ->). exists row', v'. cbn [In]. auto.
      * intros (row' & v' & [<-|Hin] & Hp & ->); [congruence|].
        exists row', v'. auto.
Qed.

Lemma selectKeyword_length (ILIKE : jsstring -> jsstring -> bool)
  (userId : Z) (pattern : jsstring) (db : database) :
  (List.length (selectKeyword ILIKE userId pattern db) <= 50)%nat.
Proof. unfold selectKeyword. apply firstn_le_length. Qed.

End SelectFacts.

(* ================================================================= *)
(** ** The embedding helpers, call by call *)

Module HelperLaws.
Import JS Db World ChatController Terms Steps.

Lemma accepted_length (text : jsstring) :
  accepted text = true <-> 3 <= strlen (trim text).
Proof.
  unfold accepted. destruct text as [|c text].
  - cbn. split; [discriminate|]. intros H. exfalso. revert H. now vm_compute.
  - cbn [falsy orb]. rewrite negb_true_iff, Z.ltb_ge. reflexivity.
Qed.

Lemma vectorOf_Some (reply : ollama_reply) (e : list number) :
  vectorOf reply = Some e <-> reply = Json (Some e).
Proof.
  destruct reply as [| | |[v|]]; cbn; split; intros H; try discriminate; congruence.
Qed.

Lemma upsertEmbedding_pair (messageId : Z) (vector model : jsstring)
  (db : database) (now : Z) :
  fst (upsertEmbedding messageId vector model db now) = Returned tt ->
  upsertEmbedding messageId vector model db now =
  (Returned tt, snd (upsertEmbedding messageId vector model db now)).
Proof.
  destruct (upsertEmbedding messageId vector model db now) as [r d]. cbn. now intros ->.
Qed.

(** Every row of the message carries the vector after the statement
    succeeded, and the message has a row. *)
Lemma upsertEmbedding_rows (messageId : Z) (vector model : jsstring)
  (db db' : database) (now : Z) :
  upsertEmbedding messageId vector model db now = (Returned tt, db') ->
  rowsOf messageId db' <> [] /\
  forall row, In row (rowsOf messageId db') ->
              e_embedding_vector row = vector /\ e_model_name row = model.
Proof.
  intros H. apply StoreFacts.upsertEmbedding_done in H
    as [[Hne E]|[Hnone (new & E & Hm & Hv & Hmod & _)]].
  - unfold rowsOf in *. rewrite E. clear E. split.
    + revert Hne. induction (embeddings db) as [|e l IH]; intros Hne; [now cbn in Hne|].
      cbn [filter map] in *. destruct (Z.eqb_spec (e_message_id e) messageId) as [Ee|Ee].
      * cbn [rewritten e_message_id]. rewrite (proj2 (Z.eqb_eq _ _) Ee). discriminate.
      * rewrite (proj2 (Z.eqb_neq _ _) Ee). now apply IH.
    + intros row Hin. apply filter_In in Hin as [Hin Hb].
      apply in_map_iff in Hin as (e & <- & _).
      destruct (Z.eqb_spec (e_message_id e) messageId) as [Ee|Ee].
      * split; reflexivity.
      * apply Z.eqb_eq in Hb. contradiction.
  - unfold rowsOf in *. rewrite E, filter_app, Hnone. cbn [app filter].
    rewrite (proj2 (Z.eqb_eq _ _) Hm). split; [discriminate|].
    intros row [<-|[]]. auto.
Qed.

End HelperLaws.

(* ================================================================= *)
(** ** The store of the examples *)

Module ExampleFacts.
Import JS Db World ChatController Terms Steps.

Lemma store_unique : unique_message_id Examples.store.
Proof.
  unfold unique_message_id. cbn.
  constructor; [intros [H|[]]; discriminate|].
  constructor; [intros []|constructor].
Qed.

Lemma store_references : references_hold Examples.store.
Proof.
  intros e [<-|[<-|[]]]; reflexivity.
Qed.

End ExampleFacts.

(* ================================================================= *)
(** ** The ranking, beyond its first fifty *)

Module RankingFacts.
Import JS ChatController Terms.

Lemma leb_not_ltb (x y : float) :
  positive_number x -> positive_number y ->
  PrimFloat.leb y x = true -> PrimFloat.ltb x y = false.
Proof.
  intros Px Py. rewrite ltb_spec, leb_spec. unfold SFltb, SFleb.
  rewrite (@Binary64.SFcompare_antisym _ _ Px Py).
  destruct (SFcompare (Prim2SF x) (Prim2SF y)) as [[]|]; cbn; congruence.
Qed.

(** The candidates: the scored messages at or above the threshold. *)
Lemma candidates_relevant (scored : list scored_message) :
  Forall relevant (filter (fun msg => ge (sm_similarity msg) SIMILARITY_THRESHOLD) scored).
Proof. apply Forall_forall. intros msg H. apply filter_In in H. apply H. Qed.

(** The sort puts all the candidates in descending order. *)
Lemma candidates_sorted (scored : list scored_message) :
  StronglySorted rankedBefore
    (sort bySimilarity
       (filter (fun msg => ge (sm_similarity msg) SIMILARITY_THRESHOLD) scored)).
Proof.
  apply Sorted_StronglySorted; [exact RankFacts.rankedBefore_trans|].
  apply (@SortFacts.sort_sorted _ bySimilarity relevant rankedBefore
           RankFacts.bySimilarity_moves RankFacts.bySimilarity_stays).
  apply candidates_relevant.
Qed.

Lemma StronglySorted_app_inv (A : Type) (R : A -> A -> Prop) (l1 l2 : list A) :
  StronglySorted R (l1 ++ l2) -> forall x y, In x l1 -> In y l2 -> R x y.
Proof.
  induction l1 as [|a l1 IH]; intros Hs x y Hx Hy; [destruct Hx|].
  cbn [app] in Hs. inversion Hs as [|? ? Hs' Hall]; subst.
  destruct Hx as [<-|Hx].
  - apply (proj1 (Forall_forall _ _) Hall). apply in_or_app. now right.
  - now apply IH.
Qed.

Lemma filter_all (A : Type) (f : A -> bool) (l : list A) :
  Forall (fun x => f x = true) l -> filter f l = l.
Proof.
  induction 1 as [|x l Hx _ IH]; cbn [filter]; [reflexivity|].
  now rewrite Hx, IH.
Qed.

(** The sort leaves a list in descending order as it is. *)
Lemma sort_fixed (l : list scored_message) :
  StronglySorted rankedBefore l -> sort bySimilarity l = l.
Proof.
  induction 1 as [|x l Hs IH Hall]; cbn [sort]; [reflexivity|].
  rewrite IH. destruct l as [|y l]; [reflexivity|]. cbn [insert].
  inversion Hall as [|? ? (Px & Py & Hge) _]; subst.
  unfold comesAfter, gt, bySimilarity.
  rewrite Binary64.ltb_zero_sub by assumption.
  now rewrite (@leb_not_ltb _ _ Px Py Hge).
Qed.

Lemma ranked_sorted (scored : list scored_message) :
  StronglySorted rankedBefore (relevantMessages scored).
Proof.
  unfold relevantMessages, slice0. apply SortFacts.StronglySorted_firstn.
  apply candidates_sorted.
Qed.

End RankingFacts.

(* ================================================================= *)
(** ** The sort is stable *)

Module StableFacts.
Import JS Db ChatController Terms Ties.

Lemma SFltb_irrefl (x : spec_float) : SFltb x x = false.
Proof.
  unfold SFltb, SFcompare. destruct x as [s|[]| |[] m e]; try reflexivity;
    now rewrite Z.compare_refl, Pos.compare_cont_refl.
Qed.

Lemma ltb_irrefl (x : float) : PrimFloat.ltb x x = false.
Proof. rewrite ltb_spec. apply SFltb_irrefl. Qed.

(** An element moves in front of elements of another score only. *)
Lemma insert_stable (s : number) (x : scored_message) (l : list scored_message) :
  relevant x -> Forall relevant l ->
  filter (scoresAs s) (insert bySimilarity x l) = filter (scoresAs s) (x :: l).
Proof.
  intros Hx. induction 1 as [|y l Hy _ IH]; [reflexivity|]. cbn [insert].
  destruct (comesAfter bySimilarity x y) eqn:E; [|reflexivity].
  cbn [filter] in *. rewrite IH.
  destruct (scoresAs s x) eqn:Ex; [|reflexivity].
  destruct (scoresAs s y) eqn:Ey; [|reflexivity].
  exfalso. unfold scoresAs in Ex, Ey.
  apply FloatAxioms.Leibniz.eqb_spec in Ex, Ey.
  unfold comesAfter, gt, bySimilarity in E.
  rewrite Binary64.ltb_zero_sub in E
    by (apply RankFacts.relevant_positive; assumption).
  rewrite Ex, Ey, ltb_irrefl in E. discriminate.
Qed.

Lemma sort_stable (s : number) (l : list scored_message) :
  Forall relevant l ->
  filter (scoresAs s) (sort bySimilarity l) = filter (scoresAs s) l.
Proof.
  induction 1 as [|x l Hx Hl IH]; [reflexivity|]. cbn [sort].
  rewrite insert_stable.
  - cbn [filter]. now rewrite IH.
  - exact Hx.
  - apply (Permutation_Forall (SortFacts.sort_permutation bySimilarity l)). exact Hl.
Qed.

(** Scoring keeps the order of the rows. *)
Lemma messagesWithScores_sorted
  (JSON_parse : jsstring -> completion (option (list number)))
  (qe : list number) (rows : list embedded_row) :
  StronglySorted (fun a b => er_created_at b <= er_created_at a) rows ->
  StronglySorted (fun a b => sm_createdAt b <= sm_createdAt a)
    (messagesWithScores JSON_parse qe rows).
Proof.
  induction 1 as [|row rows Hs IH Hall]; cbn [messagesWithScores]; [constructor|].
  unfold score at 1.
  destruct (JSON_parse (er_embedding_vector row)) as [v|e]; cbv iota; [|exact IH].
  constructor; [exact IH|]. apply Forall_forall. intros msg Hmsg.
  apply SelectFacts.in_messagesWithScores in Hmsg as (row' & v' & Hin & _ & ->).
  cbn [sm_createdAt]. exact (proj1 (Forall_forall _ _) Hall row' Hin).
Qed.

End StableFacts.

(* ================================================================= *)
(** ** The search handler, call by call *)

Module SearchRuns.
Import JS Db World ChatController Terms Steps.

Section Runs.
Variable JSON_parse : jsstring -> completion (option (list number)).
Variable ILIKE : jsstring -> jsstring -> bool.

Local Abbreviation searchMessages := (searchMessages JSON_parse ILIKE).
Local Abbreviation performKeywordSearch := (performKeywordSearch ILIKE).
Local Abbreviation messagesWithScores := (messagesWithScores JSON_parse).

Lemma performKeywordSearch_step (userId : Z) (q : jsstring) (w : world) :
  performKeywordSearch userId q w =
  (Returned
     (if hd false (outages w) || negb (int4 userId)
      then ErrorResponse 500 "Failed to search messages"
      else keywordResult ILIKE userId q (db w)),
   afterQuery (SelectKeyword userId (lit "%" ++ q ++ lit "%")) (db w) w).
Proof.
  unfold ChatController.performKeywordSearch, try_catch, bind.
  rewrite HelperFacts.pool_query_step. unfold queryKeyword, asInteger.
  destruct (hd false (outages w)); [reflexivity|].
  destruct (int4 userId); reflexivity.
Qed.

Lemma readEmbedded_step (userId : Z) (w : world) :
  readEmbedded userId w =
  (if hd false (outages w)
   then Thrown "the store cannot be reached"
   else queryEmbedded userId (db w),
   afterQuery (SelectEmbedded userId) (db w) w).
Proof.
  unfold readEmbedded. rewrite HelperFacts.pool_query_step.
  destruct (hd false (outages w)); reflexivity.
Qed.

Lemma relevantMessages_nil : relevantMessages ([] : list scored_message) = [].
Proof. reflexivity. Qed.

(** The handler on a query it accepts. *)
Lemma searchMessages_run (userId : Z) (q : jsstring) (w : world) :
  accepted q = true ->
  searchMessages userId (Some q) w =
  match vectorOf (hd Unreachable (ollama w)) with
  | None => performKeywordSearch userId q (afterRequest q w)
  | Some qe =>
      let w2 := afterQuery (SelectEmbedded userId) (db w) (afterRequest q w) in
      if hd false (outages w) || negb (int4 userId)
      then (Returned (ErrorResponse 500 "Failed to search messages"), w2)
      else
        match relevantMessages (messagesWithScores qe (selectEmbedded userId (db w))) with
        | [] => performKeywordSearch userId q w2
        | _ :: _ => (Returned (semanticResult JSON_parse userId qe (db w)), w2)
        end
  end.
Proof.
  intros Hacc. unfold ChatController.searchMessages, try_catch.
  pose proof (HelperFacts.generateEmbedding_step q w) as Hg. rewrite Hacc in Hg.
  unfold accepted in Hacc. apply negb_true_iff in Hacc. rewrite Hacc.
  unfold bind at 1. rewrite Hg.
  destruct (vectorOf (hd Unreachable (ollama w))) as [qe|].
  2:{ now rewrite performKeywordSearch_step. }
  unfold bind. rewrite HelperFacts.pool_query_step. cbn [outages afterRequest db].
  destruct (hd false (outages w)); [reflexivity|]. cbn [fst snd orb]. cbv zeta.
  unfold queryEmbedded, asInteger.
  destruct (int4 userId); [|reflexivity]. cbn [negb].
  unfold semanticResult.
  destruct (selectEmbedded userId (db w)) as [|row rows] eqn:Erows.
  { cbn [count List.length Z.of_nat Z.eqb]. cbn [ChatController.messagesWithScores].
    rewrite relevantMessages_nil. now rewrite performKeywordSearch_step. }
  replace (count (row :: rows) =? 0) with false
    by (symmetry; apply SearchFacts.count_nonzero; discriminate).
  destruct (relevantMessages (messagesWithScores qe (row :: rows))) as [|msg l] eqn:Erel.
  { cbn [count List.length Z.of_nat Z.eqb]. now rewrite performKeywordSearch_step. }
  replace (count (msg :: l) =? 0) with false
    by (symmetry; apply SearchFacts.count_nonzero; discriminate).
  reflexivity.
Qed.

(** The handler on every other input. *)
Lemma searchMessages_rejects (userId : Z) (query : option jsstring) (w : world) :
  match query with Some q => accepted q = false | None => True end ->
  searchMessages userId query w
  = (Returned (ErrorResponse 400 "Search query too short"), w).
Proof.
  unfold ChatController.searchMessages, try_catch, accepted.
  destruct query as [q|]; [|reflexivity].
  intros H. apply negb_false_iff in H. now rewrite H.
Qed.

(** The hits of a group of a response are hits of its conversation. *)
Lemma in_group (items : list item) (g : group) (h : hit) :
  Forall (fun x => conversationId (item_hit x) = item_conversationId x) items ->
  In g (values (groupItems items)) -> In h (g_messages g) ->
  In h (map item_hit items) /\ conversationId h = g_conversationId g.
Proof.
  intros Hc Hg Hh.
  destruct (@ResponseFacts.groups_partition _ Hc) as (_ & _ & Hf & _).
  rewrite (Hf g Hg) in Hh. apply filter_In in Hh as [Hin Hb].
  apply Z.eqb_eq in Hb. auto.
Qed.

Lemma in_semantic_group (ranked : list scored_message) (g : group) (h : hit) :
  In g (values (groupSemantic ranked)) -> In h (g_messages g) ->
  conversationId h = g_conversationId g /\
  exists msg, In msg ranked /\ h = semanticHit msg.
Proof.
  rewrite GroupFacts.groupSemantic_items. intros Hg Hh.
  destruct (@in_group _ _ _ (ResponseFacts.semanticItems_coherent ranked) Hg Hh) as [Hin Hc].
  split; [exact Hc|]. rewrite map_map in Hin.
  apply in_map_iff in Hin as (msg & <- & Hin). exists msg. auto.
Qed.

Lemma in_keyword_group (rows : list keyword_row) (g : group) (h : hit) :
  In g (values (groupKeyword rows)) -> In h (g_messages g) ->
  conversationId h = g_conversationId g /\
  exists row, In row rows /\ h = keywordHit row.
Proof.
  rewrite GroupFacts.groupKeyword_items. intros Hg Hh.
  destruct (@in_group _ _ _ (ResponseFacts.keywordItems_coherent rows) Hg Hh) as [Hin Hc].
  split; [exact Hc|]. rewrite map_map in Hin.
  apply in_map_iff in Hin as (row & <- & Hin). exists row. auto.
Qed.

(** A result comes from the keyword statement or from the ranking, both
    over the store as the search found it. *)
Lemma searchMessages_result (userId : Z) (query : option jsstring) (w w' : world)
  (groups : list group) (total : Z) (ty : search_type) (model : option jsstring) :
  searchMessages userId query w = (Returned (SearchResult groups total ty model), w') ->
  exists q,
    query = Some q /\ accepted q = true /\
    ((ty = keyword /\
      SearchResult groups total ty model = keywordResult ILIKE userId q (db w)) \/
     (ty = semantic /\
      exists qe,
        hd Unreachable (ollama w) = Json (Some qe) /\
        hd false (outages w) || negb (int4 userId) = false /\
        relevantMessages (messagesWithScores qe (selectEmbedded userId (db w))) <> [] /\
        SearchResult groups total ty model = semanticResult JSON_parse userId qe (db w))).
Proof.
  intros H.
  assert (Hkw : forall q w0, db w0 = db w ->
            performKeywordSearch userId q w0
            = (Returned (SearchResult groups total ty model), w') ->
            ty = keyword /\
            SearchResult groups total ty model = keywordResult ILIKE userId q (db w)).
  { intros q w0 Hdb Hk. rewrite performKeywordSearch_step in Hk.
    destruct (hd false (outages w0) || negb (int4 userId)); [discriminate|].
    rewrite Hdb in Hk.
    assert (E : keywordResult ILIKE userId q (db w) = SearchResult groups total ty model)
      by congruence.
    split; [|now symmetry]. unfold keywordResult in E. cbv zeta in E. congruence. }
  destruct query as [q|].
  2:{ rewrite searchMessages_rejects in H by exact I. discriminate. }
  destruct (accepted q) eqn:Hacc.
  2:{ rewrite searchMessages_rejects in H by exact Hacc. discriminate. }
  exists q. split; [reflexivity|]. split; [exact Hacc|].
  rewrite (@searchMessages_run userId q w Hacc) in H.
  destruct (vectorOf (hd Unreachable (ollama w))) as [qe|] eqn:Hv.
  2:{ left. now apply (Hkw q (afterRequest q w)). }
  apply HelperLaws.vectorOf_Some in Hv.
  cbv zeta in H. destruct (hd false (outages w) || negb (int4 userId)); [discriminate|].
  destruct (relevantMessages _) as [|msg0 l] eqn:Erel.
  { left. now apply (Hkw q (afterQuery (SelectEmbedded userId) (db w) (afterRequest q w))). }
  right.
  assert (E : semanticResult JSON_parse userId qe (db w)
              = SearchResult groups total ty model) by congruence.
  split; [unfold semanticResult in E; cbv zeta in E; congruence|].
  exists qe. split; [exact Hv|]. split; [reflexivity|]. split; [|now symmetry].
  rewrite Erel. discriminate.
Qed.

(** Where the hits of a result come from. *)
Lemma searchMessages_hits (userId : Z) (query : option jsstring) (w w' : world)
  (groups : list group) (total : Z) (ty : search_type) (model : option jsstring) :
  searchMessages userId query w = (Returned (SearchResult groups total ty model), w') ->
  forall g h, In g groups -> In h (g_messages g) ->
    exists m c,
      In (m, c) (messagesOfUser (db w) userId) /\
      id h = m_id m /\ conversationId h = m_conversation_id m /\
      g_conversationId g = m_conversation_id m.
Proof.
  intros H g h Hg Hh.
  apply searchMessages_result in H
    as (q & _ & _ & [(_ & E)|(_ & qe & _ & _ & _ & E)]).
  - unfold keywordResult in E. cbv zeta in E. injection E as -> _.
    destruct (@in_keyword_group _ _ _ Hg Hh) as (Hc & row & Hrow & ->).
    apply SelectFacts.in_selectKeyword in Hrow as (m & c & Hmc & _ & ->).
    exists m, c. cbn in Hc |- *. auto.
  - unfold semanticResult in E. cbv zeta in E. injection E as -> _.
    destruct (@in_semantic_group _ _ _ Hg Hh) as (Hc & msg & Hmsg & ->).
    apply RankFacts.relevantMessages_ranked in Hmsg.
    apply SelectFacts.in_messagesWithScores in Hmsg as (row & v & Hrow & _ & ->).
    apply SelectFacts.in_selectEmbedded in Hrow as (m & c & e & Hmc & _ & ->).
    exists m, c. cbn in Hc |- *. auto.
Qed.

End Runs.
End SearchRuns.

(* ================================================================= *)
(** ** The order of the rows the store returns *)

Module OrderFacts.
Import JS Db.

Section Order.
Variable A : Type.
Variable key : A -> Z.

Lemma insertDesc_sorted (x : A) (l : list A) :
  StronglySorted (fun a b => key b <= key a) l ->
  StronglySorted (fun a b => key b <= key a) (insertDesc key x l).
Proof.
  induction 1 as [|y l Hs IH Hall]; cbn [insertDesc].
  - repeat constructor.
  - destruct (Z.ltb_spec (key x) (key y)) as [Hlt|Hge].
    + constructor; [exact IH|].
      apply (Permutation_Forall (SelectFacts.insertDesc_permutation key x l)).
      constructor; [lia|exact Hall].
    + constructor; [now constructor|].
      constructor; [exact Hge|].
      apply Forall_forall. intros z Hz.
      pose proof (proj1 (Forall_forall _ _) Hall z Hz). cbn beta in *. lia.
Qed.

Lemma orderByDesc_sorted (l : list A) :
  StronglySorted (fun a b => key b <= key a) (orderByDesc key l).
Proof.
  induction l as [|x l IH]; cbn [orderByDesc]; [constructor|].
  now apply insertDesc_sorted.
Qed.

End Order.
End OrderFacts.

(* ================================================================= *)
(** ** The backfill job, call by call *)

Module BackfillRuns.
Import JS Db World ChatController Terms Steps Backfill.

Section Job.
Variable JSON_stringify : list number -> jsstring.

Local Abbreviation generateAndStoreEmbedding := (generateAndStoreEmbedding JSON_stringify).
Local Abbreviation processRows := (processRows JSON_stringify).
Local Abbreviation generateMissingEmbeddings := (generateMissingEmbeddings JSON_stringify).
Local Abbreviation afterRows := (afterRows JSON_stringify).

(** One turn of the loop: either the table [embeddings] is as before, or
    the upsert of the vector the endpoint returned went through. *)
Lemma generateAndStoreEmbedding_store (messageId : Z) (content : jsstring) (w : world) :
  let w' := snd (generateAndStoreEmbedding messageId content w) in
  (embeddings (db w') = embeddings (db w) /\
   conversations (db w') = conversations (db w) /\
   messages (db w') = messages (db w)) \/
  (exists e,
     accepted content = true /\
     hd Unreachable (ollama w) = Json (Some e) /\
     hd false (outages w) = false /\
     upsertEmbedding messageId (JSON_stringify e) EMBEDDING_MODEL (db w) (clock w + 1)
     = (Returned tt, db w')).
Proof.
  cbv zeta. rewrite HelperFacts.generateAndStoreEmbedding_step.
  destruct (accepted content); [|now left].
  destruct (vectorOf (hd Unreachable (ollama w))) as [e|] eqn:Hv; [|now left].
  apply HelperLaws.vectorOf_Some in Hv.
  rewrite HelperFacts.storeEmbedding_step. cbn [outages afterRequest db clock].
  destruct (hd false (outages w)); [now left|].
  cbv zeta. cbn [snd db afterQuery].
  pose proof (@UpsertFacts.upsertEmbedding_cases messageId (JSON_stringify e)
                EMBEDDING_MODEL (db w) (clock w + 1)) as Hc.
  cbv zeta in Hc. destruct Hc as (Hconv & Hmsg & Hc).
  destruct Hc as [(_ & Hf & _)|[(_ & _ & Hf & _)|(_ & _ & _ & E)]].
  - right. exists e. split; [reflexivity|]. split; [exact Hv|]. split; [reflexivity|].
    now apply HelperLaws.upsertEmbedding_pair.
  - right. exists e. split; [reflexivity|]. split; [exact Hv|]. split; [reflexivity|].
    now apply HelperLaws.upsertEmbedding_pair.
  - left. auto.
Qed.

(** One turn of the loop, seen from outside. *)
Lemma generateAndStoreEmbedding_calls (messageId : Z) (content : jsstring) (w : world) :
  let w' := snd (generateAndStoreEmbedding messageId content w) in
  exists log,
    calls w' = calls w ++ log /\
    (log = [] \/ log = [ProviderRequest content] \/
     log = [ProviderRequest content; StoreQuery (UpsertEmbedding messageId)]).
Proof.
  cbv zeta. rewrite HelperFacts.generateAndStoreEmbedding_step.
  destruct (accepted content).
  2:{ exists []. split; [now rewrite app_nil_r|now left]. }
  destruct (vectorOf (hd Unreachable (ollama w))) as [e|].
  2:{ exists [ProviderRequest content]. split; [reflexivity|]. right. now left. }
  rewrite HelperFacts.storeEmbedding_step. cbn [outages afterRequest db clock].
  exists [ProviderRequest content; StoreQuery (UpsertEmbedding messageId)].
  split; [|right; now right].
  destruct (hd false (outages w)); cbv zeta; cbn [snd calls afterQuery afterRequest];
    now rewrite <- app_assoc.
Qed.

Lemma afterRows_cons (row : unembedded_row) (rows : list unembedded_row) (w : world) :
  afterRows (row :: rows) w =
  afterRows rows (snd (generateAndStoreEmbedding (ur_id row) (ur_content row) w)).
Proof. reflexivity. Qed.

(** The loop never fails, and counts every row as a success. *)
Lemma processRows_run (rows : list unembedded_row) :
  forall (successCount failCount : Z) (errors : list error_entry) (w : world),
    processRows rows successCount failCount errors w
    = (Returned (successCount + count rows, failCount, errors), afterRows rows w).
Proof.
  induction rows as [|row rows IH]; intros s f errs w.
  - unfold count. cbn. now rewrite Z.add_0_r.
  - cbn [ChatController.processRows]. unfold bind at 1. unfold try_catch, bind at 1.
    rewrite afterRows_cons.
    destruct (BackfillFacts.generateAndStoreEmbedding_returns JSON_stringify
                (ur_id row) (ur_content row) w) as (w1 & E).
    rewrite E. unfold ret. cbn [snd]. rewrite IH.
    replace (s + 1 + count rows) with (s + count (row :: rows))
      by (unfold count; cbn [List.length]; lia).
    reflexivity.
Qed.

(** The job. *)
Lemma generateMissingEmbeddings_run (userId : Z) (limit : option Z) (w : world) :
  generateMissingEmbeddings userId limit w =
  let fetched := afterQuery (SelectUnembedded userId (limitOf limit)) (db w) w in
  if hd false (outages w)
  then (Returned (ErrorResponse 500 "Failed to generate embeddings"), fetched)
  else
    match selectUnembedded userId (limitOf limit) (db w) with
    | Returned rows => (Returned (backfillResult rows), afterRows rows fetched)
    | Thrown _ => (Returned (ErrorResponse 500 "Failed to generate embeddings"), fetched)
    end.
Proof.
  unfold ChatController.generateMissingEmbeddings, try_catch. cbv zeta.
  unfold bind at 1. rewrite HelperFacts.pool_query_step.
  destruct (hd false (outages w)); [reflexivity|]. cbn [fst snd].
  destruct (selectUnembedded userId (limitOf limit) (db w)) as [rows|e]; [|reflexivity].
  unfold backfillResult.
  destruct (count rows =? 0) eqn:Ec.
  - apply SearchFacts.count_zero in Ec. subst rows. reflexivity.
  - unfold bind. rewrite processRows_run. reflexivity.
Qed.

End Job.
End BackfillRuns.

(* ================================================================= *)
(** ** What the loop of the backfill job does to the world *)

Module BackfillLoop.
Import JS Db World ChatController Terms Steps Backfill.



Lemma rowsOf_none (messageId : Z) (db : database) (e : embedding_row) :
  rowsOf messageId db = [] -> In e (embeddings db) -> e_message_id e <> messageId.
Proof.
  unfold rowsOf. intros Hnone Hin E.
  assert (H : In e (filter (fun e => e_message_id e =? messageId) (embeddings db))).
  { apply filter_In. split; [exact Hin|now apply Z.eqb_eq]. }
  rewrite Hnone in H. destruct H.
Qed.

Section Loop.
Variable JSON_stringify : list number -> jsstring.

Local Abbreviation generateAndStoreEmbedding := (generateAndStoreEmbedding JSON_stringify).
Local Abbreviation afterRows := (afterRows JSON_stringify).



(** The constraints of [embeddings] survive the loop. *)
Lemma generateAndStoreEmbedding_keeps_constraints
  (messageId : Z) (content : jsstring) (w : world) :
  unique_message_id (db w) -> references_hold (db w) ->
  unique_message_id (db (snd (generateAndStoreEmbedding messageId content w))) /\
  references_hold (db (snd (generateAndStoreEmbedding messageId content w))).
Proof.
  intros Hu Hr.
  destruct (BackfillRuns.generateAndStoreEmbedding_store JSON_stringify messageId content w)
    as [(E & _ & Em)|(e & _ & _ & _ & Hup)].
  - unfold unique_message_id, references_hold, stored in *. rewrite E, Em. auto.
  - pose proof (@UpsertFacts.upsertEmbedding_keeps_constraints messageId
                  (JSON_stringify e) EMBEDDING_MODEL (db w) (clock w + 1) Hu Hr) as H.
    rewrite Hup in H. exact H.
Qed.

Lemma afterRows_keeps_constraints (rows : list unembedded_row) :
  forall w,
    unique_message_id (db w) -> references_hold (db w) ->
    unique_message_id (db (afterRows rows w)) /\ references_hold (db (afterRows rows w)).
Proof.
  induction rows as [|row rows IH]; intros w Hu Hr; [auto|].
  rewrite BackfillRuns.afterRows_cons.
  destruct (@generateAndStoreEmbedding_keeps_constraints (ur_id row) (ur_content row) w Hu Hr)
    as [Hu' Hr'].
  now apply IH.
Qed.

(** The loop appends rows for the messages it was given, and touches no
    row of another message. *)
Lemma afterRows_store (ids : list Z) (base : list embedding_row)
  (rows : list unembedded_row) :
  (forall e, In e base -> ~ In (e_message_id e) ids) ->
  Forall (fun row => In (ur_id row) ids) rows ->
  forall (w : world) (added : list embedding_row),
    embeddings (db w) = base ++ added ->
    Forall (fun e => In (e_message_id e) ids /\ e_model_name e = EMBEDDING_MODEL) added ->
    exists added',
      embeddings (db (afterRows rows w)) = base ++ added' /\
      Forall (fun e => In (e_message_id e) ids /\ e_model_name e = EMBEDDING_MODEL) added' /\
      (List.length added' <= List.length added + List.length rows)%nat /\
      conversations (db (afterRows rows w)) = conversations (db w) /\
      messages (db (afterRows rows w)) = messages (db w).
Proof.
  intros Hbase. induction 1 as [|row rows Hid _ IH]; intros w added E Hadded.
  { exists added. cbn. repeat split; auto. lia. }
  rewrite BackfillRuns.afterRows_cons.
  set (w1 := snd (generateAndStoreEmbedding (ur_id row) (ur_content row) w)).
  assert (Hstep : exists added1,
             embeddings (db w1) = base ++ added1 /\
             Forall (fun e => In (e_message_id e) ids /\ e_model_name e = EMBEDDING_MODEL)
                    added1 /\
             (List.length added1 <= List.length added + 1)%nat /\
             conversations (db w1) = conversations (db w) /\
             messages (db w1) = messages (db w)).
  { subst w1.
    destruct (BackfillRuns.generateAndStoreEmbedding_store JSON_stringify
                (ur_id row) (ur_content row) w)
      as [(E1 & Ec & Em)|(e & _ & _ & _ & Hup)].
    - exists added. rewrite E1. repeat split; auto. lia.
    - destruct (@StoreFacts.upsertEmbedding_frame _ _ _ _ _ _ Hup) as [Ec Em].
      apply StoreFacts.upsertEmbedding_done in Hup
        as [[_ E1]|[_ (new & E1 & Hm & _ & Hmod & _)]].
      + exists (map (fun e0 => if e_message_id e0 =? ur_id row
                               then rewritten (JSON_stringify e) EMBEDDING_MODEL
                                      (clock w + 1) e0
                               else e0) added).
        split; [|split; [|split; [|split; [exact Ec|exact Em]]]].
        * rewrite E1, E, map_app. f_equal.
          rewrite <- (map_id base) at 2. apply map_ext_in. intros e0 He0.
          destruct (Z.eqb_spec (e_message_id e0) (ur_id row)) as [Ee|_]; [|reflexivity].
          exfalso. apply (Hbase e0 He0). now rewrite Ee.
        * apply Forall_forall. intros e1 He1. apply in_map_iff in He1 as (e0 & <- & He0).
          pose proof (proj1 (Forall_forall _ _) Hadded e0 He0) as [H1 H2].
          destruct (e_message_id e0 =? ur_id row); [split; [exact H1|reflexivity]|auto].
        * rewrite length_map. lia.
      + exists (added ++ [new]).
        split; [|split; [|split; [|split; [exact Ec|exact Em]]]].
        * now rewrite E1, E, app_assoc.
        * apply Forall_app. split; [exact Hadded|].
          constructor; [|constructor]. split; [now rewrite Hm|exact Hmod].
        * rewrite length_app. cbn. lia. }
  destruct Hstep as (added1 & E1 & Hadded1 & Hlen1 & Ec1 & Em1).
  destruct (IH w1 added1 E1 Hadded1) as (added' & E' & Hadded' & Hlen' & Ec' & Em').
  exists added'. split; [exact E'|]. split; [exact Hadded'|].
  split; [cbn [List.length]; lia|]. split; congruence.
Qed.

(** The loop, seen from outside: per row at most one request, and an
    upsert only after a request. *)
Lemma afterRows_calls (rows : list unembedded_row) :
  forall w,
  exists log,
    calls (afterRows rows w) = calls w ++ log /\
    Forall (fun ev => isRequest ev || isUpsert ev = true) log /\
    (List.length (requests log) <= List.length rows)%nat /\
    (List.length (upserts log) <= List.length (requests log))%nat.
Proof.
  induction rows as [|row rows IH]; intros w.
  { exists []. cbn. split; [now rewrite app_nil_r|]. split; [constructor|lia]. }
  rewrite BackfillRuns.afterRows_cons.
  destruct (BackfillRuns.generateAndStoreEmbedding_calls JSON_stringify
              (ur_id row) (ur_content row) w) as (log1 & E1 & Hlog1).
  cbv zeta in E1.
  destruct (IH (snd (generateAndStoreEmbedding (ur_id row) (ur_content row) w)))
    as (log & E & Hall & Hreq & Hup).
  exists (log1 ++ log). rewrite E, E1, <- app_assoc. split; [reflexivity|].
  unfold requests, upserts in *. rewrite !filter_app, !length_app.
  split; [apply Forall_app; split; [|exact Hall]|].
  - destruct Hlog1 as [-> | [-> | ->]]; repeat constructor.
  - destruct Hlog1 as [-> | [-> | ->]]; cbn; lia.
Qed.

(** Contents the helper does not accept leave the world as it is. *)
Lemma afterRows_skips (rows : list unembedded_row) (w : world) :
  Forall (fun row => accepted (ur_content row) = false) rows ->
  afterRows rows w = w.
Proof.
  induction 1 as [|row rows Hrow _ IH]; [reflexivity|].
  rewrite BackfillRuns.afterRows_cons, HelperFacts.generateAndStoreEmbedding_step, Hrow.
  exact IH.
Qed.


End Loop.
End BackfillLoop.

(* ================================================================= *)
(** ** The statements of [deleteConversation] *)

Module DeletionFacts.
Import JS Db World ChatController Terms Steps Backfill Deletion.

Lemma pool_run_step (run : database -> completion unit * database) (w : world) :
  pool_run run w =
  if hd false (outages w)
  then (Thrown "the store cannot be reached", afterRun (db w) w)
  else (fst (run (db w)), afterRun (snd (run (db w))) w).
Proof.
  unfold pool_run, afterRun. destruct (hd false (outages w)); [reflexivity|].
  destruct (run (db w)); reflexivity.
Qed.

Lemma existsb_filter (A : Type) (f g : A -> bool) (l : list A) :
  existsb f (filter g l) = existsb (fun x => f x && g x) l.
Proof.
  induction l as [|x l IH]; [reflexivity|]. cbn [filter existsb].
  destruct (g x); cbn [existsb]; rewrite IH; [now rewrite andb_true_r|].
  now rewrite andb_false_r.
Qed.

Lemma existsb_none (A : Type) (f : A -> bool) (l : list A) :
  (forall x, In x l -> f x = false) -> existsb f l = false.
Proof.
  intros H. destruct (existsb f l) eqn:E; [|reflexivity].
  apply existsb_exists in E as (x & Hin & Hx). rewrite (H x Hin) in Hx. discriminate.
Qed.

Lemma bound_integer (n : Z) :
  - 2 ^ 31 <= n < 2 ^ 31 -> bound (Integer n) = Returned (Some n).
Proof.
  intros H. unfold bound.
  replace ((- 2 ^ 31 <=? n) && (n <? 2 ^ 31)) with true; [reflexivity|].
  symmetry. apply andb_true_iff. split; [apply Z.leb_le|apply Z.ltb_lt]; lia.
Qed.

Lemma deleteEmbeddingsOfConversation_integer (cid : Z) (db : database) :
  - 2 ^ 31 <= cid < 2 ^ 31 ->
  deleteEmbeddingsOfConversation (Integer cid) db = (Returned tt, withoutEmbeddings cid db).
Proof.
  intros H. unfold deleteEmbeddingsOfConversation. rewrite (bound_integer H). cbv zeta.
  unfold withoutEmbeddings. do 2 f_equal. apply filter_ext. intros e. f_equal.
  rewrite existsb_filter. unfold embedsConversation, inConversation, equals.
  induction (messages db) as [|m l IH]; [reflexivity|]. cbn [existsb].
  now rewrite IH, (Z.eqb_sym (e_message_id e) (m_id m)).
Qed.

Lemma deleteMessagesOfConversation_integer (cid : Z) (db : database) :
  - 2 ^ 31 <= cid < 2 ^ 31 ->
  deleteMessagesOfConversation (Integer cid) (withoutEmbeddings cid db)
  = (Returned tt, withoutMessages cid db).
Proof.
  intros H. unfold deleteMessagesOfConversation. rewrite (bound_integer H). cbv zeta.
  unfold withoutMessages, withoutEmbeddings, cascadeToEmbeddings.
  cbn [messages embeddings conversations embeddings_id_seq].
  do 2 f_equal. rewrite ListFacts.filter_filter. apply filter_ext. intros e.
  rewrite existsb_filter. unfold embedsConversation, inConversation, equals.
  destruct (existsb _ (messages db)); reflexivity.
Qed.

Lemma deleteConversationOfUser_integer (cid : Z) (userId : parameter) (uid : option Z)
  (db : database) :
  - 2 ^ 31 <= cid < 2 ^ 31 -> bound userId = Returned uid ->
  deleteConversationOfUser (Integer cid) userId (withoutMessages cid db)
  = (Returned tt, withoutConversation cid uid db).
Proof.
  intros H Hu. unfold deleteConversationOfUser. rewrite (bound_integer H), Hu. cbv zeta.
  unfold withoutConversation, withoutMessages, cascadeToEmbeddings.
  cbn [messages embeddings conversations embeddings_id_seq].
  assert (Horphan : forall m,
            In m (filter (fun m => negb (inConversation cid m)) (messages db)) ->
            existsb (fun c => m_conversation_id m =? c_id c)
              (filter (fun c => equals (c_id c) (Some cid) && equals (c_user_id c) uid)
                      (conversations db)) = false).
  { intros m Hm. apply filter_In in Hm as [_ Hm]. apply negb_true_iff in Hm.
    unfold inConversation in Hm. apply existsb_none. intros c Hc.
    apply filter_In in Hc as [_ Hc]. apply andb_true_iff in Hc as [Hc _].
    cbn [equals] in Hc. apply Z.eqb_eq in Hc. now rewrite Hc. }
  f_equal. f_equal.
  - rewrite ListFacts.filter_filter. apply filter_ext_in. intros m Hm.
    destruct (negb (inConversation cid m)) eqn:Em; [|reflexivity].
    rewrite Horphan; [reflexivity|]. apply filter_In. auto.
  - match goal with
    | |- context [filter ?f (filter ?g (messages db))] =>
        rewrite (@GroupFacts.filter_none _ f (filter g (messages db)) Horphan)
    end.
    cbn [existsb negb]. apply RankingFacts.filter_all. apply Forall_forall. reflexivity.
Qed.

(** Each statement only removes rows. *)
Lemma cascade_keeps_references (g : message_row -> bool) (db : database)
  (kept : list embedding_row) :
  incl kept (embeddings db) -> references_hold db ->
  forall e, In e (cascadeToEmbeddings (filter g (messages db)) kept) ->
            existsb (fun m => m_id m =? e_message_id e)
              (filter (fun m => negb (g m)) (messages db)) = true.
Proof.
  intros Hincl Hr e He. unfold cascadeToEmbeddings in He.
  apply filter_In in He as [He Hgone]. apply negb_true_iff in Hgone.
  pose proof (Hr e (Hincl e He)) as Hst. unfold stored in Hst.
  rewrite existsb_filter in Hgone |- *.
  apply existsb_exists in Hst as (m & Hm & Hid). apply existsb_exists. exists m.
  split; [exact Hm|]. rewrite Hid. cbn [andb].
  destruct (g m) eqn:Eg; [|reflexivity]. exfalso.
  assert (H : existsb (fun x => (m_id x =? e_message_id e) && g x) (messages db) = true).
  { apply existsb_exists. exists m. split; [exact Hm|]. now rewrite Hid, Eg. }
  congruence.
Qed.

Lemma unique_filter (f : embedding_row -> bool) (l : list embedding_row) :
  NoDup (map e_message_id l) -> NoDup (map e_message_id (filter f l)).
Proof.
  induction l as [|e l IH]; intros H; [constructor|].
  cbn [map] in H. inversion H as [|? ? Hnotin Hrest]; subst. cbn [filter].
  destruct (f e); [|now apply IH]. cbn [map]. constructor; [|now apply IH].
  intros Hin. apply Hnotin. apply in_map_iff in Hin as (e' & E & Hin).
  apply filter_In in Hin as [Hin _]. apply in_map_iff. eauto.
Qed.


Lemma shrinks_refl (db : database) : shrinks db db.
Proof. unfold shrinks. repeat split; auto using incl_refl. Qed.

Lemma shrinks_trans (db1 db2 db3 : database) :
  shrinks db1 db2 -> shrinks db2 db3 -> shrinks db1 db3.
Proof.
  intros (A1 & A2 & A3 & A4 & A5 & A6) (B1 & B2 & B3 & B4 & B5 & B6).
  unfold shrinks.
  split; [eapply incl_tran; eassumption|]. split; [eapply incl_tran; eassumption|].
  split; [eapply incl_tran; eassumption|]. split; [congruence|]. split; auto.
Qed.

Lemma incl_filter' (A : Type) (f : A -> bool) (l : list A) : incl (filter f l) l.
Proof. intros x H. apply filter_In in H. apply H. Qed.

Lemma deleteEmbeddingsOfConversation_shrinks (conversationId : parameter) (db : database) :
  shrinks db (snd (deleteEmbeddingsOfConversation conversationId db)).
Proof.
  unfold deleteEmbeddingsOfConversation.
  destruct (bound conversationId) as [cid|e]; [|apply shrinks_refl].
  cbv zeta. cbn [snd]. unfold shrinks.
  cbn [conversations messages embeddings embeddings_id_seq].
  split; [apply incl_refl|]. split; [apply incl_refl|]. split; [apply incl_filter'|].
  split; [reflexivity|]. split.
  - unfold unique_message_id. cbn [embeddings]. apply unique_filter.
  - unfold references_hold, stored. cbn [embeddings messages]. intros Hr e He.
    apply Hr. now apply incl_filter' in He.
Qed.

Lemma deleteMessagesOfConversation_shrinks (conversationId : parameter) (db : database) :
  shrinks db (snd (deleteMessagesOfConversation conversationId db)).
Proof.
  unfold deleteMessagesOfConversation.
  destruct (bound conversationId) as [cid|e]; [|apply shrinks_refl].
  cbv zeta. cbn [snd]. unfold shrinks.
  cbn [conversations messages embeddings embeddings_id_seq].
  split; [apply incl_refl|]. split; [apply incl_filter'|].
  split; [apply incl_filter'|]. split; [reflexivity|]. split.
  - unfold unique_message_id. cbn [embeddings]. apply unique_filter.
  - intros Hr e He. unfold stored. cbn [embeddings messages] in *.
    now apply (@cascade_keeps_references _ db (embeddings db) (incl_refl _) Hr).
Qed.

Lemma deleteConversationOfUser_shrinks (conversationId userId : parameter) (db : database) :
  shrinks db (snd (deleteConversationOfUser conversationId userId db)).
Proof.
  unfold deleteConversationOfUser.
  destruct (bound conversationId) as [cid|e]; [|apply shrinks_refl].
  destruct (bound userId) as [uid|e]; [|apply shrinks_refl].
  cbv zeta. cbn [snd]. unfold shrinks.
  cbn [conversations messages embeddings embeddings_id_seq].
  split; [apply incl_filter'|]. split; [apply incl_filter'|].
  split; [apply incl_filter'|]. split; [reflexivity|]. split.
  - unfold unique_message_id. cbn [embeddings]. apply unique_filter.
  - intros Hr e He. unfold stored. cbn [embeddings messages] in *.
    now apply (@cascade_keeps_references _ db (embeddings db) (incl_refl _) Hr).
Qed.

(** The handler, statement by statement. *)
Lemma deleteConversation_run (conversationId userId : parameter) (w : world) :
  deleteConversation conversationId userId w =
  let failed := Returned (DeletionError 500 "Failed to delete conversation") in
  let r1 := deleteEmbeddingsOfConversation conversationId (db w) in
  let w1 := afterRun (snd r1) w in
  let r2 := deleteMessagesOfConversation conversationId (snd r1) in
  let w2 := afterRun (snd r2) w1 in
  let r3 := deleteConversationOfUser conversationId userId (snd r2) in
  let w3 := afterRun (snd r3) w2 in
  if hd false (outages w) then (failed, afterRun (db w) w)
  else
    match fst r1 with
    | Thrown _ => (failed, w1)
    | Returned _ =>
        if hd false (tl (outages w)) then (failed, afterRun (snd r1) w1)
        else
          match fst r2 with
          | Thrown _ => (failed, w2)
          | Returned _ =>
              if hd false (tl (tl (outages w))) then (failed, afterRun (snd r2) w2)
              else
                match fst r3 with
                | Thrown _ => (failed, w3)
                | Returned _ => (Returned (Deleted true "Conversation deleted"), w3)
                end
          end
    end.
Proof.
  unfold deleteConversation, try_catch. cbv zeta.
  unfold bind at 1. rewrite pool_run_step.
  destruct (hd false (outages w)); [reflexivity|].
  destruct (deleteEmbeddingsOfConversation conversationId (db w)) as [[[]|e1] db1];
    cbn [fst snd]; [|reflexivity].
  unfold bind at 1. rewrite pool_run_step. cbn [outages afterRun db].
  destruct (hd false (tl (outages w))); [reflexivity|].
  destruct (deleteMessagesOfConversation conversationId db1) as [[[]|e2] db2];
    cbn [fst snd]; [|reflexivity].
  unfold bind at 1. rewrite pool_run_step. cbn [outages afterRun db].
  destruct (hd false (tl (tl (outages w)))); [reflexivity|].
  destruct (deleteConversationOfUser conversationId userId db2) as [[[]|e3] db3];
    reflexivity.
Qed.

(** The handler when every statement goes through. *)
Lemma deleteConversation_done (cid : Z) (userId : parameter) (uid : option Z) (w : world) :
  - 2 ^ 31 <= cid < 2 ^ 31 ->
  bound userId = Returned uid ->
  hd false (outages w) = false ->
  hd false (tl (outages w)) = false ->
  hd false (tl (tl (outages w))) = false ->
  deleteConversation (Integer cid) userId w
  = (Returned (Deleted true "Conversation deleted"),
     afterRun (withoutConversation cid uid (db w))
       (afterRun (withoutMessages cid (db w))
          (afterRun (withoutEmbeddings cid (db w)) w))).
Proof.
  intros Hcid Hu H1 H2 H3. rewrite deleteConversation_run. cbv zeta.
  rewrite H1, H2, H3.
  rewrite (deleteEmbeddingsOfConversation_integer (db w) Hcid). cbn [fst snd].
  rewrite (deleteMessagesOfConversation_integer (db w) Hcid). cbn [fst snd].
  rewrite (deleteConversationOfUser_integer userId (db w) Hcid Hu).
  reflexivity.
Qed.

Lemma filter_twice (A : Type) (f : A -> bool) (l : list A) :
  filter f (filter f l) = filter f l.
Proof.
  rewrite ListFacts.filter_filter. apply filter_ext. intros x. now destruct (f x).
Qed.

(** Nothing is left for a second deletion. *)
Lemma withoutConversation_twice (cid : Z) (uid : option Z) (db : database) :
  withoutConversation cid uid (withoutConversation cid uid db)
  = withoutConversation cid uid db.
Proof.
  unfold withoutConversation. cbn [conversations messages embeddings embeddings_id_seq].
  rewrite !filter_twice. f_equal.
  apply RankingFacts.filter_all. apply Forall_forall. intros e _.
  apply negb_true_iff. unfold embedsConversation. cbn [messages].
  rewrite existsb_filter. apply existsb_none. intros m _.
  destruct (inConversation cid m); [now rewrite andb_false_r|now rewrite andb_false_r].
Qed.

Lemma alwaysReachable_tl (l : list bool) :
  Forall (fun o => o = false) l ->
  hd false l = false /\ Forall (fun o => o = false) (tl l).
Proof. intros H. destruct l as [|o l]; [split; [reflexivity|constructor]|]. now inversion H. Qed.

End DeletionFacts.

(* ================================================================= *)
(** ** The titles of the groups *)

Module TitleFacts.
Import JS Db ChatController Terms ObjectFacts.

(** A group keeps the title it was created with: the title of an element
    of its conversation. *)
Lemma groupItems_titles (items : list item) :
  forall g, In g (values (groupItems items)) ->
    exists x, In x items /\
              item_conversationId x = g_conversationId g /\
              item_title x = g_conversationTitle g.
Proof.
  induction items as [|x items IH] using rev_ind; intros g Hg.
  - destruct Hg.
  - rewrite GroupFacts.groupItems_snoc, GroupFacts.addToGroup_set in Hg.
    pose proof (gr_keys (GroupFacts.groupItems_grouped items)) as Hkeys.
    destruct (@entries_set _ (groupItems items) (ToPropertyKey (item_conversationId x))
                (pushed (groupItems items) (item_conversationId x) (item_title x)
                   (item_hit x)) (wk_sorted Hkeys))
      as (l1 & l2 & E1 & E2).
    apply GroupFacts.in_values in Hg as (k & Hin). rewrite E2 in Hin.
    assert (Hold : forall g0, (exists k0, In (k0, g0) (entries (groupItems items))) ->
                     exists x0, In x0 (items ++ [x]) /\
                                item_conversationId x0 = g_conversationId g0 /\
                                item_title x0 = g_conversationTitle g0).
    { intros g0 Hg0. apply GroupFacts.in_values in Hg0.
      destruct (IH g0 Hg0) as (x0 & Hx0 & Hc & Ht).
      exists x0. split; [apply in_or_app; now left|auto]. }
    apply in_app_or in Hin as [Hin|[Hin|Hin]].
    + apply Hold. exists k. rewrite E1. apply in_or_app. now left.
    + injection Hin as _ <-. unfold pushed.
      destruct (get (groupItems items) (ToPropertyKey (item_conversationId x)))
        as [g0|] eqn:Eget.
      * cbn [g_conversationId g_conversationTitle]. apply Hold.
        exists (ToPropertyKey (item_conversationId x)). rewrite E1.
        unfold former. rewrite Eget. apply in_or_app. right. now left.
      * exists x. split; [apply in_or_app; right; now left|]. split; reflexivity.
    + apply Hold. exists k. rewrite E1. apply in_or_app. right. apply in_or_app. now right.
Qed.

Lemma nodup_map_inj (A B : Type) (f : A -> B) (l : list A) :
  NoDup (map f l) -> forall x y, In x l -> In y l -> f x = f y -> x = y.
Proof.
  induction l as [|a l IH]; intros Hn x y Hx Hy E; [destruct Hx|].
  cbn [map] in Hn. inversion Hn as [|? ? Hnotin Hrest]; subst.
  destruct Hx as [<-|Hx], Hy as [<-|Hy].
  - reflexivity.
  - exfalso. apply Hnotin. rewrite E. now apply in_map.
  - exfalso. apply Hnotin. rewrite <- E. now apply in_map.
  - now apply IH.
Qed.

End TitleFacts.

(* ================================================================= *)
(** ** Further properties of the embedding helpers *)

Section HelperProperties.
Import JS Db World ChatController Terms Steps.

(** X2.  [generateEmbedding] never throws and never touches the store.  A
    text that trims to fewer than three code units gives [null] without
    any request; any other text costs exactly one request, and the result
    is a vector exactly when the endpoint answered with a JSON body that
    has an [embedding]; an unreachable endpoint, an error status, a body
    that is no JSON and a body without [embedding] all give [null]. *)
Theorem generateEmbedding_null_on_every_failure (text : jsstring) (w : world) :
  exists result w',
    generateEmbedding text w = (Returned result, w') /\
    db w' = db w /\ outages w' = outages w /\
    (strlen (trim text) < 3 -> result = None /\ w' = w) /\
    (3 <= strlen (trim text) ->
     calls w' = calls w ++ [ProviderRequest text] /\
     ollama w' = tl (ollama w) /\
     forall e, result = Some e <-> hd Unreachable (ollama w) = Json (Some e)).
Proof.
  rewrite HelperFacts.generateEmbedding_step.
  pose proof (HelperLaws.accepted_length text) as Hacc.
  destruct (accepted text).
  - do 2 eexists. split; [reflexivity|]. split; [reflexivity|]. split; [reflexivity|].
    split.
    + intros Hlt. pose proof (proj1 Hacc eq_refl). lia.
    + intros _. split; [reflexivity|]. split; [reflexivity|].
      intros e. apply HelperLaws.vectorOf_Some.
  - do 2 eexists. split; [reflexivity|]. split; [reflexivity|]. split; [reflexivity|].
    split.
    + intros _. split; reflexivity.
    + intros Hge. apply Hacc in Hge. discriminate.
Qed.


(** X4.  [generateAndStoreEmbedding] is all or nothing for its message and
    leaves everything else alone.  On a store that satisfies the [UNIQUE]
    and the foreign-key constraint of [embeddings] it never throws, keeps
    both constraints, keeps [conversations], [messages] and the rows of
    every other message, and either leaves [embeddings] as it was or
    leaves the message with exactly one row, which holds the serialised
    vector the endpoint returned and the model name. *)
Theorem generateAndStoreEmbedding_all_or_nothing
  (JSON_stringify : list number -> jsstring)
  (messageId : Z) (content : jsstring) (w : world) :
  unique_message_id (db w) -> references_hold (db w) ->
  exists w',
    generateAndStoreEmbedding JSON_stringify messageId content w = (Returned tt, w') /\
    unique_message_id (db w') /\ references_hold (db w') /\
    conversations (db w') = conversations (db w) /\
    messages (db w') = messages (db w) /\
    (forall other, other <> messageId -> rowsOf other (db w') = rowsOf other (db w)) /\
    (embeddings (db w') = embeddings (db w) \/
     exists e row,
       hd Unreachable (ollama w) = Json (Some e) /\
       rowsOf messageId (db w') = [row] /\
       e_embedding_vector row = JSON_stringify e /\ e_model_name row = EMBEDDING_MODEL).
Proof.
  intros Hu Hr. rewrite HelperFacts.generateAndStoreEmbedding_step.
  destruct (accepted content).
  2:{ eexists. split; [reflexivity|]. repeat (split; [solve [auto]|]). now left. }
  destruct (vectorOf (hd Unreachable (ollama w))) as [e|] eqn:Hv.
  2:{ eexists. split; [reflexivity|]. repeat (split; [solve [auto]|]). now left. }
  apply HelperLaws.vectorOf_Some in Hv.
  rewrite HelperFacts.storeEmbedding_step. cbn [outages afterRequest db clock].
  destruct (hd false (outages w)).
  { eexists. split; [reflexivity|]. repeat (split; [solve [auto]|]). now left. }
  cbv zeta. cbn [snd db afterQuery].
  set (now := clock w + 1).
  pose proof (@UpsertFacts.upsertEmbedding_cases messageId (JSON_stringify e)
                EMBEDDING_MODEL (db w) now) as Hc.
  cbv zeta in Hc. destruct Hc as (Hconv & Hmsg & Hc).
  destruct (@UpsertFacts.upsertEmbedding_keeps_constraints messageId (JSON_stringify e)
              EMBEDDING_MODEL (db w) now Hu Hr) as [Hu' Hr'].
  eexists. split; [reflexivity|]. cbn [db afterQuery].
  split; [exact Hu'|]. split; [exact Hr'|]. split; [exact Hconv|]. split; [exact Hmsg|].
  split.
  { intros other Ho. now apply UpsertFacts.upsertEmbedding_other_rows. }
  assert (Hdone : fst (upsertEmbedding messageId (JSON_stringify e) EMBEDDING_MODEL (db w) now)
                  = Returned tt ->
                  exists row,
                    rowsOf messageId
                      (snd (upsertEmbedding messageId (JSON_stringify e) EMBEDDING_MODEL
                              (db w) now)) = [row] /\
                    e_embedding_vector row = JSON_stringify e /\
                    e_model_name row = EMBEDDING_MODEL).
  { intros Hf. apply HelperLaws.upsertEmbedding_pair in Hf.
    destruct (@StoreFacts.upsertEmbedding_one_row _ _ _ _ _ _ Hu Hf)
      as (_ & row & Hrow & Hvec & Hmod & _).
    exists row. auto. }
  destruct Hc as [(_ & Hf & _)|[(_ & _ & Hf & _)|(_ & _ & _ & E)]].
  - right. destruct (Hdone Hf) as (row & H1 & H2 & H3). exists e, row. auto.
  - right. destruct (Hdone Hf) as (row & H1 & H2 & H3). exists e, row. auto.
  - left. exact E.
Qed.


(** X6.  Round trip with the backfill: once [storeEmbedding] has returned
    [true] for a message, the statement of [generateMissingEmbeddings]
    does not select that message any more, for any user and any limit. *)
Theorem stored_message_leaves_the_backlog
  (JSON_stringify : list number -> jsstring)
  (messageId : Z) (embedding : list number) (w w' : world)
  (userId limit : Z) (rows : list unembedded_row) :
  storeEmbedding JSON_stringify messageId embedding w = (Returned true, w') ->
  selectUnembedded userId limit (db w') = Returned rows ->
  ~ In messageId (map ur_id rows).
Proof.
  intros Hs Hsel Hin. apply StoreFacts.storeEmbedding_true in Hs as [Hs _].
  apply HelperLaws.upsertEmbedding_rows in Hs as [Hne _].
  apply in_map_iff in Hin as (row & Hid & Hin).
  destruct (@SelectFacts.in_selectUnembedded _ _ _ _ _ Hsel Hin)
    as (m & c & _ & Hnone & _ & ->).
  cbn [ur_id] in Hid. rewrite Hid in Hnone. contradiction.
Qed.

(** X7.  Round trip with the search: once [storeEmbedding] has returned
    [true] for a message of a conversation of the user, the statement of
    [searchMessages] reads that message, every row it reads for it carries
    the serialised vector, and, when [JSON.parse] gives the vector back,
    the message is scored with the cosine similarity of the query and
    that vector. *)
Theorem stored_vector_is_what_search_scores
  (JSON_stringify : list number -> jsstring)
  (JSON_parse : jsstring -> completion (option (list number)))
  (embedding queryEmbedding : list number) (w w' : world)
  (userId : Z) (m : message_row) (c : conversation_row) :
  storeEmbedding JSON_stringify (m_id m) embedding w = (Returned true, w') ->
  In (m, c) (messagesOfUser (db w) userId) ->
  (exists row, In row (selectEmbedded userId (db w')) /\ er_id row = m_id m) /\
  (forall row, In row (selectEmbedded userId (db w')) -> er_id row = m_id m ->
               er_embedding_vector row = JSON_stringify embedding) /\
  (JSON_parse (JSON_stringify embedding) = Returned (Some embedding) ->
   exists msg,
     In msg (messagesWithScores JSON_parse queryEmbedding (selectEmbedded userId (db w'))) /\
     sm_id msg = m_id m /\ sm_conversationId msg = c_id c /\
     sm_content msg = m_content m /\
     sm_similarity msg = cosineSimilarity (Some queryEmbedding) (Some embedding)).
Proof.
  intros Hs Hmc. apply StoreFacts.storeEmbedding_true in Hs as [Hs _].
  destruct (@StoreFacts.upsertEmbedding_frame _ _ _ _ _ _ Hs) as [Hconv Hmsg].
  apply HelperLaws.upsertEmbedding_rows in Hs as [Hne Hall].
  assert (Hmc' : In (m, c) (messagesOfUser (db w') userId))
    by now rewrite (@SelectFacts.messagesOfUser_same_tables _ _ userId Hconv Hmsg).
  destruct (rowsOf (m_id m) (db w')) as [|e l] eqn:Hrows; [congruence|].
  assert (He : In e (rowsOf (m_id m) (db w'))) by (rewrite Hrows; now left).
  rewrite <- Hrows in Hall.
  set (row := {| er_id := m_id m;
                 er_conversation_id := m_conversation_id m;
                 er_role := m_sender m;
                 er_content := m_content m;
                 er_created_at := m_created_at m;
                 er_conversation_title := c_title c;
                 er_embedding_vector := e_embedding_vector e |}).
  assert (Hrow : In row (selectEmbedded userId (db w'))).
  { apply SelectFacts.in_selectEmbedded. exists m, c, e. auto. }
  split; [exists row; auto|]. split.
  - intros row' Hin Hid. apply SelectFacts.in_selectEmbedded in Hin
      as (m' & c' & e' & _ & He' & ->).
    cbn [er_id er_embedding_vector] in *. rewrite Hid in He'.
    now apply Hall.
  - intros Hparse.
    eexists. split.
    + apply SelectFacts.in_messagesWithScores. exists row, (Some embedding).
      split; [exact Hrow|]. split; [|reflexivity].
      cbn [row er_embedding_vector]. rewrite (proj1 (Hall e He)). exact Hparse.
    + cbn [sm_id sm_conversationId sm_content sm_similarity row er_id
           er_conversation_id er_content].
      apply SelectFacts.in_messagesOfUser in Hmc as (_ & _ & Hcid & _). auto.
Qed.


Lemma generateAndStoreEmbedding_all_or_nothing_witness :
  unique_message_id (db Examples.answering) /\
  references_hold (db Examples.answering) /\
  exists w',
    generateAndStoreEmbedding Examples.stringify 12 (lit "thanks, that helps")
      Examples.answering = (Returned tt, w') /\
    unique_message_id (db w') /\ references_hold (db w').
Proof.
  pose proof ExampleFacts.store_unique as Hu.
  pose proof ExampleFacts.store_references as Hr.
  split; [exact Hu|]. split; [exact Hr|].
  destruct (@generateAndStoreEmbedding_all_or_nothing Examples.stringify 12
              (lit "thanks, that helps") Examples.answering Hu Hr)
    as (w' & H & Hu' & Hr' & _).
  exists w'. auto.
Defined.


Lemma stored_message_leaves_the_backlog_witness :
  Examples.firstStore = (Returned true, snd Examples.firstStore) /\
  selectUnembedded 7 100 (db (snd Examples.firstStore)) = Returned [] /\
  ~ In 12 (map ur_id (@nil unembedded_row)).
Proof.
  assert (H : storeEmbedding Examples.stringify 12 [1; 0]%float Examples.answering
              = (Returned true, snd Examples.firstStore)) by (vm_compute; reflexivity).
  assert (Hsel : selectUnembedded 7 100 (db (snd Examples.firstStore)) = Returned [])
    by (vm_compute; reflexivity).
  split; [exact H|]. split; [exact Hsel|].
  exact (@stored_message_leaves_the_backlog Examples.stringify 12 [1; 0]%float
           Examples.answering (snd Examples.firstStore) 7 100 [] H Hsel).
Defined.

Lemma stored_vector_is_what_search_scores_witness :
  Examples.firstStore = (Returned true, snd Examples.firstStore) /\
  exists row,
    In row (selectEmbedded 7 (db (snd Examples.firstStore))) /\ er_id row = 12.
Proof.
  assert (H : storeEmbedding Examples.stringify
                (m_id {| m_id := 12; m_conversation_id := 2; m_sender := SenderUser;
                         m_content := lit "thanks, that helps"; m_created_at := 300 |})
                [1; 0]%float Examples.answering
              = (Returned true, snd Examples.firstStore)) by (vm_compute; reflexivity).
  assert (Hin : In ({| m_id := 12; m_conversation_id := 2; m_sender := SenderUser;
                       m_content := lit "thanks, that helps"; m_created_at := 300 |},
                    {| c_id := 2; c_user_id := 7; c_title := lit "Indexes" |})
                   (messagesOfUser (db Examples.answering) 7)).
  { apply SelectFacts.in_messagesOfUser. cbn.
    split; [right; right; left; reflexivity|]. split; [right; left; reflexivity|].
    split; reflexivity. }
  split; [exact H|].
  exact (proj1 (@stored_vector_is_what_search_scores Examples.stringify Examples.parse
                  [1; 0]%float [1; 0]%float Examples.answering (snd Examples.firstStore)
                  7 _ _ H Hin)).
Defined.

End HelperProperties.

(* ================================================================= *)
(** ** Further properties of the ranking *)

Section RankingProperties.
Import JS Db World ChatController Terms Ties.

(** X8.  The cut at fifty drops only the least similar candidates: when a
    scored message at or above the threshold is missing from the ranked
    list, the list has fifty elements and each of them is at least as
    similar to the query as the missing one. *)
Theorem ranking_drops_only_the_least_similar
  (scored : list scored_message) (msg : scored_message) :
  In msg scored -> relevant msg -> ~ In msg (relevantMessages scored) ->
  List.length (relevantMessages scored) = 50%nat /\
  forall kept, In kept (relevantMessages scored) ->
               ge (sm_similarity kept) (sm_similarity msg) = true.
Proof.
  intros Hin Hrel Hout.
  pose proof (RankingFacts.candidates_sorted scored) as Hs.
  unfold relevantMessages, slice0 in *.
  set (sorted := sort bySimilarity
                   (filter (fun msg => ge (sm_similarity msg) SIMILARITY_THRESHOLD) scored))
    in *.
  assert (Hmsg : In msg sorted).
  { apply (Permutation_in _ (SortFacts.sort_permutation bySimilarity _)).
    apply filter_In. split; [exact Hin|exact Hrel]. }
  rewrite <- (firstn_skipn 50 sorted) in Hmsg, Hs.
  apply in_app_or in Hmsg as [Hmsg|Hmsg]; [contradiction|].
  split.
  - apply firstn_length_le.
    destruct (Nat.le_gt_cases 50 (List.length sorted)) as [H|H]; [exact H|].
    rewrite skipn_all2 in Hmsg by lia. destruct Hmsg.
  - intros kept Hk.
    apply (@RankingFacts.StronglySorted_app_inv _ _ _ _ Hs kept msg Hk Hmsg).
Qed.

(** X9.  When at most fifty scored messages are at or above the threshold,
    the ranked list holds exactly those messages, each as often as it was
    scored. *)
Theorem ranking_keeps_every_candidate_up_to_fifty (scored : list scored_message) :
  (List.length (filter (fun msg => ge (sm_similarity msg) SIMILARITY_THRESHOLD) scored)
   <= 50)%nat ->
  Permutation (relevantMessages scored)
    (filter (fun msg => ge (sm_similarity msg) SIMILARITY_THRESHOLD) scored).
Proof.
  intros Hlen. unfold relevantMessages, slice0.
  pose proof (SortFacts.sort_permutation bySimilarity
                (filter (fun msg => ge (sm_similarity msg) SIMILARITY_THRESHOLD) scored))
    as Hperm.
  rewrite firstn_all2.
  - now apply Permutation_sym.
  - now rewrite <- (Permutation_length Hperm).
Qed.

(** X10.  Ranking is idempotent: filtering, sorting and cutting a list that
    is already ranked gives the same list, in the same order. *)
Theorem ranking_is_idempotent (scored : list scored_message) :
  relevantMessages (relevantMessages scored) = relevantMessages scored.
Proof.
  destruct (RankFacts.relevantMessages_ranked scored) as (Hrel & _ & Hlen & _).
  pose proof (RankingFacts.ranked_sorted scored) as Hs.
  set (ranked := relevantMessages scored) in *.
  unfold relevantMessages at 1. unfold slice0.
  rewrite (@RankingFacts.filter_all _ _ ranked Hrel).
  rewrite (RankingFacts.sort_fixed Hs).
  now apply firstn_all2.
Qed.

Lemma ranking_drops_only_the_least_similar_witness :
  In (Examples.scoredAt 0 1 0.5%float) MoreExamples.crowded /\
  relevant (Examples.scoredAt 0 1 0.5%float) /\
  ~ In (Examples.scoredAt 0 1 0.5%float) (relevantMessages MoreExamples.crowded) /\
  List.length (relevantMessages MoreExamples.crowded) = 50%nat.
Proof.
  assert (Hin : In (Examples.scoredAt 0 1 0.5%float) MoreExamples.crowded)
    by (left; reflexivity).
  assert (Hrel : relevant (Examples.scoredAt 0 1 0.5%float)) by reflexivity.
  assert (Hout : ~ In (Examples.scoredAt 0 1 0.5%float)
                      (relevantMessages MoreExamples.crowded)).
  { assert (Hids : forallb (fun msg => negb (sm_id msg =? 0))
                           (relevantMessages MoreExamples.crowded) = true)
      by (vm_compute; reflexivity).
    intros H. apply (proj1 (forallb_forall _ _) Hids) in H. discriminate. }
  split; [exact Hin|]. split; [exact Hrel|]. split; [exact Hout|].
  exact (proj1 (@ranking_drops_only_the_least_similar _ _ Hin Hrel Hout)).
Defined.

Lemma ranking_keeps_every_candidate_up_to_fifty_witness :
  Permutation
    (relevantMessages
       (messagesWithScores Examples.parse [1; 0]%float (selectEmbedded 7 Examples.store)))
    (filter (fun msg => ge (sm_similarity msg) SIMILARITY_THRESHOLD)
       (messagesWithScores Examples.parse [1; 0]%float (selectEmbedded 7 Examples.store))).
Proof.
  apply ranking_keeps_every_candidate_up_to_fifty.
  apply Nat.leb_le. vm_compute. reflexivity.
Defined.

(** X11.  The ranking is stable: for every score, the ranked messages of
    that score are the first ones of that score in the order they were
    scored.  The rows are scored in the order of the statement, so in a
    ranking of the embedded messages of a user, messages of one score
    run newest first. *)
Theorem ranking_keeps_ties_newest_first
  (JSON_parse : jsstring -> completion (option (list number))) :
  (forall scored s,
     exists n,
       filter (scoresAs s) (relevantMessages scored)
       = firstn n (filter (scoresAs s) scored)) /\
  (forall qe userId db s,
     StronglySorted (fun a b => sm_createdAt b <= sm_createdAt a)
       (filter (scoresAs s)
          (relevantMessages
             (messagesWithScores JSON_parse qe (selectEmbedded userId db))))).
Proof.
  assert (Hties : forall scored s,
            exists n,
              filter (scoresAs s) (relevantMessages scored)
              = firstn n (filter (scoresAs s) scored)).
  { intros scored s. unfold relevantMessages, slice0.
    destruct (ListFacts.filter_firstn (scoresAs s) 50
                (sort bySimilarity
                   (filter (fun msg => ge (sm_similarity msg) SIMILARITY_THRESHOLD) scored)))
      as (n & E).
    rewrite E, (StableFacts.sort_stable s (RankingFacts.candidates_relevant scored)).
    rewrite ListFacts.filter_filter.
    destruct (ge s SIMILARITY_THRESHOLD) eqn:Hs.
    - exists n. f_equal. apply filter_ext. intros msg. unfold scoresAs.
      destruct (PrimFloat.Leibniz.eqb (sm_similarity msg) s) eqn:Em.
      + apply FloatAxioms.Leibniz.eqb_spec in Em. now rewrite Em, Hs.
      + apply andb_false_r.
    - exists 0%nat. rewrite (@GroupFacts.filter_none _ _ scored).
      + now rewrite firstn_nil.
      + intros msg _. unfold scoresAs.
        destruct (PrimFloat.Leibniz.eqb (sm_similarity msg) s) eqn:Em.
        * apply FloatAxioms.Leibniz.eqb_spec in Em. now rewrite Em, Hs.
        * apply andb_false_r. }
  split; [exact Hties|].
  intros qe userId db s.
  destruct (Hties (messagesWithScores JSON_parse qe (selectEmbedded userId db)) s)
    as (n & ->).
  apply SortFacts.StronglySorted_firstn, SortFacts.StronglySorted_filter.
  apply StableFacts.messagesWithScores_sorted.
  unfold selectEmbedded. apply OrderFacts.orderByDesc_sorted.
Qed.

End RankingProperties.

(* ================================================================= *)
(** ** Further properties of the search *)

Section SearchProperties.
Import JS Db World ChatController Terms Steps.

(** X12.  A search always answers and never changes the store, and what
    it calls is fixed by the query and the replies.  For a missing query
    or one that trims to fewer than three code units it calls nothing
    and leaves the world as it is.  For any other query it makes exactly
    one request to the embedding endpoint and then: the keyword
    statement alone, when the endpoint gave no vector; the statement that
    reads the embedded messages alone, when that statement fails or some
    message is relevant; both statements in that order, when it
    succeeds and no message is relevant.  It never issues a writing
    statement. *)
Theorem search_never_writes
  (JSON_parse : jsstring -> completion (option (list number)))
  (ILIKE : jsstring -> jsstring -> bool)
  (userId : Z) (query : option jsstring) (w : world) :
  exists resp w' log,
    searchMessages JSON_parse ILIKE userId query w = (Returned resp, w') /\
    db w' = db w /\
    calls w' = calls w ++ log /\
    match query with
    | None => log = [] /\ w' = w
    | Some q =>
        let embedded := StoreQuery (SelectEmbedded userId) in
        let matching := StoreQuery (SelectKeyword userId (lit "%" ++ q ++ lit "%")) in
        if accepted q then
          match vectorOf (hd Unreachable (ollama w)) with
          | None => log = [ProviderRequest q; matching]
          | Some qe =>
              if hd false (outages w) || negb (int4 userId)
              then log = [ProviderRequest q; embedded]
              else
                match
                  relevantMessages
                    (messagesWithScores JSON_parse qe (selectEmbedded userId (db w)))
                with
                | [] => log = [ProviderRequest q; embedded; matching]
                | _ :: _ => log = [ProviderRequest q; embedded]
                end
          end
        else log = [] /\ w' = w
    end.
Proof.
  destruct query as [q|].
  2:{ rewrite SearchRuns.searchMessages_rejects by exact I.
      do 2 eexists. exists []. split; [reflexivity|]. split; [reflexivity|].
      split; [now rewrite app_nil_r|split; reflexivity]. }
  cbv zeta. destruct (accepted q) eqn:Hacc.
  2:{ rewrite SearchRuns.searchMessages_rejects by exact Hacc.
      do 2 eexists. exists []. split; [reflexivity|]. split; [reflexivity|].
      split; [now rewrite app_nil_r|split; reflexivity]. }
  rewrite (@SearchRuns.searchMessages_run JSON_parse ILIKE userId q w Hacc).
  destruct (vectorOf (hd Unreachable (ollama w))) as [qe|].
  2:{ rewrite SearchRuns.performKeywordSearch_step.
      do 3 eexists. split; [reflexivity|]. split; [reflexivity|].
      cbn [calls afterQuery afterRequest]. rewrite <- app_assoc.
      split; reflexivity. }
  cbv zeta. destruct (hd false (outages w) || negb (int4 userId)).
  { do 3 eexists. split; [reflexivity|]. split; [reflexivity|].
    cbn [calls afterQuery afterRequest]. rewrite <- app_assoc.
    split; reflexivity. }
  destruct (relevantMessages _).
  - rewrite SearchRuns.performKeywordSearch_step.
    do 3 eexists. split; [reflexivity|]. split; [reflexivity|].
    cbn [calls afterQuery afterRequest]. rewrite <- !app_assoc.
    split; reflexivity.
  - do 3 eexists. split; [reflexivity|]. split; [reflexivity|].
    cbn [calls afterQuery afterRequest]. rewrite <- app_assoc.
    split; reflexivity.
Qed.

(** X13.  A search shows a user nothing but that user's messages: every
    hit of every group of a result, semantic or keyword, is a stored
    message of a conversation of [userId], shown with its own id, sender,
    content and time, in the group of its conversation. *)
Theorem search_shows_only_the_users_messages
  (JSON_parse : jsstring -> completion (option (list number)))
  (ILIKE : jsstring -> jsstring -> bool)
  (userId : Z) (query : option jsstring) (w w' : world)
  (groups : list group) (total : Z) (ty : search_type) (model : option jsstring) :
  searchMessages JSON_parse ILIKE userId query w
  = (Returned (SearchResult groups total ty model), w') ->
  forall g h, In g groups -> In h (g_messages g) ->
    exists m c,
      In (m, c) (messagesOfUser (db w) userId) /\
      id h = m_id m /\ role h = m_sender m /\ content h = m_content m /\
      createdAt h = m_created_at m /\
      conversationId h = c_id c /\ g_conversationId g = c_id c.
Proof.
  intros H g h Hg Hh.
  apply SearchRuns.searchMessages_result in H
    as (q & _ & _ & [(_ & E)|(_ & qe & _ & _ & _ & E)]).
  - unfold keywordResult in E. cbv zeta in E. injection E as -> _.
    destruct (SearchRuns.in_keyword_group _ _ _ Hg Hh) as (Hc & row & Hrow & ->).
    apply SelectFacts.in_selectKeyword in Hrow as (m & c & Hmc & _ & ->).
    exists m, c. cbn in Hc |- *.
    pose proof (proj1 (SelectFacts.in_messagesOfUser _ _ _ _) Hmc) as (_ & _ & Hcid & _).
    repeat (split; [solve [auto]|]). congruence.
  - unfold semanticResult in E. cbv zeta in E. injection E as -> _.
    destruct (SearchRuns.in_semantic_group _ _ _ Hg Hh) as (Hc & msg & Hmsg & ->).
    apply RankFacts.relevantMessages_ranked in Hmsg.
    apply SelectFacts.in_messagesWithScores in Hmsg as (row & v & Hrow & _ & ->).
    apply SelectFacts.in_selectEmbedded in Hrow as (m & c & e & Hmc & _ & ->).
    exists m, c. cbn in Hc |- *.
    pose proof (proj1 (SelectFacts.in_messagesOfUser _ _ _ _) Hmc) as (_ & _ & Hcid & _).
    repeat (split; [solve [auto]|]). congruence.
Qed.

(** X14.  A keyword result holds at most fifty hits; the content of each
    matches the pattern [%query%] under the store's [ILIKE]; and inside
    every group the hits are in the order of the statement, newest
    first. *)
Theorem keyword_hits_match_and_run_newest_first
  (JSON_parse : jsstring -> completion (option (list number)))
  (ILIKE : jsstring -> jsstring -> bool)
  (userId : Z) (query : jsstring) (w w' : world)
  (groups : list group) (total : Z) (model : option jsstring) :
  searchMessages JSON_parse ILIKE userId (Some query) w
  = (Returned (SearchResult groups total keyword model), w') ->
  0 <= total <= 50 /\ model = None /\
  forall g, In g groups ->
    (forall h, In h (g_messages g) ->
               ILIKE (content h) (lit "%" ++ query ++ lit "%") = true) /\
    StronglySorted (fun h1 h2 => createdAt h2 <= createdAt h1) (g_messages g).
Proof.
  intros H.
  apply SearchRuns.searchMessages_result in H
    as (q & Eq & _ & [(_ & E)|(Hty & _)]); [|discriminate].
  injection Eq as <-.
  unfold keywordResult in E. cbv zeta in E.
  set (rows := selectKeyword ILIKE userId (lit "%" ++ query ++ lit "%") (db w)) in E.
  assert (Eg : groups = values (groupKeyword rows)) by congruence.
  assert (Et : total = count rows) by congruence.
  assert (Em : model = None) by congruence.
  clear E. subst groups total model.
  split; [|split; [reflexivity|]].
  - pose proof (SelectFacts.selectKeyword_length ILIKE userId
                  (lit "%" ++ query ++ lit "%") (db w)) as Hlen.
    fold rows in Hlen. unfold count. lia.
  - intros g Hg. split.
    + intros h Hh.
      destruct (SearchRuns.in_keyword_group _ _ _ Hg Hh) as (_ & row & Hrow & ->).
      apply SelectFacts.in_selectKeyword in Hrow as (m & c & _ & Hlike & ->).
      exact Hlike.
    + rewrite GroupFacts.groupKeyword_items in Hg.
      destruct (@ResponseFacts.groups_partition _ (ResponseFacts.keywordItems_coherent rows))
        as (_ & _ & Hf & _).
      rewrite (Hf g Hg). apply SortFacts.StronglySorted_filter.
      rewrite map_map.
      apply (@SortFacts.StronglySorted_map _ _
               (fun a b => kr_created_at b <= kr_created_at a)).
      * intros x y Hxy. exact Hxy.
      * unfold rows, selectKeyword. apply SortFacts.StronglySorted_firstn.
        apply OrderFacts.orderByDesc_sorted.
Qed.

(** X15.  A semantic result is built from the vector the endpoint returned
    for the query: every hit is a row of the user's embedded messages
    whose stored text parses to a vector of the length of the query
    vector, and the hit's [similarity] is the cosine similarity of the
    two, at or above the threshold.  Rows whose vector does not parse, is
    [null], or has another length never appear. *)
Theorem semantic_hits_carry_the_cosine_similarity
  (JSON_parse : jsstring -> completion (option (list number)))
  (ILIKE : jsstring -> jsstring -> bool)
  (userId : Z) (query : option jsstring) (w w' : world)
  (groups : list group) (total : Z) (model : option jsstring) :
  searchMessages JSON_parse ILIKE userId query w
  = (Returned (SearchResult groups total semantic model), w') ->
  exists qe,
    hd Unreachable (ollama w) = Json (Some qe) /\
    forall g h, In g groups -> In h (g_messages g) ->
      exists row v,
        In row (selectEmbedded userId (db w)) /\
        JSON_parse (er_embedding_vector row) = Returned (Some v) /\
        List.length v = List.length qe /\
        id h = er_id row /\
        similarity h = SimNumber (cosineSimilarity (Some qe) (Some v)) /\
        ge (cosineSimilarity (Some qe) (Some v)) SIMILARITY_THRESHOLD = true.
Proof.
  intros H.
  apply SearchRuns.searchMessages_result in H
    as (q & _ & _ & [(Hty & _)|(_ & qe & Hqe & _ & _ & E)]); [discriminate|].
  exists qe. split; [exact Hqe|]. intros g h Hg Hh.
  unfold semanticResult in E. cbv zeta in E. injection E as -> _.
  destruct (SearchRuns.in_semantic_group _ _ _ Hg Hh) as (_ & msg & Hmsg & ->).
  destruct (RankFacts.relevantMessages_ranked
              (messagesWithScores JSON_parse qe (selectEmbedded userId (db w))))
    as (Hrel & _ & _ & Hsub).
  pose proof (proj1 (Forall_forall _ _) Hrel msg Hmsg) as Hr. unfold relevant in Hr.
  apply Hsub in Hmsg.
  apply SelectFacts.in_messagesWithScores in Hmsg as (row & v & Hrow & Hparse & ->).
  cbn [sm_similarity] in Hr.
  destruct v as [v|].
  2:{ exfalso. revert Hr. now vm_compute. }
  destruct (Nat.eq_dec (List.length qe) (List.length v)) as [Hlen|Hlen].
  2:{ exfalso. rewrite (CosineFacts.cosineSimilarity_lengths _ _ Hlen) in Hr.
      revert Hr. now vm_compute. }
  exists row, v. split; [exact Hrow|]. split; [exact Hparse|].
  split; [now symmetry|]. split; [reflexivity|]. split; [reflexivity|exact Hr].
Qed.


Lemma search_shows_only_the_users_messages_witness :
  searchMessages Examples.parse Examples.matchAll 7 (Some Examples.theQuery)
    Examples.answering
  = (Returned (SearchResult (Examples.groupsOf Examples.semanticRun) 2 semantic
                 (Some EMBEDDING_MODEL)),
     snd Examples.semanticRun) /\
  forall g h, In g (Examples.groupsOf Examples.semanticRun) -> In h (g_messages g) ->
    exists m c,
      In (m, c) (messagesOfUser Examples.store 7) /\
      id h = m_id m /\ role h = m_sender m /\ content h = m_content m /\
      createdAt h = m_created_at m /\
      conversationId h = c_id c /\ g_conversationId g = c_id c.
Proof.
  assert (H : searchMessages Examples.parse Examples.matchAll 7 (Some Examples.theQuery)
                Examples.answering
              = (Returned (SearchResult (Examples.groupsOf Examples.semanticRun) 2 semantic
                             (Some EMBEDDING_MODEL)),
                 snd Examples.semanticRun)) by (vm_compute; reflexivity).
  split; [exact H|].
  exact (@search_shows_only_the_users_messages _ _ _ _ _ _ _ _ _ _ H).
Defined.

Lemma keyword_hits_match_and_run_newest_first_witness :
  searchMessages Examples.parse Examples.matchAll 7 (Some Examples.theQuery)
    Examples.offline
  = (Returned (SearchResult (Examples.groupsOf MoreExamples.keywordRun) 3 keyword None),
     snd MoreExamples.keywordRun) /\
  0 <= 3 <= 50 /\
  forall g, In g (Examples.groupsOf MoreExamples.keywordRun) ->
            StronglySorted (fun h1 h2 => createdAt h2 <= createdAt h1) (g_messages g).
Proof.
  assert (H : searchMessages Examples.parse Examples.matchAll 7 (Some Examples.theQuery)
                Examples.offline
              = (Returned (SearchResult (Examples.groupsOf MoreExamples.keywordRun) 3
                             keyword None),
                 snd MoreExamples.keywordRun)) by (vm_compute; reflexivity).
  split; [exact H|].
  destruct (@keyword_hits_match_and_run_newest_first _ _ _ _ _ _ _ _ _ H)
    as (Htotal & _ & Hgroups).
  split; [exact Htotal|]. intros g Hg. exact (proj2 (Hgroups g Hg)).
Defined.

Lemma semantic_hits_carry_the_cosine_similarity_witness :
  searchMessages Examples.parse Examples.matchAll 7 (Some Examples.theQuery)
    Examples.answering
  = (Returned (SearchResult (Examples.groupsOf Examples.semanticRun) 2 semantic
                 (Some EMBEDDING_MODEL)),
     snd Examples.semanticRun) /\
  exists qe,
    hd Unreachable (ollama Examples.answering) = Json (Some qe) /\
    forall g h, In g (Examples.groupsOf Examples.semanticRun) -> In h (g_messages g) ->
      exists row v,
        In row (selectEmbedded 7 Examples.store) /\
        Examples.parse (er_embedding_vector row) = Returned (Some v) /\
        similarity h = SimNumber (cosineSimilarity (Some qe) (Some v)).
Proof.
  assert (H : searchMessages Examples.parse Examples.matchAll 7 (Some Examples.theQuery)
                Examples.answering
              = (Returned (SearchResult (Examples.groupsOf Examples.semanticRun) 2 semantic
                             (Some EMBEDDING_MODEL)),
                 snd Examples.semanticRun)) by (vm_compute; reflexivity).
  split; [exact H|].
  destruct (@semantic_hits_carry_the_cosine_similarity _ _ _ _ _ _ _ _ _ H)
    as (qe & Hqe & Hhits).
  exists qe. split; [exact Hqe|]. intros g h Hg Hh.
  destruct (Hhits g h Hg Hh) as (row & v & Hrow & Hparse & _ & _ & Hsim & _).
  exists row, v. auto.
Defined.


(** X17.  Every group of a search result, semantic or keyword, carries the
    id and the title of a conversation of the user; where conversation
    ids are unique, as the primary key makes them, it is the title of
    the conversation the group stands for. *)
Theorem search_groups_carry_the_title_of_a_conversation
  (JSON_parse : jsstring -> completion (option (list number)))
  (ILIKE : jsstring -> jsstring -> bool)
  (userId : Z) (query : option jsstring) (w w' : world)
  (groups : list group) (total : Z) (ty : search_type) (model : option jsstring) :
  searchMessages JSON_parse ILIKE userId query w
  = (Returned (SearchResult groups total ty model), w') ->
  forall g, In g groups ->
    (exists c,
       In c (conversations (db w)) /\ c_user_id c = userId /\
       c_id c = g_conversationId g /\ c_title c = g_conversationTitle g) /\
    (NoDup (map c_id (conversations (db w))) ->
     forall c, In c (conversations (db w)) -> c_id c = g_conversationId g ->
               c_title c = g_conversationTitle g).
Proof.
  intros H g Hg.
  assert (Hc : exists c,
             In c (conversations (db w)) /\ c_user_id c = userId /\
             c_id c = g_conversationId g /\ c_title c = g_conversationTitle g).
  { apply SearchRuns.searchMessages_result in H
      as (q & _ & _ & [(_ & E)|(_ & qe & _ & _ & _ & E)]).
    - unfold keywordResult in E. cbv zeta in E. injection E as -> _.
      rewrite GroupFacts.groupKeyword_items in Hg.
      destruct (TitleFacts.groupItems_titles _ _ Hg) as (x & Hx & Hcid & Ht).
      apply in_map_iff in Hx as (row & <- & Hrow).
      apply SelectFacts.in_selectKeyword in Hrow as (m & c & Hmc & _ & ->).
      apply SelectFacts.in_messagesOfUser in Hmc as (_ & Hin & Hm & Hu).
      exists c. cbn in Hcid, Ht. repeat split; congruence.
    - unfold semanticResult in E. cbv zeta in E. injection E as -> _.
      rewrite GroupFacts.groupSemantic_items in Hg.
      destruct (TitleFacts.groupItems_titles _ _ Hg) as (x & Hx & Hcid & Ht).
      apply in_map_iff in Hx as (msg & <- & Hmsg).
      apply RankFacts.relevantMessages_ranked in Hmsg.
      apply SelectFacts.in_messagesWithScores in Hmsg as (row & v & Hrow & _ & ->).
      apply SelectFacts.in_selectEmbedded in Hrow as (m & c & e & Hmc & _ & ->).
      apply SelectFacts.in_messagesOfUser in Hmc as (_ & Hin & Hm & Hu).
      exists c. cbn in Hcid, Ht. repeat split; congruence. }
  split; [exact Hc|].
  intros Hnodup c Hin Hid. destruct Hc as (c0 & Hin0 & _ & Hid0 & Ht0).
  rewrite <- Ht0. f_equal.
  apply (@TitleFacts.nodup_map_inj _ _ c_id (conversations (db w)) Hnodup c c0 Hin Hin0).
  congruence.
Qed.

Lemma search_groups_carry_the_title_of_a_conversation_witness :
  searchMessages Examples.parse Examples.matchAll 7 (Some Examples.theQuery)
    Examples.answering
  = (Returned (SearchResult (Examples.groupsOf Examples.semanticRun) 2 semantic
                 (Some EMBEDDING_MODEL)),
     snd Examples.semanticRun) /\
  forall g, In g (Examples.groupsOf Examples.semanticRun) ->
    exists c,
      In c (conversations Examples.store) /\ c_user_id c = 7 /\
      c_id c = g_conversationId g /\ c_title c = g_conversationTitle g.
Proof.
  assert (H : searchMessages Examples.parse Examples.matchAll 7 (Some Examples.theQuery)
                Examples.answering
              = (Returned (SearchResult (Examples.groupsOf Examples.semanticRun) 2 semantic
                             (Some EMBEDDING_MODEL)),
                 snd Examples.semanticRun)) by (vm_compute; reflexivity).
  split; [exact H|]. intros g Hg.
  exact (proj1 (@search_groups_carry_the_title_of_a_conversation _ _ _ _ _ _ _ _ _ _ H g Hg)).
Defined.

End SearchProperties.

(* ================================================================= *)
(** ** Further properties of the backfill job *)

Section BackfillProperties.
Import JS Db World ChatController Terms Steps Backfill.

(** X18.  The backfill job never throws and only adds to [embeddings]: the
    tables [conversations] and [messages] and every row that was in
    [embeddings] are as before; the rows it appends carry the model name
    and belong to messages of the user that had no row; it appends at
    most one row per processed message; and the [UNIQUE] and foreign-key
    constraints of [embeddings] survive. *)
Theorem backfill_only_appends_rows_for_fetched_messages
  (JSON_stringify : list number -> jsstring)
  (userId : Z) (limit : option Z) (w : world) :
  exists resp w' added,
    generateMissingEmbeddings JSON_stringify userId limit w = (Returned resp, w') /\
    conversations (db w') = conversations (db w) /\
    messages (db w') = messages (db w) /\
    embeddings (db w') = embeddings (db w) ++ added /\
    Forall (fun e =>
              e_model_name e = EMBEDDING_MODEL /\
              exists m c,
                In (m, c) (messagesOfUser (db w) userId) /\
                e_message_id e = m_id m /\ rowsOf (m_id m) (db w) = [])
           added /\
    (forall r, resp = BackfillResult r -> Z.of_nat (List.length added) <= totalProcessed r) /\
    (unique_message_id (db w) -> references_hold (db w) ->
     unique_message_id (db w') /\ references_hold (db w')).
Proof.
  rewrite BackfillRuns.generateMissingEmbeddings_run. cbv zeta.
  assert (Hfailed :
            exists (resp : response) (w' : world) (added : list embedding_row),
              (Returned (ErrorResponse 500 "Failed to generate embeddings"),
               afterQuery (SelectUnembedded userId (limitOf limit)) (db w) w)
              = (Returned resp, w') /\
              conversations (db w') = conversations (db w) /\
              messages (db w') = messages (db w) /\
              embeddings (db w') = embeddings (db w) ++ added /\
              Forall (fun e =>
                        e_model_name e = EMBEDDING_MODEL /\
                        exists m c,
                          In (m, c) (messagesOfUser (db w) userId) /\
                          e_message_id e = m_id m /\ rowsOf (m_id m) (db w) = [])
                     added /\
              (forall r, resp = BackfillResult r ->
                         Z.of_nat (List.length added) <= totalProcessed r) /\
              (unique_message_id (db w) -> references_hold (db w) ->
               unique_message_id (db w') /\ references_hold (db w'))).
  { do 2 eexists. exists []. split; [reflexivity|]. cbn [db afterQuery].
    split; [reflexivity|]. split; [reflexivity|]. split; [now rewrite app_nil_r|].
    split; [constructor|]. split; [discriminate|auto]. }
  destruct (hd false (outages w)); [exact Hfailed|].
  destruct (selectUnembedded userId (limitOf limit) (db w)) as [rows|msg] eqn:Esel;
    [clear Hfailed|exact Hfailed].
  set (fetched := afterQuery (SelectUnembedded userId (limitOf limit)) (db w) w).
  assert (Hrows : forall row, In row rows ->
            exists m c, In (m, c) (messagesOfUser (db w) userId) /\
                        ur_id row = m_id m /\ rowsOf (m_id m) (db w) = []).
  { intros row Hin.
    destruct (@SelectFacts.in_selectUnembedded _ _ _ _ _ Esel Hin)
      as (m & c & Hmc & Hnone & _ & ->).
    exists m, c. auto. }
  destruct (@BackfillLoop.afterRows_store JSON_stringify (map ur_id rows)
              (embeddings (db w)) rows) with (w := fetched) (added := @nil embedding_row)
    as (added & E & Hadded & Hlen & Ec & Em).
  { intros e He Hin. apply in_map_iff in Hin as (row & Hid & Hin).
    destruct (Hrows row Hin) as (m & c & _ & Hm & Hnone).
    apply (@BackfillLoop.rowsOf_none _ _ e Hnone He). congruence. }
  { apply Forall_forall. intros row Hin. now apply in_map. }
  { cbn [fetched db afterQuery]. now rewrite app_nil_r. }
  { constructor. }
  do 2 eexists. exists added. split; [reflexivity|].
  split; [exact Ec|]. split; [exact Em|]. split; [exact E|].
  split; [|split].
  - apply Forall_forall. intros e He.
    pose proof (proj1 (Forall_forall _ _) Hadded e He) as [Hin Hmod].
    split; [exact Hmod|]. apply in_map_iff in Hin as (row & Hid & Hin).
    destruct (Hrows row Hin) as (m & c & Hmc & Hm & Hnone).
    exists m, c. split; [exact Hmc|]. split; [congruence|exact Hnone].
  - intros r Hr. unfold backfillResult in Hr. cbn [List.length] in Hlen.
    destruct (count rows =? 0) eqn:Ecount.
    + apply SearchFacts.count_zero in Ecount. subst rows. cbn in Hlen.
      injection Hr as <-. cbn. lia.
    + injection Hr as <-. cbn [totalProcessed]. unfold count. lia.
  - intros Hu Hr. apply BackfillLoop.afterRows_keeps_constraints; assumption.
Qed.

(** X19.  What the backfill job does outside: its select, and then, per
    processed message, at most one request to the embedding endpoint,
    each followed by at most one upsert.  When the job answers with an
    error it has made no request and no upsert. *)
Theorem backfill_calls_are_bounded_by_the_rows
  (JSON_stringify : list number -> jsstring)
  (userId : Z) (limit : option Z) (w : world) :
  exists resp w' log,
    generateMissingEmbeddings JSON_stringify userId limit w = (Returned resp, w') /\
    calls w' = calls w ++ StoreQuery (SelectUnembedded userId (limitOf limit)) :: log /\
    Forall (fun ev => isRequest ev || isUpsert ev = true) log /\
    (List.length (upserts log) <= List.length (requests log))%nat /\
    match resp with
    | BackfillResult r => Z.of_nat (List.length (requests log)) <= totalProcessed r
    | _ => log = []
    end.
Proof.
  rewrite BackfillRuns.generateMissingEmbeddings_run. cbv zeta.
  assert (Hfailed :
            exists (resp : response) (w' : world) (log : list event),
              (Returned (ErrorResponse 500 "Failed to generate embeddings"),
               afterQuery (SelectUnembedded userId (limitOf limit)) (db w) w)
              = (Returned resp, w') /\
              calls w' =
              calls w ++ StoreQuery (SelectUnembedded userId (limitOf limit)) :: log /\
              Forall (fun ev => isRequest ev || isUpsert ev = true) log /\
              (List.length (upserts log) <= List.length (requests log))%nat /\
              match resp with
              | BackfillResult r =>
                  Z.of_nat (List.length (requests log)) <= totalProcessed r
              | _ => log = []
              end).
  { do 2 eexists. exists []. split; [reflexivity|]. split; [reflexivity|].
    split; [constructor|]. split; [cbn; lia|reflexivity]. }
  destruct (hd false (outages w)); [exact Hfailed|].
  destruct (selectUnembedded userId (limitOf limit) (db w)) as [rows|msg] eqn:Esel;
    [clear Hfailed|exact Hfailed].
  destruct (BackfillLoop.afterRows_calls JSON_stringify rows
              (afterQuery (SelectUnembedded userId (limitOf limit)) (db w) w))
    as (log & E & Hall & Hreq & Hup).
  do 2 eexists. exists log. split; [reflexivity|].
  split; [rewrite E; cbn [calls afterQuery]; now rewrite <- app_assoc|].
  split; [exact Hall|]. split; [exact Hup|].
  unfold backfillResult. destruct (count rows =? 0) eqn:Ecount.
  - apply SearchFacts.count_zero in Ecount. subst rows. cbn in Hreq. cbn. lia.
  - cbn [totalProcessed]. unfold count. lia.
Qed.

(** X20.  For an integer [userId], the backfill job answers with status
    500 exactly when its select fails: the store cannot be reached, the
    limit is negative or no [bigint], or [userId] is outside the 32-bit
    integers.  It has then changed nothing in the store and issued that
    one statement only.  In every other case it answers with a report
    whose [success] is [true]. *)
Theorem backfill_fails_exactly_when_its_select_fails
  (JSON_stringify : list number -> jsstring)
  (userId : Z) (limit : option Z) (w : world) :
  exists resp w',
    generateMissingEmbeddings JSON_stringify userId limit w = (Returned resp, w') /\
    if hd false (outages w) || negb (int4 userId)
       || (limitOf limit <? 0) || (2 ^ 63 - 1 <? limitOf limit)
    then
      resp = ErrorResponse 500 "Failed to generate embeddings" /\
      db w' = db w /\
      calls w' = calls w ++ [StoreQuery (SelectUnembedded userId (limitOf limit))]
    else
      exists r, resp = BackfillResult r /\ success r = true.
Proof.
  rewrite BackfillRuns.generateMissingEmbeddings_run. cbv zeta.
  destruct (hd false (outages w)).
  { do 2 eexists. split; [reflexivity|]. cbn [orb]. auto. }
  cbn [orb]. unfold selectUnembedded, asInteger, limitRows.
  destruct (int4 userId); cbn [negb orb].
  2:{ do 2 eexists. split; [reflexivity|]. auto. }
  destruct ((limitOf limit <? 0) || (2 ^ 63 - 1 <? limitOf limit)).
  { do 2 eexists. split; [reflexivity|]. auto. }
  do 2 eexists. split; [reflexivity|].
  unfold backfillResult. destruct (count _ =? 0); eexists; split; reflexivity.
Qed.

(** X21.  The select of the job trims spaces only, the helper trims all
    white space.  When every fetched content trims, as the helper trims,
    to fewer than three code units, the job reports every fetched message
    as a success, without any request to the endpoint and without any
    change to the store; the next run fetches the same rows. *)
Theorem backfill_counts_contents_it_never_embeds
  (JSON_stringify : list number -> jsstring)
  (userId : Z) (limit : option Z) (w : world) (rows : list unembedded_row) :
  reachable w ->
  selectUnembedded userId (limitOf limit) (db w) = Returned rows ->
  Forall (fun row => strlen (trim (ur_content row)) < 3) rows ->
  exists w',
    generateMissingEmbeddings JSON_stringify userId limit w
    = (Returned (backfillResult rows), w') /\
    db w' = db w /\
    calls w' = calls w ++ [StoreQuery (SelectUnembedded userId (limitOf limit))] /\
    selectUnembedded userId (limitOf limit) (db w') = Returned rows.
Proof.
  intros Hreach Hsel Hshort. unfold reachable in Hreach.
  rewrite BackfillRuns.generateMissingEmbeddings_run. cbv zeta.
  rewrite Hreach, Hsel. rewrite BackfillLoop.afterRows_skips.
  - eexists. split; [reflexivity|]. cbn [db calls afterQuery]. auto.
  - apply Forall_forall. intros row Hin.
    pose proof (proj1 (Forall_forall _ _) Hshort row Hin) as Hlt. cbn beta in Hlt.
    destruct (accepted (ur_content row)) eqn:Hacc; [|reflexivity].
    apply HelperLaws.accepted_length in Hacc. lia.
Qed.


Lemma backfill_counts_contents_it_never_embeds_witness :
  selectUnembedded 7 100 MoreExamples.padded
  = Returned [ {| ur_id := 13; ur_content := [9; 111; 107; 10]%N |} ] /\
  strlen (trim [9; 111; 107; 10]%N) < 3 /\
  exists w',
    generateMissingEmbeddings Examples.stringify 7 None MoreExamples.paddedWorld
    = (Returned Examples.oneProcessedOneSucceeded, w') /\
    db w' = MoreExamples.padded /\
    calls w' = [StoreQuery (SelectUnembedded 7 100)].
Proof.
  assert (Hsel : selectUnembedded 7 (limitOf None) (db MoreExamples.paddedWorld)
                 = Returned [ {| ur_id := 13; ur_content := [9; 111; 107; 10]%N |} ])
    by (vm_compute; reflexivity).
  assert (Hshort : strlen (trim [9; 111; 107; 10]%N) < 3) by (vm_compute; reflexivity).
  assert (Hall : Forall (fun row => strlen (trim (ur_content row)) < 3)
                   [ {| ur_id := 13; ur_content := [9; 111; 107; 10]%N |} ])
    by (constructor; [exact Hshort|constructor]).
  split; [exact Hsel|]. split; [exact Hshort|].
  destruct (@backfill_counts_contents_it_never_embeds Examples.stringify 7 None
              MoreExamples.paddedWorld _ eq_refl Hsel Hall)
    as (w' & H & Hdb & Hcalls & _).
  exists w'. split; [exact H|]. split; [exact Hdb|exact Hcalls].
Defined.


End BackfillProperties.

(* ================================================================= *)
(** ** Properties of [deleteConversation] *)

Section DeletionProperties.
Import JS Db World ChatController Terms Steps Backfill Deletion.

(** X23.  When the store answers its three statements, [deleteConversation]
    answers with success and removes every message of the conversation,
    with the embedding rows of those messages, whoever the conversation
    belongs to; the conversation row itself goes only when it belongs to
    [userId].  No other row of any table changes.  In particular, with
    the [userId] of somebody else, or none, the messages of the
    conversation are deleted and the conversation stays. *)
Theorem deleteConversation_removes_messages_of_any_owner
  (cid : Z) (userId : parameter) (uid : option Z) (w : world) :
  - 2 ^ 31 <= cid < 2 ^ 31 ->
  bound userId = Returned uid ->
  hd false (outages w) = false ->
  hd false (tl (outages w)) = false ->
  hd false (tl (tl (outages w))) = false ->
  exists w',
    deleteConversation (Integer cid) userId w
    = (Returned (Deleted true "Conversation deleted"), w') /\
    messages (db w') =
    filter (fun m => negb (inConversation cid m)) (messages (db w)) /\
    embeddings (db w') =
    filter (fun e => negb (embedsConversation (db w) cid e)) (embeddings (db w)) /\
    conversations (db w') =
    filter (fun c => negb ((c_id c =? cid) && equals (c_user_id c) uid))
           (conversations (db w)).
Proof.
  intros Hcid Hu H1 H2 H3. rewrite DeletionFacts.deleteConversation_run. cbv zeta.
  rewrite H1, H2, H3.
  rewrite (DeletionFacts.deleteEmbeddingsOfConversation_integer (db w) Hcid). cbn [fst snd].
  rewrite (DeletionFacts.deleteMessagesOfConversation_integer (db w) Hcid). cbn [fst snd].
  rewrite (DeletionFacts.deleteConversationOfUser_integer userId (db w) Hcid Hu).
  cbn [fst snd]. eexists. split; [reflexivity|].
  cbn [db afterRun withoutConversation messages embeddings conversations].
  auto.
Qed.

(** X24.  [deleteConversation] is not atomic.  When its first statement
    goes through and the second cannot reach the store, it answers 500
    with the embedding rows of the conversation deleted and its messages
    kept.  When the first two go through and the third fails, because the
    store cannot be reached or because [userId] is no integer the store
    accepts, it answers 500 with the messages deleted as well. *)
Theorem deleteConversation_is_not_atomic
  (cid : Z) (userId : parameter) (w : world) :
  - 2 ^ 31 <= cid < 2 ^ 31 ->
  hd false (outages w) = false ->
  (hd false (tl (outages w)) = true ->
   exists w',
     deleteConversation (Integer cid) userId w
     = (Returned (DeletionError 500 "Failed to delete conversation"), w') /\
     db w' = withoutEmbeddings cid (db w)) /\
  (hd false (tl (outages w)) = false ->
   hd false (tl (tl (outages w))) = true \/ (exists e, bound userId = Thrown e) ->
   exists w',
     deleteConversation (Integer cid) userId w
     = (Returned (DeletionError 500 "Failed to delete conversation"), w') /\
     db w' = withoutMessages cid (db w)).
Proof.
  intros Hcid H1. split.
  - intros H2. rewrite DeletionFacts.deleteConversation_run. cbv zeta.
    rewrite H1, H2.
    rewrite (DeletionFacts.deleteEmbeddingsOfConversation_integer (db w) Hcid).
    cbn [fst snd]. eexists. split; reflexivity.
  - intros H2 H3. rewrite DeletionFacts.deleteConversation_run. cbv zeta.
    rewrite H1, H2.
    rewrite (DeletionFacts.deleteEmbeddingsOfConversation_integer (db w) Hcid).
    cbn [fst snd].
    rewrite (DeletionFacts.deleteMessagesOfConversation_integer (db w) Hcid).
    cbn [fst snd].
    destruct (hd false (tl (tl (outages w)))) eqn:E3.
    + eexists. split; reflexivity.
    + destruct H3 as [H3|(e & He)]; [discriminate|].
      unfold deleteConversationOfUser.
      rewrite (DeletionFacts.bound_integer Hcid), He. cbn [fst snd].
      eexists. split; reflexivity.
Qed.

(** X25.  Whatever its parameters and whatever fails, [deleteConversation]
    never throws, adds no row to any table, leaves the embedding endpoint
    alone, and keeps the [UNIQUE] and the foreign-key constraint of
    [embeddings]: no embedding row is left without its message. *)
Theorem deleteConversation_only_removes_rows
  (conversationId userId : parameter) (w : world) :
  exists resp w',
    deleteConversation conversationId userId w = (Returned resp, w') /\
    shrinks (db w) (db w') /\
    ollama w' = ollama w /\ calls w' = calls w.
Proof.
  rewrite DeletionFacts.deleteConversation_run. cbv zeta.
  pose proof (DeletionFacts.deleteEmbeddingsOfConversation_shrinks conversationId (db w))
    as S1.
  pose proof (DeletionFacts.deleteMessagesOfConversation_shrinks conversationId
                (snd (deleteEmbeddingsOfConversation conversationId (db w)))) as S2.
  pose proof (DeletionFacts.deleteConversationOfUser_shrinks conversationId userId
                (snd (deleteMessagesOfConversation conversationId
                        (snd (deleteEmbeddingsOfConversation conversationId (db w))))))
    as S3.
  pose proof (DeletionFacts.shrinks_trans S1 S2) as S12.
  pose proof (DeletionFacts.shrinks_trans S12 S3) as S123.
  destruct (hd false (outages w)).
  { do 2 eexists. split; [reflexivity|]. split; [apply DeletionFacts.shrinks_refl|].
    split; reflexivity. }
  destruct (fst (deleteEmbeddingsOfConversation conversationId (db w))).
  2:{ do 2 eexists. split; [reflexivity|]. split; [exact S1|]. split; reflexivity. }
  destruct (hd false (tl (outages w))).
  { do 2 eexists. split; [reflexivity|]. split; [exact S1|]. split; reflexivity. }
  destruct (fst (deleteMessagesOfConversation conversationId _)).
  2:{ do 2 eexists. split; [reflexivity|]. split; [exact S12|]. split; reflexivity. }
  destruct (hd false (tl (tl (outages w)))).
  { do 2 eexists. split; [reflexivity|]. split; [exact S12|]. split; reflexivity. }
  destruct (fst (deleteConversationOfUser conversationId userId _)).
  - do 2 eexists. split; [reflexivity|]. split; [exact S123|]. split; reflexivity.
  - do 2 eexists. split; [reflexivity|]. split; [exact S123|]. split; reflexivity.
Qed.

Lemma deleteConversation_removes_messages_of_any_owner_witness :
  exists w',
    deleteConversation (Integer 2) (Integer 8) Examples.answering
    = (Returned (Deleted true "Conversation deleted"), w') /\
    map m_id (messages (db w')) = [10] /\
    map e_message_id (embeddings (db w')) = [10] /\
    map c_id (conversations (db w')) = [1; 2].
Proof.
  assert (Hcid : - 2 ^ 31 <= 2 < 2 ^ 31) by lia.
  destruct (@deleteConversation_removes_messages_of_any_owner 2 (Integer 8) (Some 8)
              Examples.answering Hcid eq_refl eq_refl eq_refl eq_refl)
    as (w' & H & Hm & He & Hc).
  exists w'. split; [exact H|].
  rewrite Hm, He, Hc. repeat split; vm_compute; reflexivity.
Defined.

Lemma deleteConversation_is_not_atomic_witness :
  exists w',
    deleteConversation (Integer 2) (Integer 7) MoreExamples.failingSecond
    = (Returned (DeletionError 500 "Failed to delete conversation"), w') /\
    map m_id (messages (db w')) = [10; 11; 12] /\
    map e_message_id (embeddings (db w')) = [10].
Proof.
  assert (Hcid : - 2 ^ 31 <= 2 < 2 ^ 31) by lia.
  destruct (proj1 (@deleteConversation_is_not_atomic 2 (Integer 7)
                     MoreExamples.failingSecond Hcid eq_refl) eq_refl)
    as (w' & H & Hdb).
  exists w'. split; [exact H|]. rewrite Hdb. split; vm_compute; reflexivity.
Defined.

(** X26.  Deleting a conversation again changes nothing: when the store
    answers every statement, a second [deleteConversation] with the same
    parameters answers with success and leaves the store as the first
    left it. *)
Theorem deleting_a_conversation_again_changes_nothing
  (cid : Z) (userId : parameter) (uid : option Z) (w : world) :
  - 2 ^ 31 <= cid < 2 ^ 31 ->
  bound userId = Returned uid ->
  alwaysReachable w ->
  exists w1 w2,
    deleteConversation (Integer cid) userId w
    = (Returned (Deleted true "Conversation deleted"), w1) /\
    deleteConversation (Integer cid) userId w1
    = (Returned (Deleted true "Conversation deleted"), w2) /\
    db w2 = db w1.
Proof.
  intros Hcid Hu Hreach. unfold alwaysReachable in Hreach.
  destruct (DeletionFacts.alwaysReachable_tl Hreach) as [H1 R1].
  destruct (DeletionFacts.alwaysReachable_tl R1) as [H2 R2].
  destruct (DeletionFacts.alwaysReachable_tl R2) as [H3 R3].
  destruct (DeletionFacts.alwaysReachable_tl R3) as [H4 R4].
  destruct (DeletionFacts.alwaysReachable_tl R4) as [H5 R5].
  destruct (DeletionFacts.alwaysReachable_tl R5) as [H6 _].
  do 2 eexists. split; [|split].
  - exact (DeletionFacts.deleteConversation_done userId w Hcid Hu H1 H2 H3).
  - apply (DeletionFacts.deleteConversation_done userId _ Hcid Hu); assumption.
  - cbn [db afterRun]. apply DeletionFacts.withoutConversation_twice.
Qed.

Lemma deleting_a_conversation_again_changes_nothing_witness :
  exists w1 w2,
    deleteConversation (Integer 2) (Integer 7) Examples.answering
    = (Returned (Deleted true "Conversation deleted"), w1) /\
    deleteConversation (Integer 2) (Integer 7) w1
    = (Returned (Deleted true "Conversation deleted"), w2) /\
    db w2 = db w1 /\
    map c_id (conversations (db w1)) = [1].
Proof.
  assert (Hcid : - 2 ^ 31 <= 2 < 2 ^ 31) by lia.
  assert (Hreach : alwaysReachable Examples.answering) by constructor.
  destruct (@deleting_a_conversation_again_changes_nothing 2 (Integer 7) (Some 7)
              Examples.answering Hcid eq_refl Hreach)
    as (w1 & w2 & E1 & E2 & Hdb).
  exists w1, w2. split; [exact E1|]. split; [exact E2|]. split; [exact Hdb|].
  assert (Hw1 : fst (deleteConversation (Integer 2) (Integer 7) Examples.answering)
                = Returned (Deleted true "Conversation deleted") /\
                map c_id (conversations
                            (db (snd (deleteConversation (Integer 2) (Integer 7)
                                        Examples.answering)))) = [1])
    by (vm_compute; split; reflexivity).
  rewrite E1 in Hw1. exact (proj2 Hw1).
Defined.

(** X27.  After [deleteConversation] went through, the messages of the
    conversation are out of reach of the rest of the controller: no
    search, for any user and query, on a world with the store as the
    deletion left it, returns a hit or a group of that conversation, and
    the select of the backfill job returns only messages of other
    conversations. *)
Theorem deleted_messages_leave_search_and_backfill
  (JSON_parse : jsstring -> completion (option (list number)))
  (ILIKE : jsstring -> jsstring -> bool)
  (cid : Z) (userId : parameter) (uid : option Z) (w : world) :
  - 2 ^ 31 <= cid < 2 ^ 31 ->
  bound userId = Returned uid ->
  hd false (outages w) = false ->
  hd false (tl (outages w)) = false ->
  hd false (tl (tl (outages w))) = false ->
  exists w1,
    deleteConversation (Integer cid) userId w
    = (Returned (Deleted true "Conversation deleted"), w1) /\
    (forall searcher query w2 w3 groups total ty model,
        db w2 = db w1 ->
        searchMessages JSON_parse ILIKE searcher query w2
        = (Returned (SearchResult groups total ty model), w3) ->
        forall g h, In g groups -> In h (g_messages g) ->
                    conversationId h <> cid /\ g_conversationId g <> cid) /\
    (forall user limit rows,
        selectUnembedded user limit (db w1) = Returned rows ->
        forall row, In row rows ->
          exists m, In m (messages (db w)) /\ m_id m = ur_id row /\
                    m_conversation_id m <> cid).
Proof.
  intros Hcid Hu H1 H2 H3.
  eexists. split; [exact (DeletionFacts.deleteConversation_done userId w Hcid Hu H1 H2 H3)|].
  cbn [db afterRun].
  assert (Hleft : forall user m c,
            In (m, c) (messagesOfUser (withoutConversation cid uid (db w)) user) ->
            In m (messages (db w)) /\ m_conversation_id m <> cid).
  { intros user m c Hmc. apply SelectFacts.in_messagesOfUser in Hmc as (Hm & _).
    cbn [withoutConversation messages] in Hm. apply filter_In in Hm as [Hm Hc].
    split; [exact Hm|]. apply negb_true_iff in Hc. unfold inConversation in Hc.
    now apply Z.eqb_neq. }
  split.
  - intros searcher query w2 w3 groups total ty model Hdb Hsearch g h Hg Hh.
    destruct (@SearchRuns.searchMessages_hits _ _ _ _ _ _ _ _ _ _ Hsearch g h Hg Hh)
      as (m & c & Hmc & _ & Hconv & Hgroup).
    rewrite Hdb in Hmc. destruct (Hleft _ _ _ Hmc) as [_ Hne].
    split; congruence.
  - intros user limit rows Hsel row Hrow.
    destruct (@SelectFacts.in_selectUnembedded _ _ _ _ _ Hsel Hrow)
      as (m & c & Hmc & _ & _ & ->).
    destruct (Hleft _ _ _ Hmc) as [Hm Hne]. exists m. auto.
Qed.

Lemma deleted_messages_leave_search_and_backfill_witness :
  exists w1,
    deleteConversation (Integer 2) (Integer 7) Examples.answering
    = (Returned (Deleted true "Conversation deleted"), w1) /\
    forall rows,
      selectUnembedded 7 100 (db w1) = Returned rows ->
      forall row, In row rows ->
        exists m, In m (messages Examples.store) /\ m_id m = ur_id row /\
                  m_conversation_id m <> 2.
Proof.
  assert (Hcid : - 2 ^ 31 <= 2 < 2 ^ 31) by lia.
  destruct (@deleted_messages_leave_search_and_backfill Examples.parse Examples.matchAll
              2 (Integer 7) (Some 7) Examples.answering Hcid eq_refl eq_refl eq_refl eq_refl)
    as (w1 & E & _ & Hback).
  exists w1. split; [exact E|]. intros rows. apply Hback.
Defined.

End DeletionProperties.
